(** * Kea: performance-monitoring durations and the statistics manager

    A shallow embedding of
      - src/hooks/dhcp/perfmon/monitored_duration.cc
      - src/hooks/dhcp/perfmon/monitored_duration_store.cc
      - src/lib/stats/stats_mgr.cc (with src/lib/stats/observation.h)
    and the properties of these units stated in the design document.

    Conventions.  Fixed-width unsigned integers are carried as [Z]; the code
    under study performs no arithmetic on them besides comparison, so no
    wrap-around has to be written out.  A C++ exception is an [Exception]
    value carried by the [Throw] outcome together with the state in which it
    left the program.  The clock read by [PktEvent::now()] is an explicit
    argument [now]. *)

From Stdlib Require Import ZArith String Ascii List Bool Lia.
From stdpp Require Import base option list gmap strings.

Local Open Scope string_scope.
Local Open Scope Z_scope.

(** ** Exceptions and outcomes *)

(** The exception classes thrown by the embedded code.  The message text of
    an exception is not modelled. *)
Inductive Exception : Type :=
  | BadValue
  | InvalidOperation
  | DuplicateDurationKey
  | NotImplemented
  | TypeError.

(** A call either returns a value, or throws; both leave a state behind.
    [Undefined] stands for dereferencing a pointer that designates no
    object, which the C++ code cannot reach (all pointers are shared
    pointers, and the index of the store is a red-black tree) but which a
    Rocq value of the state type can encode. *)
Inductive outcome (St A : Type) : Type :=
  | Return (a : A) (s : St)
  | Throw (e : Exception) (s : St)
  | Undefined.

Arguments Return {St A} a s.
Arguments Throw {St A} e s.
Arguments Undefined {St A}.

(** A constructor either yields the object or throws (and creates nothing);
    likewise a [const] accessor either yields its value or throws. *)
Inductive constructed (A : Type) : Type :=
  | Built (a : A)
  | Failed (e : Exception).

Arguments Built {A} a.
Arguments Failed {A} e.

(** ** Durations and timestamps ([boost::posix_time]) *)

(** [boost::posix_time::ptime], in microseconds since the epoch. *)
Definition Timestamp : Type := Z.

(** [boost::posix_time::time_duration]: a signed tick count (microseconds)
    or one of the special values the constructor of [DurationDataInterval]
    uses. *)
Inductive Duration : Type :=
  | neg_infin
  | microseconds (ticks : Z)
  | pos_infin
  | not_a_date_time.

Definition ZERO_DURATION : Duration := microseconds 0.

(** [a < b] on durations: special values compare as infinities, and
    [not_a_date_time] is neither below nor above anything. *)
Definition dur_ltb (a b : Duration) : bool :=
  match a, b with
  | not_a_date_time, _ | _, not_a_date_time => false
  | neg_infin, neg_infin => false
  | neg_infin, _ => true
  | _, neg_infin => false
  | pos_infin, _ => false
  | _, pos_infin => true
  | microseconds x, microseconds y => x <? y
  end.

Definition dur_gtb (a b : Duration) : bool := dur_ltb b a.

(** [a <= b] is defined by Boost's operator templates as [!(b < a)]. *)
Definition dur_leb (a b : Duration) : bool := negb (dur_ltb b a).

(** [a + b] ([operator+=] on [total_duration_]). *)
Definition dur_add (a b : Duration) : Duration :=
  match a, b with
  | not_a_date_time, _ | _, not_a_date_time => not_a_date_time
  | pos_infin, neg_infin | neg_infin, pos_infin => not_a_date_time
  | pos_infin, _ | _, pos_infin => pos_infin
  | neg_infin, _ | _, neg_infin => neg_infin
  | microseconds x, microseconds y => microseconds (x + y)
  end.

(** [a / n] for [n <> 0]: integer division of the tick count, truncating
    toward zero as C++ does; an infinity keeps or flips its sign with the
    sign of [n]. *)
Definition dur_div (a : Duration) (n : Z) : Duration :=
  match a with
  | microseconds x => microseconds (Z.quot x n)
  | not_a_date_time => not_a_date_time
  | pos_infin => if 0 <? n then pos_infin else neg_infin
  | neg_infin => if 0 <? n then neg_infin else pos_infin
  end.

(** [t1 - t0] on timestamps. *)
Definition time_diff (t1 t0 : Timestamp) : Duration := microseconds (t1 - t0).

Module Perfmon.

(** ** DurationDataInterval *)

Record DurationDataInterval : Type := mkInterval {
  start_time_ : Timestamp;
  occurrences_ : Z;
  min_duration_ : Duration;
  max_duration_ : Duration;
  total_duration_ : Duration
}.

(** [DurationDataInterval::DurationDataInterval(start_time)] *)
Definition DurationDataInterval_new (start_time : Timestamp) : DurationDataInterval :=
  {| start_time_ := start_time;
     occurrences_ := 0;
     min_duration_ := pos_infin;
     max_duration_ := neg_infin;
     total_duration_ := microseconds 0 |}.

(** [DurationDataInterval::addDuration] *)
Definition DurationDataInterval_addDuration (duration : Duration) (i : DurationDataInterval)
  : DurationDataInterval :=
  {| start_time_ := start_time_ i;
     occurrences_ := occurrences_ i + 1;
     min_duration_ :=
       if dur_ltb duration (min_duration_ i) then duration else min_duration_ i;
     max_duration_ :=
       if dur_gtb duration (max_duration_ i) then duration else max_duration_ i;
     total_duration_ := dur_add (total_duration_ i) duration |}.

(** [DurationDataInterval::getAverageDuration].  The member [occurrences_] is
    declared in monitored_duration.h, which is not among the sources; it is
    carried as an unbounded count, and the conversion of the count to the
    integer type of Boost's division operator is not modelled. *)
Definition DurationDataInterval_getAverageDuration (i : DurationDataInterval) : Duration :=
  if occurrences_ i =? 0 then ZERO_DURATION
  else dur_div (total_duration_ i) (occurrences_ i).

(** The interval obtained from a fresh one by recording [samples] in order. *)
Definition record_samples (start : Timestamp) (samples : list Z)
  : DurationDataInterval :=
  fold_left (fun i s => DurationDataInterval_addDuration (microseconds s) i) samples
            (DurationDataInterval_new start).

(** ** DurationKey *)

(** Address families ([sys/socket.h]) and the message types of
    [dhcp/dhcp4.h] and [dhcp/dhcp6.h], with their RFC 2132 / RFC 8415
    values. *)
Definition AF_INET : Z := 2.
Definition AF_INET6 : Z := 10.

Definition DHCP_NOTYPE : Z := 0.
Definition DHCPDISCOVER : Z := 1.
Definition DHCPOFFER : Z := 2.
Definition DHCPREQUEST : Z := 3.
Definition DHCPDECLINE : Z := 4.
Definition DHCPACK : Z := 5.
Definition DHCPNAK : Z := 6.
Definition DHCPRELEASE : Z := 7.
Definition DHCPINFORM : Z := 8.

Definition DHCPV6_NOTYPE : Z := 0.
Definition DHCPV6_SOLICIT : Z := 1.
Definition DHCPV6_ADVERTISE : Z := 2.
Definition DHCPV6_REQUEST : Z := 3.
Definition DHCPV6_CONFIRM : Z := 4.
Definition DHCPV6_RENEW : Z := 5.
Definition DHCPV6_REBIND : Z := 6.
Definition DHCPV6_REPLY : Z := 7.

Record DurationKey : Type := mkKey {
  family_ : Z;                  (* uint16_t *)
  query_type_ : Z;              (* uint8_t *)
  response_type_ : Z;           (* uint8_t *)
  start_event_label_ : string;
  end_event_label_ : string;
  subnet_id_ : Z                (* dhcp::SubnetID, uint32_t *)
}.

(** [DurationKey::validateMessagePair]: [None] is a normal return, [Some e]
    the exception thrown.  Each [switch] is a chain of tests on its case
    labels; leaving a [case] by [break] reaches the throw (response type not
    valid) that follows the [switch]. *)
Definition validateMessagePair (family query_type response_type : Z)
  : option Exception :=
  if family =? AF_INET then
    if query_type =? DHCP_NOTYPE then
      if (response_type =? DHCP_NOTYPE) || (response_type =? DHCPOFFER)
         || (response_type =? DHCPACK) || (response_type =? DHCPNAK)
      then None else Some BadValue
    else if query_type =? DHCPDISCOVER then
      if (response_type =? DHCP_NOTYPE) || (response_type =? DHCPOFFER)
         || (response_type =? DHCPNAK)
      then None else Some BadValue
    else if query_type =? DHCPREQUEST then
      if (response_type =? DHCP_NOTYPE) || (response_type =? DHCPACK)
         || (response_type =? DHCPNAK)
      then None else Some BadValue
    else if query_type =? DHCPINFORM then
      if (response_type =? DHCP_NOTYPE) || (response_type =? DHCPACK)
      then None else Some BadValue
    else Some BadValue
  else
    if (query_type =? DHCPV6_NOTYPE) || (query_type =? DHCPV6_SOLICIT) then
      if (response_type =? DHCPV6_NOTYPE) || (response_type =? DHCPV6_ADVERTISE)
         || (response_type =? DHCPV6_REPLY)
      then None else Some BadValue
    else if (query_type =? DHCPV6_REQUEST) || (query_type =? DHCPV6_RENEW)
            || (query_type =? DHCPV6_REBIND) || (query_type =? DHCPV6_CONFIRM) then
      if (response_type =? DHCPV6_NOTYPE) || (response_type =? DHCPV6_REPLY)
      then None else Some BadValue
    else Some BadValue.

(** [DurationKey::DurationKey] *)
Definition DurationKey_new (family query_type response_type : Z)
    (start_event_label end_event_label : string) (subnet_id : Z)
  : constructed DurationKey :=
  if negb (family =? AF_INET) && negb (family =? AF_INET6) then Failed BadValue
  else
    match validateMessagePair family query_type response_type with
    | Some e => Failed e
    | None =>
        Built {| family_ := family;
                 query_type_ := query_type;
                 response_type_ := response_type;
                 start_event_label_ := start_event_label;
                 end_event_label_ := end_event_label;
                 subnet_id_ := subnet_id |}
    end.

(** [DurationKey::operator==] *)
Definition DurationKey_eqb (a b : DurationKey) : bool :=
  (family_ a =? family_ b)
  && (query_type_ a =? query_type_ b)
  && (response_type_ a =? response_type_ b)
  && String.eqb (start_event_label_ a) (start_event_label_ b)
  && String.eqb (end_event_label_ a) (end_event_label_ b)
  && (subnet_id_ a =? subnet_id_ b).

(** [DurationKey::operator!=] *)
Definition DurationKey_neqb (a b : DurationKey) : bool :=
  negb (DurationKey_eqb a b).

(** [DurationKey::operator<]; [std::string]'s [<] is the lexicographic
    order on character codes, which is [String.ltb]. *)
Definition DurationKey_ltb (a b : DurationKey) : bool :=
  (family_ a <? family_ b)
  || (query_type_ a <? query_type_ b)
  || (response_type_ a <? response_type_ b)
  || String.ltb (start_event_label_ a) (start_event_label_ b)
  || String.ltb (end_event_label_ a) (end_event_label_ b)
  || (subnet_id_ a <? subnet_id_ b).

(** The lexicographic strict order on the tuple (family, query-type,
    response-type, start-event-label, end-event-label, subnet-id), which the
    design document asks of [operator<]: at the first component where the
    keys differ, the left one is smaller. *)
Definition lex_ltb (a b : DurationKey) : bool :=
  match family_ a ?= family_ b with
  | Lt => true | Gt => false | Eq =>
  match query_type_ a ?= query_type_ b with
  | Lt => true | Gt => false | Eq =>
  match response_type_ a ?= response_type_ b with
  | Lt => true | Gt => false | Eq =>
  match String.compare (start_event_label_ a) (start_event_label_ b) with
  | Lt => true | Gt => false | Eq =>
  match String.compare (end_event_label_ a) (end_event_label_ b) with
  | Lt => true | Gt => false | Eq =>
    subnet_id_ a <? subnet_id_ b
  end end end end end.

(** The validated (query, response) combinations, as a table. *)
Definition valid_pairs4 : list (Z * Z) :=
  [ (DHCP_NOTYPE, DHCP_NOTYPE); (DHCP_NOTYPE, DHCPOFFER);
    (DHCP_NOTYPE, DHCPACK); (DHCP_NOTYPE, DHCPNAK);
    (DHCPDISCOVER, DHCP_NOTYPE); (DHCPDISCOVER, DHCPOFFER);
    (DHCPDISCOVER, DHCPNAK);
    (DHCPREQUEST, DHCP_NOTYPE); (DHCPREQUEST, DHCPACK); (DHCPREQUEST, DHCPNAK);
    (DHCPINFORM, DHCP_NOTYPE); (DHCPINFORM, DHCPACK) ].

Definition valid_pairs6 : list (Z * Z) :=
  [ (DHCPV6_NOTYPE, DHCPV6_NOTYPE); (DHCPV6_NOTYPE, DHCPV6_ADVERTISE);
    (DHCPV6_NOTYPE, DHCPV6_REPLY);
    (DHCPV6_SOLICIT, DHCPV6_NOTYPE); (DHCPV6_SOLICIT, DHCPV6_ADVERTISE);
    (DHCPV6_SOLICIT, DHCPV6_REPLY);
    (DHCPV6_REQUEST, DHCPV6_NOTYPE); (DHCPV6_REQUEST, DHCPV6_REPLY);
    (DHCPV6_RENEW, DHCPV6_NOTYPE); (DHCPV6_RENEW, DHCPV6_REPLY);
    (DHCPV6_REBIND, DHCPV6_NOTYPE); (DHCPV6_REBIND, DHCPV6_REPLY);
    (DHCPV6_CONFIRM, DHCPV6_NOTYPE); (DHCPV6_CONFIRM, DHCPV6_REPLY) ].

(** The invariant of a key: a known family and a validated message pair. *)
Definition valid_key (k : DurationKey) : Prop :=
  (family_ k = AF_INET /\ In (query_type_ k, response_type_ k) valid_pairs4)
  \/ (family_ k = AF_INET6 /\ In (query_type_ k, response_type_ k) valid_pairs6).

(** ** MonitoredDuration *)

(** [DurationDataIntervalPtr] is a shared pointer: several owners may hold
    the same interval object.  The objects live in a heap indexed by
    addresses; a null pointer is [None].  Reference counts are not modelled:
    a cell that lost its last owner simply stays in the heap, where nothing
    reads it, except where an exception unwinds through the only owner of a
    record just built (see [release]). *)
Abbreviation Heap := (gmap positive DurationDataInterval).
Abbreviation DurationDataIntervalPtr := (option positive).

(** [new DurationDataInterval(start)] at an address not in use. *)
Definition new_interval (start : Timestamp) (h : Heap) : positive * Heap :=
  let p := fresh (dom h) in (p, <[p := DurationDataInterval_new start]> h).

(** What a pointer designates. *)
Definition deref (h : Heap) (p : DurationDataIntervalPtr)
  : option DurationDataInterval :=
  match p with
  | None => None
  | Some a => h !! a
  end.

Record MonitoredDuration : Type := mkMonitored {
  key_ : DurationKey;                          (* the DurationKey base *)
  interval_duration_ : Duration;
  current_interval_ : DurationDataIntervalPtr;
  previous_interval_ : DurationDataIntervalPtr
}.

(** [MonitoredDuration::MonitoredDuration(const DurationKey&, const Duration&)] *)
Definition MonitoredDuration_of_key (key : DurationKey) (interval_duration : Duration)
  : constructed MonitoredDuration :=
  if dur_leb interval_duration ZERO_DURATION then Failed BadValue
  else Built {| key_ := key;
                interval_duration_ := interval_duration;
                current_interval_ := None;
                previous_interval_ := None |}.

(** [MonitoredDuration::MonitoredDuration(family, ..., interval_duration)]:
    the base-class constructor runs first. *)
Definition MonitoredDuration_new (family query_type response_type : Z)
    (start_event_label end_event_label : string) (subnet_id : Z)
    (interval_duration : Duration) : constructed MonitoredDuration :=
  match DurationKey_new family query_type response_type
          start_event_label end_event_label subnet_id with
  | Failed e => Failed e
  | Built key => MonitoredDuration_of_key key interval_duration
  end.

(** [MonitoredDuration(const MonitoredDuration&)]: monitored_duration.cc
    defines no copy constructor, so copy-constructing from a stored
    record runs the member-wise one: the key and the interval length are copied, and the two
    shared pointers are copied as pointers, so that the copy designates the
    same interval objects as the original. *)
Definition MonitoredDuration_copy (rhs : MonitoredDuration) : MonitoredDuration :=
  {| key_ := key_ rhs;
     interval_duration_ := interval_duration_ rhs;
     current_interval_ := current_interval_ rhs;
     previous_interval_ := previous_interval_ rhs |}.

(** The first half of [MonitoredDuration::addSample]: open or rotate the
    current interval.  Yields [do_report], the updated object and heap. *)
Definition addSample_open (now : Timestamp) (md : MonitoredDuration) (h : Heap)
  : option (bool * MonitoredDuration * Heap) :=
  match current_interval_ md with
  | None =>
      let '(p, h') := new_interval now h in
      Some (false,
            {| key_ := key_ md; interval_duration_ := interval_duration_ md;
               current_interval_ := Some p;
               previous_interval_ := previous_interval_ md |},
            h')
  | Some c =>
      match h !! c with
      | None => None
      | Some cur =>
          if dur_gtb (time_diff now (start_time_ cur)) (interval_duration_ md)
          then
            let '(p, h') := new_interval now h in
            Some (true,
                  {| key_ := key_ md; interval_duration_ := interval_duration_ md;
                     current_interval_ := Some p;
                     previous_interval_ := Some c |},
                  h')
          else Some (false, md, h)
      end
  end.

(** [MonitoredDuration::addSample]: after opening or rotating,
    [current_interval_->addDuration(sample)] updates the designated object
    in place. *)
Definition MonitoredDuration_addSample (now : Timestamp) (sample : Duration)
    (md : MonitoredDuration) (h : Heap)
  : outcome Heap (bool * MonitoredDuration) :=
  match addSample_open now md h with
  | None => Undefined
  | Some (do_report, md', h') =>
      match current_interval_ md' with
      | None => Undefined
      | Some c =>
          match h' !! c with
          | None => Undefined
          | Some cur =>
              Return (do_report, md')
                     (<[c := DurationDataInterval_addDuration sample cur]> h')
          end
      end
  end.

(** [MonitoredDuration::clear]: both pointers of this object are reset. *)
Definition MonitoredDuration_clear (md : MonitoredDuration) : MonitoredDuration :=
  {| key_ := key_ md; interval_duration_ := interval_duration_ md;
     current_interval_ := None; previous_interval_ := None |}.

(** What an observer reads off a monitored duration: its key, its interval
    length and the contents of the two intervals it designates. *)
Definition snapshot (h : Heap) (md : MonitoredDuration)
  : DurationKey * Duration
    * option DurationDataInterval * option DurationDataInterval :=
  (key_ md, interval_duration_ md,
   deref h (current_interval_ md), deref h (previous_interval_ md)).

(** ** MonitoredDurationStore *)

(** *** The container

    [MonitoredDurationContainer] is declared in monitored_duration_store.h,
    which is not among the sources.  The store uses it through
    [durations_.get<DurationKeyTag>()] with [find], [insert], [replace],
    [erase] and iteration: it is a Boost.MultiIndex container, and
    [DurationKeyTag] names an ordered unique index on the [DurationKey] of
    each record.  No comparison other than [DurationKey::operator<] is
    defined for keys, so that is the order of the index.  Whatever other
    index the header gives the container is taken not to refuse a record;
    the methods of the store use none.

    An ordered index is a red-black tree of nodes with parent pointers,
    hanging from a header node.  Here the tree is an inductive value; the
    position of a node is the node together with the path that leads from it
    up to the root, which stands for the parent pointers.  The algorithms
    below are those of the library (ordered_index_find, link_point, link and
    rebalance, rebalance_for_extract, in_place, replace_ and restore): they
    decide which records [find] reaches and which insertions are refused, and
    they depend on the shape of the tree, which is why rebalancing is part of
    the model.  A result [None] of an algorithm stands for a step that would
    dereference a null pointer or treat the header as a node; no red-black
    tree leads there. *)

Inductive ordered_index_color : Type := red | black.

Inductive ordered_index_side : Type := to_left | to_right.

(** A subtree; [null] is the null node pointer.  The whole container is the
    subtree at the root. *)
Inductive MonitoredDurationContainer : Type :=
  | null
  | node (color : ordered_index_color) (left : MonitoredDurationContainer)
      (value : MonitoredDuration) (right : MonitoredDurationContainer).

(** The records in the order in which the index enumerates them, from
    [begin()] to [end()].  A container written where a list is expected
    stands for this enumeration. *)
Fixpoint in_order (c : MonitoredDurationContainer) : list MonitoredDuration :=
  match c with
  | null => []
  | node _ l v r => (in_order l ++ v :: in_order r)%list
  end.

Coercion in_order : MonitoredDurationContainer >-> list.

Fixpoint size (c : MonitoredDurationContainer) : nat :=
  match c with
  | null => 0
  | node _ l _ r => S (size l + size r)
  end.

(** One step of the way up from a node: its parent's colour and value, the
    parent's other child, and on which side of the parent the node hangs. *)
Record ordered_index_frame : Type := mkFrame {
  f_side : ordered_index_side;
  f_color : ordered_index_color;
  f_value : MonitoredDuration;
  f_other : MonitoredDurationContainer
}.

(** The way up from a node to the root, nearest ancestor first; the empty
    path is that of the root, whose parent is the header. *)
Abbreviation ordered_index_path := (list ordered_index_frame).

(** The tree in which the subtree [t] hangs at the end of the path [p]. *)
Fixpoint plug (t : MonitoredDurationContainer) (p : ordered_index_path)
  : MonitoredDurationContainer :=
  match p with
  | [] => t
  | f :: p' =>
      plug (match f_side f with
            | to_left => node (f_color f) t (f_value f) (f_other f)
            | to_right => node (f_color f) (f_other f) (f_value f) t
            end) p'
  end.

(** An iterator that designates a node: the node and its path.  The
    iterator [end()] is [None] wherever an iterator may be the end. *)
Record iterator : Type := mkIterator {
  it_path : ordered_index_path;
  it_color : ordered_index_color;
  it_left : MonitoredDurationContainer;
  it_value : MonitoredDuration;
  it_right : MonitoredDurationContainer
}.

Definition is_red (t : MonitoredDurationContainer) : bool :=
  match t with
  | node red _ _ _ => true
  | _ => false
  end.

Definition set_color (c : ordered_index_color) (t : MonitoredDurationContainer)
  : MonitoredDurationContainer :=
  match t with
  | null => null
  | node _ l v r => node c l v r
  end.

(** [ordered_index_find]: [top] runs down from the root, [y] is the last
    node whose key is not below [x]. *)
Fixpoint ordered_index_find (x : DurationKey) (top : MonitoredDurationContainer)
    (p : ordered_index_path) (y : option iterator) : option iterator :=
  match top with
  | null => y
  | node c l v r =>
      if negb (DurationKey_ltb (key_ v) x)
      then ordered_index_find x l (mkFrame to_left c v r :: p)
             (Some (mkIterator p c l v r))
      else ordered_index_find x r (mkFrame to_right c v l :: p) y
  end.

(** [index.find(k)]: the node the descent stopped at, unless [k] is below
    its key. *)
Definition container_find (k : DurationKey) (c : MonitoredDurationContainer)
  : option iterator :=
  match ordered_index_find k c [] None with
  | None => None
  | Some y => if DurationKey_ltb k (key_ (it_value y)) then None else Some y
  end.

(** The descent of [link_point]: down to a null link, to the left where [k]
    is below the key of the node and to the right otherwise.  The result is
    the path of that link; its first frame is the node [y] the descent
    visited last, with the side taken there. *)
Fixpoint link_point_descent (k : DurationKey) (x : MonitoredDurationContainer)
    (p : ordered_index_path) : ordered_index_path :=
  match x with
  | null => p
  | node c l v r =>
      if DurationKey_ltb k (key_ v)
      then link_point_descent k l (mkFrame to_left c v r :: p)
      else link_point_descent k r (mkFrame to_right c v l :: p)
  end.

(** [decrement] from a node that has no left child: up while the node is a
    left child; [None] when the climb ends at the header, that is, when the
    node is the leftmost one. *)
Fixpoint climb_from_left (p : ordered_index_path) : option MonitoredDuration :=
  match p with
  | [] => None
  | f :: p' =>
      match f_side f with
      | to_left => climb_from_left p'
      | to_right => Some (f_value f)
      end
  end.

(** [increment] from a node that has no right child. *)
Fixpoint climb_from_right (p : ordered_index_path) : option MonitoredDuration :=
  match p with
  | [] => None
  | f :: p' =>
      match f_side f with
      | to_right => climb_from_right p'
      | to_left => Some (f_value f)
      end
  end.

(** [link_point] of an ordered unique index: where a node with key [k] is to
    be linked, or [None] when the insertion is refused.  After the descent,
    [yy] is [y] when the last step went right and the node before [y] when
    it went left; the insertion is accepted when there is no such node or
    when its key is below [k]. *)
Definition link_point (k : DurationKey) (c : MonitoredDurationContainer)
  : option ordered_index_path :=
  let p := link_point_descent k c [] in
  match p with
  | [] => Some p
  | f :: above =>
      match f_side f with
      | to_left =>
          match climb_from_left above with
          | None => Some p
          | Some yy => if DurationKey_ltb (key_ yy) k then Some p else None
          end
      | to_right =>
          if DurationKey_ltb (key_ (f_value f)) k then Some p else None
      end
  end.

(** The loop of [rebalance], which runs after a node has been linked: [x] is
    the red node with children [xl], [xr] and value [xv], at the end of the
    path [p].  While the parent of [x] is red: when the uncle [y] is red
    too, parent and uncle become black, the grandparent becomes red and
    takes the role of [x]; otherwise one or two rotations end the loop. *)
Fixpoint rebalance (xl : MonitoredDurationContainer) (xv : MonitoredDuration)
    (xr : MonitoredDurationContainer) (p : ordered_index_path)
  : option MonitoredDurationContainer :=
  match p with
  | [] => Some (node red xl xv xr)
  | fp :: p1 =>
      match f_color fp with
      | black => Some (plug (node red xl xv xr) p)
      | red =>
          match p1 with
          | [] => None
          | fg :: p2 =>
              let pv := f_value fp in
              let gv := f_value fg in
              let y := f_other fg in
              match f_side fg with
              | to_left =>
                  if is_red y then
                    rebalance
                      (match f_side fp with
                       | to_left => node black (node red xl xv xr) pv (f_other fp)
                       | to_right => node black (f_other fp) pv (node red xl xv xr)
                       end)
                      gv (set_color black y) p2
                  else
                    Some (plug
                      (match f_side fp with
                       | to_right =>
                           node black (node red (f_other fp) pv xl) xv
                             (node red xr gv y)
                       | to_left =>
                           node black (node red xl xv xr) pv
                             (node red (f_other fp) gv y)
                       end) p2)
              | to_right =>
                  if is_red y then
                    rebalance (set_color black y) gv
                      (match f_side fp with
                       | to_left => node black (node red xl xv xr) pv (f_other fp)
                       | to_right => node black (f_other fp) pv (node red xl xv xr)
                       end)
                      p2
                  else
                    Some (plug
                      (match f_side fp with
                       | to_left =>
                           node black (node red y gv xl) xv
                             (node red xr pv (f_other fp))
                       | to_right =>
                           node black (node red y gv (f_other fp)) pv
                             (node red xl xv xr)
                       end) p2)
              end
          end
      end
  end.

(** [link]: the node with value [v] is attached at the null link of path [p]
    and the tree is rebalanced; the root ends black. *)
Definition link (v : MonitoredDuration) (p : ordered_index_path)
  : option MonitoredDurationContainer :=
  match rebalance null v null p with
  | None => None
  | Some t => Some (set_color black t)
  end.

(** [durations_.insert(m)]: the container and [true] when the record went
    in, the container as it was and [false] when it was refused. *)
Definition container_insert (m : MonitoredDuration) (c : MonitoredDurationContainer)
  : option (MonitoredDurationContainer * bool) :=
  match link_point (key_ m) c with
  | None => Some (c, false)
  | Some p =>
      match link m p with
      | None => None
      | Some c' => Some (c', true)
      end
  end.

(** The leftmost node of a subtree that hangs at the end of [p]. *)
Fixpoint minimum (t : MonitoredDurationContainer) (p : ordered_index_path)
  : option iterator :=
  match t with
  | null => None
  | node c l v r =>
      match l with
      | null => Some (mkIterator p c l v r)
      | node _ _ _ _ => minimum l (mkFrame to_left c v r :: p)
      end
  end.

(** One round of the loop of [rebalance_for_extract] for [x] the left child
    of [x_parent], whose colour is [pc] and value [pv], once the sibling [w]
    is known not to be red.  Yields the subtree that takes the place of
    [x_parent], and [true] when the loop goes on with [x_parent] for [x]
    (both children of [w] black: [w] becomes red), [false] when rotations
    have ended it. *)
Definition extract_round_left (x : MonitoredDurationContainer)
    (pc : ordered_index_color) (pv : MonitoredDuration)
    (w : MonitoredDurationContainer)
  : option (MonitoredDurationContainer * bool) :=
  match w with
  | null => None
  | node _ wl wv wr =>
      if negb (is_red wl) && negb (is_red wr) then
        Some (node pc x pv (node red wl wv wr), true)
      else if negb (is_red wr) then
        match wl with
        | null => None
        | node _ wll wlv wlr =>
            Some (node pc (node black x pv wll) wlv (node black wlr wv wr), false)
        end
      else Some (node pc (node black x pv wl) wv (set_color black wr), false)
  end.

(** The same with right and left exchanged: [x] is the right child. *)
Definition extract_round_right (x : MonitoredDurationContainer)
    (pc : ordered_index_color) (pv : MonitoredDuration)
    (w : MonitoredDurationContainer)
  : option (MonitoredDurationContainer * bool) :=
  match w with
  | null => None
  | node _ wl wv wr =>
      if negb (is_red wr) && negb (is_red wl) then
        Some (node pc (node red wl wv wr) pv x, true)
      else if negb (is_red wl) then
        match wr with
        | null => None
        | node _ wrl wrv wrr =>
            Some (node pc (node black wl wv wrl) wrv (node black wrr pv x), false)
        end
      else Some (node pc (set_color black wl) wv (node black wr pv x), false)
  end.

(** The loop of [rebalance_for_extract], entered when the node that left
    the tree was black: [x], null or not, hangs where that node was, at the
    end of [p].  The loop runs while [x] is not the root and is black or
    null; a red sibling is first made black and rotated above [x_parent],
    which becomes red.  At the end [x], if there is one, is made black. *)
Fixpoint extract_fixup (x : MonitoredDurationContainer) (p : ordered_index_path)
  : option MonitoredDurationContainer :=
  match p with
  | [] => Some (set_color black x)
  | f :: p' =>
      if is_red x then Some (plug (set_color black x) p)
      else
        match f_side f with
        | to_left =>
            match f_other f with
            | null => None
            | node red wl wv wr =>
                match extract_round_left x red (f_value f) wl with
                | None => None
                | Some (t, again) =>
                    Some (plug (node black (if again then set_color black t else t)
                                  wv wr) p')
                end
            | node black _ _ _ =>
                match extract_round_left x (f_color f) (f_value f) (f_other f) with
                | None => None
                | Some (t, true) => extract_fixup t p'
                | Some (t, false) => Some (plug t p')
                end
            end
        | to_right =>
            match f_other f with
            | null => None
            | node red wl wv wr =>
                match extract_round_right x red (f_value f) wr with
                | None => None
                | Some (t, again) =>
                    Some (plug (node black wl wv
                                  (if again then set_color black t else t)) p')
                end
            | node black _ _ _ =>
                match extract_round_right x (f_color f) (f_value f) (f_other f) with
                | None => None
                | Some (t, true) => extract_fixup t p'
                | Some (t, false) => Some (plug t p')
                end
            end
        end
  end.

(** What is left once a node of colour [c] has gone and [x] hangs in its
    place at the end of [p]. *)
Definition unlinked (c : ordered_index_color) (x : MonitoredDurationContainer)
    (p : ordered_index_path) : option MonitoredDurationContainer :=
  match c with
  | red => Some (plug x p)
  | black => extract_fixup x p
  end.

(** [rebalance_for_extract]: the node [z] leaves the tree.  With at most
    one child, the child [x] takes its place.  With two children, the
    successor [y] of [z], the leftmost node of its right subtree, takes the
    place and the colour of [z], and the right child [x] of [y] takes the
    place of [y]; the colour that leaves the tree is then that of [y]. *)
Definition rebalance_for_extract (z : iterator)
  : option MonitoredDurationContainer :=
  match it_left z, it_right z with
  | null, x => unlinked (it_color z) x (it_path z)
  | x, null => unlinked (it_color z) x (it_path z)
  | zl, zr =>
      match minimum zr [] with
      | None => None
      | Some y =>
          unlinked (it_color y) (it_right y)
            (it_path y ++ mkFrame to_right (it_color z) (it_value y) zl :: it_path z)%list
      end
  end.

(** [durations_.erase(it)] *)
Definition container_erase (it : iterator) : option MonitoredDurationContainer :=
  rebalance_for_extract it.

Fixpoint maximum_value (t : MonitoredDurationContainer) : option MonitoredDuration :=
  match t with
  | null => None
  | node _ _ v r =>
      match r with
      | null => Some v
      | node _ _ _ _ => maximum_value r
      end
  end.

Fixpoint minimum_value (t : MonitoredDurationContainer) : option MonitoredDuration :=
  match t with
  | null => None
  | node _ l v _ =>
      match l with
      | null => Some v
      | node _ _ _ _ => minimum_value l
      end
  end.

(** The record before the one an iterator designates; [None] when the
    iterator designates the leftmost node. *)
Definition decrement (x : iterator) : option MonitoredDuration :=
  match it_left x with
  | null => climb_from_left (it_path x)
  | node _ _ _ _ => maximum_value (it_left x)
  end.

(** The record after the one an iterator designates; [None] when
    [increment] leads to the header. *)
Definition increment (x : iterator) : option MonitoredDuration :=
  match it_right x with
  | null => climb_from_right (it_path x)
  | node _ _ _ _ => minimum_value (it_right x)
  end.

(** [in_place] of an ordered unique index: may the node [x] keep its
    position when it is given the value [v]? *)
Definition in_place (v : MonitoredDuration) (x : iterator) : bool :=
  match decrement x with
  | None => true
  | Some y => DurationKey_ltb (key_ y) (key_ v)
  end
  && match increment x with
     | None => true
     | Some y => DurationKey_ltb (key_ v) (key_ y)
     end.

(** The number of records before a node, given its path and left subtree. *)
Fixpoint before (p : ordered_index_path) : nat :=
  match p with
  | [] => 0
  | f :: p' =>
      match f_side f with
      | to_left => before p'
      | to_right => S (size (f_other f) + before p')
      end
  end.

Definition rank (x : iterator) : nat :=
  (size (it_left x) + before (it_path x))%nat.

(** The node before which [i] records are enumerated, in a subtree that
    hangs at the end of [p]. *)
Fixpoint locate (i : nat) (t : MonitoredDurationContainer) (p : ordered_index_path)
  : option iterator :=
  match t with
  | null => None
  | node c l v r =>
      match Nat.compare i (size l) with
      | Lt => locate i l (mkFrame to_left c v r :: p)
      | Eq => Some (mkIterator p c l v r)
      | Gt => locate (i - S (size l)) r (mkFrame to_right c v l :: p)
      end
  end.

(** The null right link of the rightmost node of a subtree. *)
Fixpoint rightmost_link (t : MonitoredDurationContainer) (p : ordered_index_path)
  : ordered_index_path :=
  match t with
  | null => p
  | node c l v r => rightmost_link r (mkFrame to_right c v l :: p)
  end.

(** [restore]: a node that was taken out is linked again before the node
    [next] that followed it, to the left of [next] when that link is free
    and to the right of the node before [next] otherwise; when nothing
    followed it, [next] is the header and the node goes last.  The library
    holds [next] as a pointer; here it is found again as the node with as
    many records before it as the extracted node had, extraction having kept
    the other records in their order. *)
Definition restore (v : MonitoredDuration) (i : nat) (c : MonitoredDurationContainer)
  : option MonitoredDurationContainer :=
  match locate i c [] with
  | Some next =>
      let below :=
        mkFrame to_left (it_color next) (it_value next) (it_right next)
        :: it_path next in
      match it_left next with
      | null => link v below
      | node _ _ _ _ => link v (rightmost_link (it_left next) below)
      end
  | None =>
      match c with
      | null => link v []
      | node _ _ _ _ => link v (rightmost_link c [])
      end
  end.

(** [index.replace(it, v)] ([replace_]): in place when the neighbours allow
    it; otherwise the node is taken out and linked again where [link_point]
    sends the key of [v], or restored with its old value when [link_point]
    refuses.  The boolean is the result of [replace]. *)
Definition container_replace (x : iterator) (v : MonitoredDuration)
  : option (MonitoredDurationContainer * bool) :=
  if in_place v x then
    Some (plug (node (it_color x) (it_left x) v (it_right x)) (it_path x), true)
  else
    match rebalance_for_extract x with
    | None => None
    | Some c =>
        match link_point (key_ v) c with
        | Some p =>
            match link v p with
            | None => None
            | Some c' => Some (c', true)
            end
        | None =>
            match restore (it_value x) (rank x) c with
            | None => None
            | Some c' => Some (c', false)
            end
        end
    end.

(** *** The store *)

Record MonitoredDurationStore : Type := mkStore {
  store_family_ : Z;                     (* family_ *)
  store_interval_duration_ : Duration;   (* interval_duration_ *)
  durations_ : MonitoredDurationContainer
}.

(** The state a store method runs in: the store object and the heap of
    interval objects.  The mutex is not modelled; calls are sequential. *)
Definition StoreState : Type := MonitoredDurationStore * Heap.

Definition set_durations (s : MonitoredDurationStore)
    (c : MonitoredDurationContainer) : MonitoredDurationStore :=
  {| store_family_ := store_family_ s;
     store_interval_duration_ := store_interval_duration_ s;
     durations_ := c |}.

(** [MonitoredDurationStore::MonitoredDurationStore] *)
Definition MonitoredDurationStore_new (family : Z) (interval_duration : Duration)
  : constructed MonitoredDurationStore :=
  if dur_leb interval_duration ZERO_DURATION then Failed BadValue
  else Built {| store_family_ := family;
                store_interval_duration_ := interval_duration;
                durations_ := null |}.

(** Destruction of a monitored duration that is the only owner of its
    intervals: the interval objects go with it. *)
Definition release (md : MonitoredDuration) (h : Heap) : Heap :=
  let h1 := match current_interval_ md with Some c => delete c h | None => h end in
  match previous_interval_ md with Some p => delete p h1 | None => h1 end.

(** [MonitoredDurationStore::addDuration].  [key = None] is the null
    pointer.  Whatever the [try] block throws is rethrown as [BadValue].
    When the insertion is refused, the exception unwinds through the local
    [mond], the only owner of the record just built. *)
Definition MonitoredDurationStore_addDuration (key : option DurationKey)
    (sample : Duration) (now : Timestamp) (st : StoreState)
  : outcome StoreState MonitoredDuration :=
  let '(s, h) := st in
  match key with
  | None => Throw BadValue (s, h)
  | Some k =>
      if negb (family_ k =? store_family_ s) then Throw BadValue (s, h)
      else
        match MonitoredDuration_of_key k (store_interval_duration_ s) with
        | Failed _ => Throw BadValue (s, h)
        | Built mond0 =>
            match (if dur_gtb sample ZERO_DURATION
                   then MonitoredDuration_addSample now sample mond0 h
                   else Return (false, mond0) h) with
            | Undefined => Undefined
            | Throw _ h1 => Throw BadValue (s, h1)
            | Return (_, mond) h1 =>
                match container_insert mond (durations_ s) with
                | None => Undefined
                | Some (_, false) =>
                    Throw DuplicateDurationKey (s, release mond h1)
                | Some (c', true) =>
                    Return (MonitoredDuration_copy mond) (set_durations s c', h1)
                end
            end
        end
  end.

(** [MonitoredDurationStore::getDuration]; the result [None] is the null
    pointer returned when [find] yields [end()]. *)
Definition MonitoredDurationStore_getDuration (key : option DurationKey)
    (st : StoreState) : outcome StoreState (option MonitoredDuration) :=
  match key with
  | None => Throw BadValue st
  | Some k =>
      match container_find k (durations_ (fst st)) with
      | None => Return None st
      | Some duration_iter =>
          Return (Some (MonitoredDuration_copy (it_value duration_iter))) st
      end
  end.

(** [MonitoredDurationStore::updateDuration]; the result of [replace] is not
    looked at. *)
Definition MonitoredDurationStore_updateDuration (duration : option MonitoredDuration)
    (st : StoreState) : outcome StoreState unit :=
  let '(s, h) := st in
  match duration with
  | None => Throw BadValue (s, h)
  | Some d =>
      match container_find (key_ d) (durations_ s) with
      | None => Throw InvalidOperation (s, h)
      | Some duration_iter =>
          match container_replace duration_iter (MonitoredDuration_copy d) with
          | None => Undefined
          | Some (c', _) => Return tt (set_durations s c', h)
          end
      end
  end.

(** [MonitoredDurationStore::deleteDuration] *)
Definition MonitoredDurationStore_deleteDuration (key : option DurationKey)
    (st : StoreState) : outcome StoreState unit :=
  let '(s, h) := st in
  match key with
  | None => Throw BadValue (s, h)
  | Some k =>
      match container_find k (durations_ s) with
      | None => Return tt (s, h)
      | Some duration_iter =>
          match container_erase duration_iter with
          | None => Undefined
          | Some c' => Return tt (set_durations s c', h)
          end
      end
  end.

(** [MonitoredDurationStore::getAll] *)
Definition MonitoredDurationStore_getAll (st : StoreState)
  : outcome StoreState (list MonitoredDuration) :=
  Return (map MonitoredDuration_copy (durations_ (fst st))) st.

(** [MonitoredDurationStore::clear] *)
Definition MonitoredDurationStore_clear (st : StoreState) : outcome StoreState unit :=
  Throw NotImplemented st.

(** The contents of the store as an observer reads them. *)
Definition store_contents (st : StoreState)
  : list (DurationKey * Duration
          * option DurationDataInterval * option DurationDataInterval) :=
  map (snapshot (snd st)) (durations_ (fst st)).

End Perfmon.

Module Stats.

(** ** JSON elements ([cc/data.h]) *)

(** A [double], carried as its IEEE-754 bit pattern: the embedded code
    stores and returns doubles but computes nothing with them. *)
Definition double : Type := Z.

#[local] Set Warnings "-register-all".

Inductive Element : Type :=
  | IntElement (i : Z)
  | DoubleElement (d : double)
  | BoolElement (b : bool)
  | NullElement
  | StringElement (s : string)
  | ListElement (l : list Element)
  | MapElement (m : list (string * Element)).

(** [ConstElementPtr]: [None] is the null pointer. *)
Abbreviation ConstElementPtr := (option Element).

Fixpoint assoc (name : string) (m : list (string * Element)) : ConstElementPtr :=
  match m with
  | [] => None
  | (k, v) :: m' => if String.eqb k name then Some v else assoc name m'
  end.

(** Modelled from the spec: [Element::get(name)] of cc/data.h, which is not
    among the sources.  On a map it yields the member called [name], or the
    null pointer when there is none; on any other element it throws
    [TypeError]. *)
Definition Element_get (name : string) (e : Element) : constructed ConstElementPtr :=
  match e with
  | MapElement m => Built (assoc name m)
  | _ => Failed TypeError
  end.

(** Modelled from the spec: [Element::stringValue()] of cc/data.h; it throws
    [TypeError] on anything but a string element. *)
Definition Element_stringValue (e : Element) : constructed string :=
  match e with
  | StringElement s => Built s
  | _ => Failed TypeError
  end.

(** [e->getType() == Element::string] *)
Definition is_string (e : Element) : bool :=
  match e with
  | StringElement _ => true
  | _ => false
  end.

(** ** Answers ([config/command_interpreter.h]) *)

Definition CONTROL_RESULT_SUCCESS : Z := 0.
Definition CONTROL_RESULT_ERROR : Z := 1.

(** Modelled from the spec: [createAnswer(status, text)] of
    config/command_interpreter.h, not among the sources.  Responses
    are maps with the members result (0 or 1), text and arguments: this
    answer carries the status and the text. *)
Definition createAnswer_text (status : Z) (text : string) : Element :=
  MapElement [("result", IntElement status); ("text", StringElement text)].

(** Modelled from the spec: [createAnswer(status, arg)], the overload that
    carries an element as the answer's arguments. *)
Definition createAnswer_arg (status : Z) (arg : Element) : Element :=
  MapElement [("result", IntElement status); ("arguments", arg)].

Definition answer_result (a : Element) : option Z :=
  match a with
  | MapElement m =>
      match assoc "result" m with
      | Some (IntElement r) => Some r
      | _ => None
      end
  | _ => None
  end.

Definition answer_text (a : Element) : option string :=
  match a with
  | MapElement m =>
      match assoc "text" m with
      | Some (StringElement t) => Some t
      | _ => None
      end
  | _ => None
  end.

Definition answer_arguments (a : Element) : ConstElementPtr :=
  match a with
  | MapElement m => assoc "arguments" m
  | _ => None
  end.

(** ** Observation ([observation.h]) *)

Inductive Type_ : Type :=
  | STAT_INTEGER
  | STAT_FLOAT
  | STAT_DURATION
  | STAT_STRING.

Definition StatsDuration : Type := Duration.

Definition IntegerSample : Type := Z * Timestamp.
Definition FloatSample : Type := double * Timestamp.
Definition DurationSample : Type := StatsDuration * Timestamp.
Definition StringSample : Type := string * Timestamp.

Record Observation : Type := mkObservation {
  name_ : string;
  type_ : Type_;
  integer_samples_ : list IntegerSample;
  float_samples_ : list FloatSample;
  duration_samples_ : list DurationSample;
  string_samples_ : list StringSample
}.

(** Modelled from the spec: [Observation::reset] is defined in
    observation.cc, not among the sources.  The header documents it as
    setting the statistic to a neutral value (0, 0.0 or the empty string):
    the observation keeps
    its name and type, and the sample of its type becomes the neutral value
    stamped with the current time. *)
Definition Observation_reset (now : Timestamp) (o : Observation) : Observation :=
  match type_ o with
  | STAT_INTEGER =>
      mkObservation (name_ o) (type_ o) [(0, now)]
        (float_samples_ o) (duration_samples_ o) (string_samples_ o)
  | STAT_FLOAT =>
      mkObservation (name_ o) (type_ o) (integer_samples_ o)
        [(0, now)] (duration_samples_ o) (string_samples_ o)
  | STAT_DURATION =>
      mkObservation (name_ o) (type_ o) (integer_samples_ o)
        (float_samples_ o) [(microseconds 0, now)] (string_samples_ o)
  | STAT_STRING =>
      mkObservation (name_ o) (type_ o) (integer_samples_ o)
        (float_samples_ o) (duration_samples_ o) [(EmptyString, now)]
  end.

Definition duration_json (d : Duration) : Element :=
  match d with
  | microseconds t => IntElement t
  | neg_infin => StringElement "-infinity"
  | pos_infin => StringElement "+infinity"
  | not_a_date_time => StringElement "not-a-date-time"
  end.

(** Modelled from the spec: [Observation::getJSON] is defined in
    observation.cc, not among the sources.  The JSON export renders each
    statistic as the list of its (value, timestamp) pairs; times are
    rendered as tick counts, the text produced by [ptimeToText] and
    [durationToText] is not modelled. *)
Definition Observation_getJSON (o : Observation) : Element :=
  match type_ o with
  | STAT_INTEGER =>
      ListElement (map (fun s : IntegerSample =>
                          ListElement [IntElement s.1; IntElement s.2])
                       (integer_samples_ o))
  | STAT_FLOAT =>
      ListElement (map (fun s : FloatSample =>
                          ListElement [DoubleElement s.1; IntElement s.2])
                       (float_samples_ o))
  | STAT_DURATION =>
      ListElement (map (fun s : DurationSample =>
                          ListElement [duration_json s.1; IntElement s.2])
                       (duration_samples_ o))
  | STAT_STRING =>
      ListElement (map (fun s : StringSample =>
                          ListElement [StringElement s.1; IntElement s.2])
                       (string_samples_ o))
  end.

(** ** StatContext and StatsMgr *)

(** [StatContext::stats_] is a [std::map<std::string, ObservationPtr>]. *)
Record StatContext : Type := mkContext {
  stats_ : gmap string Observation
}.

(** Modelled from the spec: [StatContext::get] and [StatContext::del] are
    defined in context.cc, not among the sources; they look a name up in
    [stats_] and erase it, [del] telling whether the name was there. *)
Definition StatContext_get (name : string) (ctx : StatContext) : option Observation :=
  stats_ ctx !! name.

Definition StatContext_del (name : string) (ctx : StatContext) : bool * StatContext :=
  match stats_ ctx !! name with
  | Some _ => (true, mkContext (delete name (stats_ ctx)))
  | None => (false, ctx)
  end.

Record StatsMgr : Type := mkStatsMgr {
  global_ : StatContext
}.

(** [StatsMgr::StatsMgr] *)
Definition StatsMgr_new : StatsMgr := mkStatsMgr (mkContext ∅).

(** [StatsMgr::getObservation] *)
Definition StatsMgr_getObservation (name : string) (mgr : StatsMgr)
  : option Observation :=
  StatContext_get name (global_ mgr).

(** [StatsMgr::deleteObservation] *)
Definition StatsMgr_deleteObservation (name : string) (mgr : StatsMgr)
  : bool * StatsMgr :=
  let '(b, ctx) := StatContext_del name (global_ mgr) in (b, mkStatsMgr ctx).

(** [StatsMgr::setMaxSampleAge] *)
Definition StatsMgr_setMaxSampleAge (name : string) (duration : StatsDuration)
    (mgr : StatsMgr) : outcome StatsMgr unit :=
  Throw NotImplemented mgr.

(** [StatsMgr::setMaxSampleCount] *)
Definition StatsMgr_setMaxSampleCount (name : string) (max_samples : Z)
    (mgr : StatsMgr) : outcome StatsMgr unit :=
  Throw NotImplemented mgr.

(** [StatsMgr::reset]: [obs->reset()] updates the observation the context
    holds, in place. *)
Definition StatsMgr_reset (name : string) (now : Timestamp) (mgr : StatsMgr)
  : bool * StatsMgr :=
  match StatsMgr_getObservation name mgr with
  | Some obs =>
      (true,
       mkStatsMgr (mkContext (<[name := Observation_reset now obs]>
                                (stats_ (global_ mgr)))))
  | None => (false, mgr)
  end.

(** [StatsMgr::del] *)
Definition StatsMgr_del (name : string) (mgr : StatsMgr) : bool * StatsMgr :=
  let '(b, ctx) := StatContext_del name (global_ mgr) in (b, mkStatsMgr ctx).

(** [StatsMgr::removeAll] *)
Definition StatsMgr_removeAll (mgr : StatsMgr) : StatsMgr :=
  mkStatsMgr (mkContext ∅).

(** [StatsMgr::get] *)
Definition StatsMgr_get (name : string) (mgr : StatsMgr) : Element :=
  match StatsMgr_getObservation name mgr with
  | Some obs => MapElement [(name, Observation_getJSON obs)]
  | None => MapElement []
  end.

(** [StatsMgr::getAll] *)
Definition StatsMgr_getAll (mgr : StatsMgr) : Element :=
  MapElement (map (fun s : string * Observation => (s.1, Observation_getJSON s.2))
                  (map_to_list (stats_ (global_ mgr)))).

(** [StatsMgr::resetAll] *)
Definition StatsMgr_resetAll (now : Timestamp) (mgr : StatsMgr) : StatsMgr :=
  mkStatsMgr (mkContext (Observation_reset now <$> stats_ (global_ mgr))).

(** [StatsMgr::count] *)
Definition StatsMgr_count (mgr : StatsMgr) : nat :=
  size (stats_ (global_ mgr)).

(** ** Command handlers *)

(** [StatsMgr::statisticGetHandler] *)
Definition statisticGetHandler (name : string) (params : ConstElementPtr)
    (mgr : StatsMgr) : outcome StatsMgr Element :=
  match params with
  | None =>
      Return (createAnswer_text CONTROL_RESULT_ERROR
                "Missing mandatory 'name' parameter.") mgr
  | Some p =>
      match Element_get "name" p with
      | Failed e => Throw e mgr
      | Built None =>
          Return (createAnswer_text CONTROL_RESULT_ERROR
                    "Missing mandatory 'name' parameter.") mgr
      | Built (Some stat_name) =>
          if negb (is_string stat_name) then
            Return (createAnswer_text CONTROL_RESULT_ERROR
                      "'name' parameter expected to be a string.") mgr
          else
            match Element_stringValue stat_name with
            | Failed e => Throw e mgr
            | Built n =>
                Return (createAnswer_arg CONTROL_RESULT_SUCCESS (StatsMgr_get n mgr))
                       mgr
            end
      end
  end.

(** [StatsMgr::statisticResetHandler] *)
Definition statisticResetHandler (name : string) (params : ConstElementPtr)
    (now : Timestamp) (mgr : StatsMgr) : outcome StatsMgr Element :=
  match params with
  | None =>
      Return (createAnswer_text CONTROL_RESULT_ERROR
                "Missing mandatory 'name' parameter.") mgr
  | Some p =>
      match Element_get "name" p with
      | Failed e => Throw e mgr
      | Built None =>
          Return (createAnswer_text CONTROL_RESULT_ERROR
                    "Missing mandatory 'name' parameter.") mgr
      | Built (Some stat_name) =>
          if negb (is_string stat_name) then
            Return (createAnswer_text CONTROL_RESULT_ERROR
                      "'name' parameter expected to be a string.") mgr
          else
            match Element_stringValue stat_name with
            | Failed e => Throw e mgr
            | Built n =>
                let '(found, mgr') := StatsMgr_reset n now mgr in
                if found then
                  Return (createAnswer_text CONTROL_RESULT_SUCCESS
                            ("Statistic '" ++ n ++ "' reset.")%string) mgr'
                else
                  Return (createAnswer_text CONTROL_RESULT_ERROR
                            ("No '" ++ n ++ "' statistic found")%string) mgr'
            end
      end
  end.

(** [StatsMgr::statisticRemoveHandler]: the type of [stat_name] is not
    tested before [stringValue()] is called on it. *)
Definition statisticRemoveHandler (name : string) (params : ConstElementPtr)
    (mgr : StatsMgr) : outcome StatsMgr Element :=
  match params with
  | None =>
      Return (createAnswer_text CONTROL_RESULT_ERROR
                "Missing mandatory 'name' parameter.") mgr
  | Some p =>
      match Element_get "name" p with
      | Failed e => Throw e mgr
      | Built None =>
          Return (createAnswer_text CONTROL_RESULT_ERROR
                    "Missing mandatory 'name' parameter.") mgr
      | Built (Some stat_name) =>
          match Element_stringValue stat_name with
          | Failed e => Throw e mgr
          | Built n =>
              let '(found, mgr') := StatsMgr_del n mgr in
              if found then
                Return (createAnswer_text CONTROL_RESULT_SUCCESS
                          ("Statistic '" ++ n ++ "' removed.")%string) mgr'
              else
                Return (createAnswer_text CONTROL_RESULT_ERROR
                          ("No '" ++ n ++ "' statistic found")%string) mgr'
          end
      end
  end.

(** [StatsMgr::statisticRemoveAllHandler] *)
Definition statisticRemoveAllHandler (name : string) (params : ConstElementPtr)
    (mgr : StatsMgr) : outcome StatsMgr Element :=
  Return (createAnswer_text CONTROL_RESULT_SUCCESS "All statistics removed.")
         (StatsMgr_removeAll mgr).

(** [StatsMgr::statisticGetAllHandler] *)
Definition statisticGetAllHandler (name : string) (params : ConstElementPtr)
    (mgr : StatsMgr) : outcome StatsMgr Element :=
  Return (createAnswer_arg CONTROL_RESULT_SUCCESS (StatsMgr_getAll mgr)) mgr.

(** [StatsMgr::statisticResetAllHandler] *)
Definition statisticResetAllHandler (name : string) (params : ConstElementPtr)
    (now : Timestamp) (mgr : StatsMgr) : outcome StatsMgr Element :=
  Return (createAnswer_text CONTROL_RESULT_SUCCESS
            "All statistics reset to neutral values.")
         (StatsMgr_resetAll now mgr).

(** The control commands of the statistics manager and their dispatch. *)
Inductive Command : Type :=
  | statistic_get
  | statistic_reset
  | statistic_remove
  | statistic_get_all
  | statistic_reset_all
  | statistic_remove_all.

Definition command_name (c : Command) : string :=
  match c with
  | statistic_get => "statistic-get"
  | statistic_reset => "statistic-reset"
  | statistic_remove => "statistic-remove"
  | statistic_get_all => "statistic-get-all"
  | statistic_reset_all => "statistic-reset-all"
  | statistic_remove_all => "statistic-remove-all"
  end.

Definition handle (c : Command) (params : ConstElementPtr) (now : Timestamp)
    (mgr : StatsMgr) : outcome StatsMgr Element :=
  match c with
  | statistic_get => statisticGetHandler (command_name c) params mgr
  | statistic_reset => statisticResetHandler (command_name c) params now mgr
  | statistic_remove => statisticRemoveHandler (command_name c) params mgr
  | statistic_get_all => statisticGetAllHandler (command_name c) params mgr
  | statistic_reset_all => statisticResetAllHandler (command_name c) params now mgr
  | statistic_remove_all => statisticRemoveAllHandler (command_name c) params mgr
  end.

End Stats.

(** * Properties of the duration monitor *)

Module PerfmonSpec.
Import Perfmon.

Local Open Scope list_scope.

(** ** Keys: equality and ordering *)

Lemma DurationKey_eqb_eq (a b : DurationKey) :
  DurationKey_eqb a b = true <-> a = b.
Proof.
  destruct a as [f q r s e i], b as [f' q' r' s' e' i'].
  unfold DurationKey_eqb; cbn.
  rewrite !andb_true_iff, !Z.eqb_eq, !String.eqb_eq.
  split.
  - intros [[[[[-> ->] ->] ->] ->] ->]. reflexivity.
  - intros [= -> -> -> -> -> ->]. repeat split.
Qed.

Lemma DurationKey_eqb_refl (a : DurationKey) : DurationKey_eqb a a = true.
Proof. apply DurationKey_eqb_eq. reflexivity. Qed.

Lemma string_ltb_irrefl (s : string) : String.ltb s s = false.
Proof.
  unfold String.ltb.
  destruct (String.compare s s) eqn:E; try reflexivity.
  pose proof (String.compare_antisym s s) as H. rewrite E in H. discriminate.
Qed.

Lemma string_not_ltb_eq (s t : string) :
  String.ltb s t = false -> String.ltb t s = false -> s = t.
Proof.
  unfold String.ltb. intros Hst Hts.
  pose proof (String.compare_antisym s t) as Ha.
  destruct (String.compare s t) eqn:E.
  - apply String.compare_eq_iff. exact E.
  - discriminate.
  - destruct (String.compare t s); discriminate.
Qed.

(** Two keys neither of which is below the other by [operator<] are equal by
    [operator==], and conversely. *)
Lemma ltb_incomparable_iff_eqb (a b : DurationKey) :
  negb (DurationKey_ltb a b) && negb (DurationKey_ltb b a) = DurationKey_eqb a b.
Proof.
  destruct (DurationKey_eqb a b) eqn:E.
  - apply DurationKey_eqb_eq in E. subst b.
    destruct a as [f q r s e i]. unfold DurationKey_ltb; cbn.
    rewrite !Z.ltb_irrefl, !string_ltb_irrefl. reflexivity.
  - destruct (negb (DurationKey_ltb a b) && negb (DurationKey_ltb b a)) eqn:F;
      [| reflexivity].
    exfalso.
    apply andb_true_iff in F as [F1 F2].
    apply negb_true_iff in F1, F2.
    destruct a as [f q r s e i], b as [f' q' r' s' e' i'].
    unfold DurationKey_ltb in F1, F2; cbn in F1, F2.
    rewrite !orb_false_iff in F1, F2.
    destruct F1 as [[[[[A1 A2] A3] A4] A5] A6].
    destruct F2 as [[[[[B1 B2] B3] B4] B5] B6].
    apply Z.ltb_ge in A1, A2, A3, A6, B1, B2, B3, B6.
    pose proof (string_not_ltb_eq _ _ A4 B4).
    pose proof (string_not_ltb_eq _ _ A5 B5).
    assert (f = f') by lia. assert (q = q') by lia.
    assert (r = r') by lia. assert (i = i') by lia. subst.
    rewrite DurationKey_eqb_refl in E. discriminate.
Qed.

(** What [operator<] computes: some component of the left key is below the
    same component of the right key, whatever the components before it. *)
Lemma DurationKey_ltb_some_component (a b : DurationKey) :
  DurationKey_ltb a b = true <->
  family_ a < family_ b \/ query_type_ a < query_type_ b
  \/ response_type_ a < response_type_ b
  \/ String.ltb (start_event_label_ a) (start_event_label_ b) = true
  \/ String.ltb (end_event_label_ a) (end_event_label_ b) = true
  \/ subnet_id_ a < subnet_id_ b.
Proof.
  unfold DurationKey_ltb.
  rewrite !orb_true_iff, !Z.ltb_lt. tauto.
Qed.

(** The lexicographic order is contained in [operator<]. *)
Lemma lex_ltb_DurationKey_ltb (a b : DurationKey) :
  lex_ltb a b = true -> DurationKey_ltb a b = true.
Proof.
  unfold lex_ltb. intros H. apply DurationKey_ltb_some_component.
  destruct (family_ a ?= family_ b) eqn:E1;
    [| apply Z.compare_lt_iff in E1; tauto | discriminate].
  destruct (query_type_ a ?= query_type_ b) eqn:E2;
    [| apply Z.compare_lt_iff in E2; tauto | discriminate].
  destruct (response_type_ a ?= response_type_ b) eqn:E3;
    [| apply Z.compare_lt_iff in E3; tauto | discriminate].
  destruct (String.compare (start_event_label_ a) (start_event_label_ b)) eqn:E4;
    [| right; right; right; left; unfold String.ltb; rewrite E4; reflexivity
     | discriminate].
  destruct (String.compare (end_event_label_ a) (end_event_label_ b)) eqn:E5;
    [| right; right; right; right; left; unfold String.ltb; rewrite E5; reflexivity
     | discriminate].
  apply Z.ltb_lt in H. tauto.
Qed.

(** The lexicographic order never holds in both directions. *)
Lemma lex_ltb_asym (a b : DurationKey) :
  lex_ltb a b = true -> lex_ltb b a = false.
Proof.
  unfold lex_ltb.
  rewrite (Z.compare_antisym (family_ a) (family_ b)).
  rewrite (Z.compare_antisym (query_type_ a) (query_type_ b)).
  rewrite (Z.compare_antisym (response_type_ a) (response_type_ b)).
  rewrite (String.compare_antisym (start_event_label_ b) (start_event_label_ a)).
  rewrite (String.compare_antisym (end_event_label_ b) (end_event_label_ a)).
  destruct (family_ a ?= family_ b); cbn; try congruence.
  destruct (query_type_ a ?= query_type_ b); cbn; try congruence.
  destruct (response_type_ a ?= response_type_ b); cbn; try congruence.
  destruct (String.compare (start_event_label_ a) (start_event_label_ b));
    cbn; try congruence.
  destruct (String.compare (end_event_label_ a) (end_event_label_ b));
    cbn; try congruence.
  rewrite !Z.ltb_lt, Z.ltb_ge. lia.
Qed.

(** Two keys that pass the constructor's validation. *)
Definition key_discover_none : DurationKey :=
  mkKey AF_INET DHCPDISCOVER DHCP_NOTYPE "socket_received" "buffer_read" 1.

Definition key_none_offer : DurationKey :=
  mkKey AF_INET DHCP_NOTYPE DHCPOFFER "socket_received" "buffer_read" 1.

(** C1 (the code departs from the claim): [operator<] is not the
    lexicographic order.  The two keys below are accepted by the
    constructor and differ first in the query type, where the first key is
    the larger one; [operator<] nevertheless puts the first below the second
    (its response type is smaller), and also the second below the first, so
    neither asymmetry nor the trichotomy with [operator==] holds. *)
Theorem operator_lt_is_not_lexicographic :
  DurationKey_new AF_INET DHCPDISCOVER DHCP_NOTYPE "socket_received" "buffer_read" 1
    = Built key_discover_none
  /\ DurationKey_new AF_INET DHCP_NOTYPE DHCPOFFER "socket_received" "buffer_read" 1
    = Built key_none_offer
  /\ DurationKey_ltb key_discover_none key_none_offer = true
  /\ DurationKey_ltb key_none_offer key_discover_none = true
  /\ DurationKey_eqb key_discover_none key_none_offer = false
  /\ lex_ltb key_discover_none key_none_offer = false
  /\ lex_ltb key_none_offer key_discover_none = true.
Proof. repeat split. Qed.

(** ** Validation of keys *)

Ltac split_eqb :=
  repeat match goal with
         | |- context [Z.eqb ?x ?y] => destruct (Z.eqb_spec x y); subst
         | H : context [Z.eqb ?x ?y] |- _ => destruct (Z.eqb_spec x y); subst
         end.

Lemma validateMessagePair_None (f q r : Z) :
  validateMessagePair f q r = None <->
  (f = AF_INET /\ In (q, r) valid_pairs4)
  \/ (f <> AF_INET /\ In (q, r) valid_pairs6).
Proof.
  unfold validateMessagePair, valid_pairs4, valid_pairs6,
    AF_INET, DHCP_NOTYPE, DHCPDISCOVER, DHCPOFFER, DHCPREQUEST, DHCPACK,
    DHCPNAK, DHCPINFORM, DHCPV6_NOTYPE, DHCPV6_SOLICIT, DHCPV6_ADVERTISE,
    DHCPV6_REQUEST, DHCPV6_CONFIRM, DHCPV6_RENEW, DHCPV6_REBIND, DHCPV6_REPLY.
  split.
  - intros H. split_eqb; cbn in H; try discriminate H; cbn;
      intuition (first [reflexivity | congruence]).
  - cbn [In].
    intros [[-> H] | [Hf H]].
    + repeat (destruct H as [H | H]; [injection H as <- <-; reflexivity |]).
      destruct H.
    + destruct (Z.eqb_spec f 2) as [-> | _]; [lia |].
      repeat (destruct H as [H | H]; [injection H as <- <-; reflexivity |]).
      destruct H.
Qed.

Lemma validateMessagePair_Some (f q r : Z) (e : Exception) :
  validateMessagePair f q r = Some e -> e = BadValue.
Proof.
  unfold validateMessagePair.
  repeat match goal with
         | |- context [if ?b then _ else _] => destruct b
         end; congruence.
Qed.

(** The constructor yields exactly the keys that satisfy the invariant, made
    of the arguments it was given; it throws [BadValue] on all others. *)
Lemma DurationKey_new_spec (f q r : Z) (s e : string) (i : Z) :
  match DurationKey_new f q r s e i with
  | Built k => k = mkKey f q r s e i /\ valid_key k
  | Failed ex => ex = BadValue /\ ~ valid_key (mkKey f q r s e i)
  end.
Proof.
  unfold DurationKey_new, valid_key. cbn [family_ query_type_ response_type_].
  destruct (Z.eqb_spec f AF_INET) as [-> | Hf4]; cbn [negb andb].
  - destruct (validateMessagePair AF_INET q r) as [ex |] eqn:V.
    + split; [eapply validateMessagePair_Some; eassumption |].
      intros [[_ H] | [H _]]; [| discriminate H].
      assert (validateMessagePair AF_INET q r = None) as V'
        by (apply validateMessagePair_None; auto).
      congruence.
    + apply validateMessagePair_None in V. cbn.
      split; [reflexivity |]. destruct V as [[_ V] | [V _]]; [auto | congruence].
  - destruct (Z.eqb_spec f AF_INET6) as [-> | Hf6]; cbn [negb].
    + destruct (validateMessagePair AF_INET6 q r) as [ex |] eqn:V.
      * split; [eapply validateMessagePair_Some; eassumption |].
        intros [[H _] | [_ H]]; [discriminate H |].
        assert (validateMessagePair AF_INET6 q r = None) as V'
          by (apply validateMessagePair_None; right; split; [discriminate | auto]).
        congruence.
      * apply validateMessagePair_None in V. cbn.
        split; [reflexivity |].
        destruct V as [[V _] | [_ V]]; [discriminate V | auto].
    + split; [reflexivity |]. intros [[H _] | [H _]]; contradiction.
Qed.

(** A key a client can hold: one that a constructor call returned. *)
Definition constructed_key (k : DurationKey) : Prop :=
  exists f q r s e i, DurationKey_new f q r s e i = Built k.

Lemma constructed_key_valid (k : DurationKey) : constructed_key k -> valid_key k.
Proof.
  intros (f & q & r & s & e & i & H).
  pose proof (DurationKey_new_spec f q r s e i) as S. rewrite H in S. apply S.
Qed.

Lemma MonitoredDuration_of_key_key (k : DurationKey) (L : Duration)
    (md : MonitoredDuration) :
  MonitoredDuration_of_key k L = Built md ->
  key_ md = k /\ interval_duration_ md = L
  /\ current_interval_ md = None /\ previous_interval_ md = None
  /\ dur_leb L ZERO_DURATION = false.
Proof.
  unfold MonitoredDuration_of_key.
  destruct (dur_leb L ZERO_DURATION); [discriminate |].
  intros [= <-]. repeat split.
Qed.

Lemma addSample_open_key (now : Timestamp) (md md' : MonitoredDuration)
    (h h' : Heap) (b : bool) :
  addSample_open now md h = Some (b, md', h') ->
  key_ md' = key_ md /\ interval_duration_ md' = interval_duration_ md.
Proof.
  unfold addSample_open, new_interval.
  destruct (current_interval_ md) as [c |].
  - destruct (h !! c) as [cur |]; [| discriminate].
    destruct (dur_gtb _ _); intros [= <- <- <-]; split; reflexivity.
  - intros [= <- <- <-]. split; reflexivity.
Qed.

Lemma addSample_key (now : Timestamp) (sample : Duration)
    (md md' : MonitoredDuration) (h h' : Heap) (b : bool) :
  MonitoredDuration_addSample now sample md h = Return (b, md') h' ->
  key_ md' = key_ md /\ interval_duration_ md' = interval_duration_ md.
Proof.
  unfold MonitoredDuration_addSample.
  destruct (addSample_open now md h) as [[[b1 md1] h1] |] eqn:E; [| discriminate].
  destruct (current_interval_ md1) as [c |]; [| discriminate].
  destruct (h1 !! c); [| discriminate].
  intros [= <- <- <-]. eapply addSample_open_key; eassumption.
Qed.

(** ** The index of the store *)

(** The records the index enumerates before and after the subtree at the
    end of a path. *)
Fixpoint before_path (p : ordered_index_path) : list MonitoredDuration :=
  match p with
  | [] => []
  | f :: p' =>
      before_path p'
      ++ match f_side f with
         | to_left => []
         | to_right => in_order (f_other f) ++ [f_value f]
         end
  end.

Fixpoint after_path (p : ordered_index_path) : list MonitoredDuration :=
  match p with
  | [] => []
  | f :: p' =>
      match f_side f with
      | to_left => f_value f :: in_order (f_other f)
      | to_right => []
      end
      ++ after_path p'
  end.

Lemma in_order_plug (t : MonitoredDurationContainer) (p : ordered_index_path) :
  in_order (plug t p) = before_path p ++ in_order t ++ after_path p.
Proof.
  revert t. induction p as [| f p IH]; intros t; cbn [plug before_path after_path].
  - rewrite app_nil_r. reflexivity.
  - rewrite IH. destruct (f_side f); cbn [in_order];
      rewrite <- ?app_assoc; cbn [app]; rewrite <- ?app_assoc; reflexivity.
Qed.

Lemma plug_app (t : MonitoredDurationContainer) (p q : ordered_index_path) :
  plug t (p ++ q) = plug (plug t p) q.
Proof.
  revert t. induction p as [| f p IH]; intros t; cbn; [reflexivity | apply IH].
Qed.

Lemma in_order_set_color (c : ordered_index_color) (t : MonitoredDurationContainer) :
  in_order (set_color c t) = in_order t.
Proof. destruct t; reflexivity. Qed.

(** The tree an iterator belongs to. *)
Definition it_node (x : iterator) : MonitoredDurationContainer :=
  node (it_color x) (it_left x) (it_value x) (it_right x).

Definition it_container (x : iterator) : MonitoredDurationContainer :=
  plug (it_node x) (it_path x).

Lemma in_order_it_container (x : iterator) :
  in_order (it_container x)
  = before_path (it_path x) ++ in_order (it_left x)
    ++ it_value x :: in_order (it_right x) ++ after_path (it_path x).
Proof.
  unfold it_container, it_node. rewrite in_order_plug. cbn [in_order].
  rewrite <- !app_assoc. reflexivity.
Qed.

Lemma it_value_in (x : iterator) : In (it_value x) (in_order (it_container x)).
Proof.
  rewrite in_order_it_container. apply in_or_app. right.
  apply in_or_app. right. left. reflexivity.
Qed.

Lemma incomparable_eq (a b : DurationKey) :
  DurationKey_ltb a b = false -> DurationKey_ltb b a = false -> a = b.
Proof.
  intros H1 H2. apply DurationKey_eqb_eq.
  rewrite <- ltb_incomparable_iff_eqb, H1, H2. reflexivity.
Qed.

(** *** find *)

Lemma ordered_index_find_spec (k : DurationKey) (top : MonitoredDurationContainer)
    (p : ordered_index_path) (y : option iterator) (x : iterator) :
  ordered_index_find k top p y = Some x ->
  (y = Some x)
  \/ (it_container x = plug top p /\ DurationKey_ltb (key_ (it_value x)) k = false).
Proof.
  revert p y. induction top as [| c l IHl v r IHr]; intros p y; cbn.
  - auto.
  - destruct (DurationKey_ltb (key_ v) k) eqn:E; cbn [negb]; intros H.
    + apply IHr in H as [H | [H1 H2]]; [left; exact H | right].
      split; [exact H1 | exact H2].
    + apply IHl in H as [H | [H1 H2]].
      * injection H as <-. right. split; [reflexivity | exact E].
      * right. split; [exact H1 | exact H2].
Qed.

(** What [find] returns is a node of the container, and its key is the key
    asked for. *)
Lemma container_find_Some (k : DurationKey) (c : MonitoredDurationContainer)
    (x : iterator) :
  container_find k c = Some x ->
  it_container x = c /\ DurationKey_eqb (key_ (it_value x)) k = true.
Proof.
  unfold container_find.
  destruct (ordered_index_find k c [] None) as [y |] eqn:F; [| discriminate].
  destruct (DurationKey_ltb k (key_ (it_value y))) eqn:E; [discriminate |].
  intros [= <-]. apply ordered_index_find_spec in F as [F | [F1 F2]];
    [discriminate |].
  split; [exact F1 |]. rewrite <- ltb_incomparable_iff_eqb, F2, E. reflexivity.
Qed.

Lemma container_find_In (k : DurationKey) (c : MonitoredDurationContainer)
    (x : iterator) :
  container_find k c = Some x ->
  In (it_value x) (in_order c) /\ key_ (it_value x) = k.
Proof.
  intros H. apply container_find_Some in H as [<- E].
  split; [apply it_value_in | apply DurationKey_eqb_eq, E].
Qed.

Lemma container_find_null (k : DurationKey) : container_find k null = None.
Proof. reflexivity. Qed.

(** *** link_point *)

(** Every frame of the path of a descent records the comparison made at
    that node. *)
Definition descent_of (k : DurationKey) (p : ordered_index_path) : Prop :=
  Forall (fun f => DurationKey_ltb k (key_ (f_value f))
                   = match f_side f with to_left => true | to_right => false end) p.

Lemma link_point_descent_spec (k : DurationKey) (x : MonitoredDurationContainer)
    (p : ordered_index_path) :
  descent_of k p ->
  plug null (link_point_descent k x p) = plug x p
  /\ descent_of k (link_point_descent k x p).
Proof.
  revert p. induction x as [| c l IHl v r IHr]; intros p Hp; cbn.
  - auto.
  - destruct (DurationKey_ltb k (key_ v)) eqn:E.
    + destruct (IHl (mkFrame to_left c v r :: p)) as [H1 H2];
        [constructor; [exact E | exact Hp] |].
      split; [exact H1 | exact H2].
    + destruct (IHr (mkFrame to_right c v l :: p)) as [H1 H2];
        [constructor; [exact E | exact Hp] |].
      split; [exact H1 | exact H2].
Qed.

Lemma frame_value_in (f : ordered_index_frame) (p : ordered_index_path)
    (t : MonitoredDurationContainer) :
  In f p -> In (f_value f) (in_order (plug t p)).
Proof.
  revert t. induction p as [| g p IH]; intros t; [intros [] |].
  intros [-> | Hin]; cbn [plug].
  - rewrite in_order_plug. apply in_or_app. right. apply in_or_app. left.
    destruct (f_side f); cbn [in_order]; apply in_or_app; right; left; reflexivity.
  - apply IH, Hin.
Qed.

Lemma climb_from_left_Some (p : ordered_index_path) (yy : MonitoredDuration) :
  climb_from_left p = Some yy ->
  exists f, In f p /\ f_side f = to_right /\ f_value f = yy.
Proof.
  induction p as [| f p IH]; cbn; [discriminate |].
  destruct (f_side f) eqn:E.
  - intros H. destruct (IH H) as (g & Hg & Hs & Hv). exists g. auto.
  - intros [= <-]. exists f. auto.
Qed.

(** The path [link_point] yields ends at a null link of the container. *)
Lemma link_point_Some (k : DurationKey) (c : MonitoredDurationContainer)
    (p : ordered_index_path) :
  link_point k c = Some p -> plug null p = c.
Proof.
  unfold link_point. intros H.
  destruct (link_point_descent_spec k c []) as [Hplug _]; [constructor |].
  cbn [plug] in Hplug.
  destruct (link_point_descent k c []) as [| f above] eqn:D.
  - injection H as <-. exact Hplug.
  - destruct (f_side f).
    + destruct (climb_from_left above) as [yy |].
      * destruct (DurationKey_ltb (key_ yy) k); [| discriminate].
        injection H as <-. exact Hplug.
      * injection H as <-. exact Hplug.
    + destruct (DurationKey_ltb (key_ (f_value f)) k); [| discriminate].
      injection H as <-. exact Hplug.
Qed.

(** [link_point] refuses only when a record with the key is in the
    container. *)
Lemma link_point_None (k : DurationKey) (c : MonitoredDurationContainer) :
  link_point k c = None ->
  exists m, In m (in_order c) /\ key_ m = k.
Proof.
  unfold link_point. intros H.
  destruct (link_point_descent_spec k c []) as [Hplug Hd]; [constructor |].
  cbn [plug] in Hplug.
  destruct (link_point_descent k c []) as [| f above] eqn:D; [discriminate |].
  assert (forall g, In g (f :: above) -> f_side g = to_right ->
                    DurationKey_ltb (key_ (f_value g)) k = false ->
                    exists m, In m (in_order c) /\ key_ m = k) as Hfound.
  { intros g Hg Hs Hlt. exists (f_value g). split.
    - rewrite <- Hplug. apply frame_value_in, Hg.
    - apply incomparable_eq; [exact Hlt |].
      unfold descent_of in Hd. rewrite Forall_forall in Hd.
      rewrite (Hd g) by (apply list_elem_of_In; exact Hg). rewrite Hs. reflexivity. }
  destruct (f_side f) eqn:Ef.
  - destruct (climb_from_left above) as [yy |] eqn:Ec; [| discriminate].
    destruct (DurationKey_ltb (key_ yy) k) eqn:E; [discriminate |].
    apply climb_from_left_Some in Ec as (g & Hg & Hs & <-).
    apply (Hfound g); [right; exact Hg | exact Hs | exact E].
  - destruct (DurationKey_ltb (key_ (f_value f)) k) eqn:E; [discriminate |].
    apply (Hfound f); [left; reflexivity | exact Ef | exact E].
Qed.

(** *** link and rebalance *)

(** The root of a container is black. *)
Definition root_black (c : MonitoredDurationContainer) : Prop := is_red c = false.

(** The root at the upper end of a path is black. *)
Fixpoint path_root_black (p : ordered_index_path) : Prop :=
  match p with
  | [] => True
  | f :: p' =>
      match p' with
      | [] => f_color f = black
      | _ :: _ => path_root_black p'
      end
  end.

Lemma path_root_black_cons (f : ordered_index_frame) (p : ordered_index_path) :
  path_root_black (f :: p) -> path_root_black p.
Proof. destruct p; [intros _; exact I | intros H; exact H]. Qed.

Lemma root_black_plug (t : MonitoredDurationContainer) (p : ordered_index_path) :
  p <> [] -> path_root_black p -> root_black (plug t p).
Proof.
  revert t. induction p as [| f p IH]; intros t Hne Hb; [congruence |].
  cbn [plug]. destruct p as [| g p].
  - cbn in Hb. cbn [plug]. unfold root_black.
    destruct (f_side f); cbn; rewrite Hb; reflexivity.
  - apply IH; [discriminate | exact Hb].
Qed.

Lemma path_root_black_plug (t : MonitoredDurationContainer) (p : ordered_index_path) :
  root_black (plug t p) -> path_root_black p.
Proof.
  revert t. induction p as [| f p IH]; intros t Hb; [exact I |].
  cbn [plug] in Hb. destruct p as [| g p].
  - cbn. cbn [plug] in Hb. unfold root_black in Hb.
    destruct (f_side f), (f_color f); cbn in Hb; congruence.
  - apply IH in Hb. exact Hb.
Qed.

(** Equations between enumerations, up to the associativity of [++]. *)
Ltac in_order_eq :=
  cbn [plug in_order];
  rewrite ?in_order_plug, ?in_order_set_color;
  repeat match goal with
         | |- context [match f_side ?f with to_left => _ | to_right => _ end] =>
             destruct (f_side f)
         end;
  cbn [in_order];
  rewrite ?in_order_set_color;
  repeat (rewrite <- app_assoc; cbn [app]);
  reflexivity.

(** Rebalancing after a link keeps the records in their order. *)
Lemma rebalance_in_order (n : nat) :
  forall (p : ordered_index_path) (xl : MonitoredDurationContainer)
         (xv : MonitoredDuration) (xr t : MonitoredDurationContainer),
    (length p <= n)%nat ->
    rebalance xl xv xr p = Some t ->
    in_order t = in_order (plug (node red xl xv xr) p).
Proof.
  induction n as [| n IH]; intros p xl xv xr t Hlen.
  - destruct p; [| cbn in Hlen; lia]. cbn. intros [= <-]. reflexivity.
  - destruct p as [| fp p1]; cbn [rebalance]; [intros [= <-]; reflexivity |].
    destruct (f_color fp) eqn:Ec; [| intros [= <-]; reflexivity].
    destruct p1 as [| fg p2]; [discriminate |].
    assert (length p2 <= n)%nat as Hlen2 by (cbn in Hlen; lia).
    destruct (f_side fg) eqn:Eg, (is_red (f_other fg)) eqn:Ey; intros H;
      try (apply IH in H; [| exact Hlen2]; rewrite H);
      try (injection H as <-);
      cbn [plug]; rewrite Eg; destruct (f_side fp); in_order_eq.
Qed.

(** It goes through whenever the root is black. *)
Lemma rebalance_defined (n : nat) :
  forall (p : ordered_index_path) (xl : MonitoredDurationContainer)
         (xv : MonitoredDuration) (xr : MonitoredDurationContainer),
    (length p <= n)%nat -> path_root_black p ->
    rebalance xl xv xr p <> None.
Proof.
  induction n as [| n IH]; intros p xl xv xr Hlen Hb.
  - destruct p; [| cbn in Hlen; lia]. discriminate.
  - destruct p as [| fp p1]; cbn [rebalance]; [discriminate |].
    destruct (f_color fp) eqn:Ec; [| discriminate].
    destruct p1 as [| fg p2].
    { cbn in Hb. congruence. }
    assert (length p2 <= n)%nat as Hlen2 by (cbn in Hlen; lia).
    assert (path_root_black p2) as Hb2
      by (do 2 apply path_root_black_cons in Hb; exact Hb).
    destruct (f_side fg), (is_red (f_other fg)); try discriminate;
      apply IH; assumption.
Qed.

Lemma root_black_set_color (t : MonitoredDurationContainer) :
  root_black (set_color black t).
Proof. destruct t; reflexivity. Qed.

(** A link adds the record at the place of the null link, and leaves a
    black root. *)
Lemma link_spec (v : MonitoredDuration) (p : ordered_index_path)
    (t : MonitoredDurationContainer) :
  link v p = Some t ->
  in_order t = before_path p ++ v :: after_path p
  /\ in_order (plug null p) = before_path p ++ after_path p
  /\ root_black t.
Proof.
  unfold link. destruct (rebalance null v null p) as [u |] eqn:R; [| discriminate].
  intros [= <-]. apply (rebalance_in_order (length p)) in R; [| lia].
  rewrite in_order_set_color, R, !in_order_plug.
  split; [reflexivity |]. split; [reflexivity | apply root_black_set_color].
Qed.

Lemma link_defined (v : MonitoredDuration) (p : ordered_index_path) :
  path_root_black p -> link v p <> None.
Proof.
  intros Hb. unfold link.
  destruct (rebalance null v null p) eqn:R; [discriminate |].
  exfalso. revert R. apply (rebalance_defined (length p)); [lia | exact Hb].
Qed.

(** [insert] on a container with a black root: the record goes in at some
    place among the others when no record has its key; when the record is
    refused, a record with its key is there and nothing changes. *)
Lemma container_insert_spec (m : MonitoredDuration) (c : MonitoredDurationContainer) :
  root_black c ->
  (exists c' l1 l2,
      container_insert m c = Some (c', true)
      /\ in_order c = l1 ++ l2 /\ in_order c' = l1 ++ m :: l2 /\ root_black c')
  \/ (container_insert m c = Some (c, false)
      /\ exists x, In x (in_order c) /\ key_ x = key_ m).
Proof.
  intros Hb. unfold container_insert.
  destruct (link_point (key_ m) c) as [p |] eqn:E.
  - left. apply link_point_Some in E. subst c.
    destruct (link m p) as [c' |] eqn:L.
    + apply link_spec in L as (H1 & H2 & H3).
      exists c', (before_path p), (after_path p). auto.
    + exfalso. revert L. apply link_defined. eapply path_root_black_plug, Hb.
  - right. split; [reflexivity |]. apply link_point_None, E.
Qed.

(** Without a record of that key, the insertion is accepted. *)
Lemma container_insert_fresh (m : MonitoredDuration) (c : MonitoredDurationContainer) :
  root_black c ->
  (forall x, In x (in_order c) -> key_ x <> key_ m) ->
  exists c' l1 l2,
    container_insert m c = Some (c', true)
    /\ in_order c = l1 ++ l2 /\ in_order c' = l1 ++ m :: l2 /\ root_black c'.
Proof.
  intros Hb Hfresh.
  destruct (container_insert_spec m c Hb) as [H | [_ (x & Hx & Hk)]]; [exact H |].
  exfalso. exact (Hfresh x Hx Hk).
Qed.

(** *** Extraction *)

Lemma before_path_app (p q : ordered_index_path) :
  before_path (p ++ q) = before_path q ++ before_path p.
Proof.
  induction p as [| f p IH]; cbn [app before_path].
  - rewrite app_nil_r. reflexivity.
  - rewrite IH, <- app_assoc. reflexivity.
Qed.

Lemma after_path_app (p q : ordered_index_path) :
  after_path (p ++ q) = after_path p ++ after_path q.
Proof.
  induction p as [| f p IH]; cbn [app after_path]; [reflexivity |].
  rewrite IH, <- app_assoc. reflexivity.
Qed.

Lemma path_root_black_app (p q : ordered_index_path) :
  q <> [] -> path_root_black (p ++ q) <-> path_root_black q.
Proof.
  intros Hq. induction p as [| f p IH]; cbn [app]; [reflexivity |].
  rewrite <- IH. cbn [path_root_black].
  destruct (p ++ q) eqn:E; [| reflexivity].
  apply app_eq_nil in E as [_ E]. contradiction.
Qed.

(** The leftmost node of a subtree has no left child, and nothing of the
    subtree comes before it. *)
Lemma minimum_spec (t : MonitoredDurationContainer) (q : ordered_index_path)
    (y : iterator) :
  minimum t q = Some y ->
  it_left y = null /\ it_container y = plug t q
  /\ exists py, it_path y = py ++ q /\ before_path py = [].
Proof.
  revert q. induction t as [| c l IHl v r _]; intros q; cbn [minimum];
    [discriminate |].
  destruct l as [| lc ll lv lr].
  - intros [= <-]. cbn. split; [reflexivity |]. split; [reflexivity |].
    exists []. split; reflexivity.
  - intros H. apply IHl in H as (H1 & H2 & py & H3 & H4).
    split; [exact H1 |]. split; [exact H2 |].
    exists (py ++ [mkFrame to_left c v r]). split.
    + rewrite H3, <- app_assoc. reflexivity.
    + rewrite before_path_app, H4. reflexivity.
Qed.

Lemma minimum_defined (c : ordered_index_color) (l : MonitoredDurationContainer)
    (v : MonitoredDuration) (r : MonitoredDurationContainer)
    (q : ordered_index_path) :
  minimum (node c l v r) q <> None.
Proof.
  revert c v r q. induction l as [| lc ll IH lv lr _]; intros c v r q; cbn [minimum].
  - discriminate.
  - apply IH.
Qed.

Lemma extract_round_left_spec (x : MonitoredDurationContainer)
    (pc : ordered_index_color) (pv : MonitoredDuration)
    (w t : MonitoredDurationContainer) (again : bool) :
  extract_round_left x pc pv w = Some (t, again) ->
  in_order t = in_order x ++ pv :: in_order w
  /\ exists a v b, t = node pc a v b.
Proof.
  unfold extract_round_left. destruct w as [| wc wl wv wr]; [discriminate |].
  destruct (negb (is_red wl) && negb (is_red wr)).
  - intros [= <- <-]. split; [reflexivity | eauto].
  - destruct (negb (is_red wr)).
    + destruct wl as [| c wll wlv wlr]; [discriminate |].
      intros [= <- <-]. split; [in_order_eq | eauto].
    + intros [= <- <-]. split; [in_order_eq | eauto].
Qed.

Lemma extract_round_right_spec (x : MonitoredDurationContainer)
    (pc : ordered_index_color) (pv : MonitoredDuration)
    (w t : MonitoredDurationContainer) (again : bool) :
  extract_round_right x pc pv w = Some (t, again) ->
  in_order t = in_order w ++ pv :: in_order x
  /\ exists a v b, t = node pc a v b.
Proof.
  unfold extract_round_right. destruct w as [| wc wl wv wr]; [discriminate |].
  destruct (negb (is_red wr) && negb (is_red wl)).
  - intros [= <- <-]. split; [reflexivity | eauto].
  - destruct (negb (is_red wl)).
    + destruct wr as [| c wrl wrv wrr]; [discriminate |].
      intros [= <- <-]. split; [in_order_eq | eauto].
    + intros [= <- <-]. split; [in_order_eq | eauto].
Qed.

Lemma root_black_plug_node (p : ordered_index_path) (c : ordered_index_color)
    (a : MonitoredDurationContainer) (v : MonitoredDuration)
    (b : MonitoredDurationContainer) :
  path_root_black p -> (p = [] -> c = black) -> root_black (plug (node c a v b) p).
Proof.
  intros Hb Hc. destruct p as [| f p].
  - rewrite (Hc eq_refl). reflexivity.
  - apply root_black_plug; [discriminate | exact Hb].
Qed.

(** The loop that follows an extraction keeps the records in their order
    and the root black. *)
Lemma extract_fixup_spec (p : ordered_index_path) :
  forall (x t : MonitoredDurationContainer),
    extract_fixup x p = Some t ->
    in_order t = in_order (plug x p)
    /\ (path_root_black p -> root_black t).
Proof.
  induction p as [| f p' IH]; intros x t; cbn [extract_fixup].
  - intros [= <-]. split; [in_order_eq | intros _; apply root_black_set_color].
  - destruct (is_red x) eqn:Ex.
    { intros [= <-]. split; [in_order_eq |].
      intros Hb. apply (root_black_plug _ (f :: p')); [discriminate | exact Hb]. }
    assert (path_root_black (f :: p') -> p' = [] -> f_color f = black) as Hlast
      by (intros Hb ->; exact Hb).
    destruct (f_side f) eqn:Es.
    + destruct (f_other f) as [| [] wl wv wr] eqn:Ew; [discriminate | |].
      * destruct (extract_round_left x red (f_value f) wl) as [[u again] |] eqn:R;
          [| discriminate].
        apply extract_round_left_spec in R as [R _].
        intros [= <-]. split.
        -- cbn [plug]. rewrite Es, Ew, !in_order_plug. do 2 f_equal.
           destruct again; cbn [in_order]; rewrite ?in_order_set_color, R;
             repeat (rewrite <- app_assoc; cbn [app]); reflexivity.
        -- intros Hb. apply root_black_plug_node;
             [apply path_root_black_cons in Hb; exact Hb | reflexivity].
      * rewrite <- Ew.
        destruct (extract_round_left x (f_color f) (f_value f) (f_other f))
          as [[u again] |] eqn:R; [| discriminate].
        apply extract_round_left_spec in R as [R (a & v & b & ->)].
        assert (in_order (plug (node (f_color f) a v b) p')
                = in_order (plug x (f :: p'))) as Heq.
        { cbn [plug]. rewrite Es, !in_order_plug, R. reflexivity. }
        destruct again.
        -- intros H. apply IH in H as [H1 H2]. split; [congruence |].
           intros Hb. apply H2. apply path_root_black_cons in Hb. exact Hb.
        -- intros [= <-]. split; [exact Heq |].
           intros Hb. apply root_black_plug_node;
             [apply path_root_black_cons in Hb; exact Hb | auto].
    + destruct (f_other f) as [| [] wl wv wr] eqn:Ew; [discriminate | |].
      * destruct (extract_round_right x red (f_value f) wr) as [[u again] |] eqn:R;
          [| discriminate].
        apply extract_round_right_spec in R as [R _].
        intros [= <-]. split.
        -- cbn [plug]. rewrite Es, Ew, !in_order_plug. do 2 f_equal.
           destruct again; cbn [in_order]; rewrite ?in_order_set_color, R;
             repeat (rewrite <- app_assoc; cbn [app]); reflexivity.
        -- intros Hb. apply root_black_plug_node;
             [apply path_root_black_cons in Hb; exact Hb | reflexivity].
      * rewrite <- Ew.
        destruct (extract_round_right x (f_color f) (f_value f) (f_other f))
          as [[u again] |] eqn:R; [| discriminate].
        apply extract_round_right_spec in R as [R (a & v & b & ->)].
        assert (in_order (plug (node (f_color f) a v b) p')
                = in_order (plug x (f :: p'))) as Heq.
        { cbn [plug]. rewrite Es, !in_order_plug, R. reflexivity. }
        destruct again.
        -- intros H. apply IH in H as [H1 H2]. split; [congruence |].
           intros Hb. apply H2. apply path_root_black_cons in Hb. exact Hb.
        -- intros [= <-]. split; [exact Heq |].
           intros Hb. apply root_black_plug_node;
             [apply path_root_black_cons in Hb; exact Hb | auto].
Qed.

Lemma unlinked_spec (c : ordered_index_color) (x t : MonitoredDurationContainer)
    (p : ordered_index_path) :
  unlinked c x p = Some t ->
  in_order t = in_order (plug x p)
  /\ (p <> [] -> path_root_black p -> root_black t)
  /\ (c = black -> path_root_black p -> root_black t).
Proof.
  destruct c; cbn [unlinked].
  - intros [= <-]. split; [reflexivity |]. split; [apply root_black_plug | discriminate].
  - intros H. apply extract_fixup_spec in H as [H1 H2]. auto.
Qed.

(** Extraction removes the record of the node and keeps the others in their
    order; a black root stays black. *)
Lemma rebalance_for_extract_spec (z : iterator) (t : MonitoredDurationContainer) :
  rebalance_for_extract z = Some t ->
  in_order t
  = before_path (it_path z) ++ in_order (it_left z) ++ in_order (it_right z)
    ++ after_path (it_path z)
  /\ (root_black (it_container z) -> root_black t).
Proof.
  unfold rebalance_for_extract, it_container, it_node.
  destruct z as [p zc zl zv zr]. cbn [it_path it_color it_left it_value it_right].
  assert (root_black (plug (node zc zl zv zr) p) ->
          path_root_black p /\ (p = [] -> zc = black)) as Hroot.
  { intros Hb. split; [eapply path_root_black_plug, Hb |].
    intros ->. cbn in Hb. unfold root_black in Hb. destruct zc; cbn in Hb; congruence. }
  assert (forall x, unlinked zc x p = Some t ->
            in_order t = before_path p ++ in_order x ++ after_path p
            /\ (root_black (plug (node zc zl zv zr) p) -> root_black t)) as Hone.
  { intros x H. apply unlinked_spec in H as (H1 & H2 & H3).
    split; [rewrite H1; apply in_order_plug |].
    intros Hb. destruct (Hroot Hb) as [Hp Hc]. destruct p as [| f p].
    - apply H3; [apply Hc; reflexivity | exact Hp].
    - apply H2; [discriminate | exact Hp]. }
  destruct zl as [| lc ll lv lr].
  - intros H. apply Hone in H as [H1 H2]. split; [exact H1 | exact H2].
  - destruct zr as [| rc rl rv rr].
    + intros H. apply Hone in H as [H1 H2]. split; [| exact H2].
      rewrite H1. cbn [in_order]. rewrite app_nil_l. reflexivity.
    + destruct (minimum (node rc rl rv rr) []) as [y |] eqn:M; [| discriminate].
      apply minimum_spec in M as (M1 & M2 & py & M3 & M4).
      rewrite app_nil_r in M3. cbn [plug] in M2.
      intros H. apply unlinked_spec in H as (H1 & H2 & _). split.
      * rewrite H1, in_order_plug, before_path_app, after_path_app.
        rewrite <- M2, in_order_it_container, M1, M3, M4.
        cbn [before_path after_path f_side f_value f_other in_order].
        repeat (rewrite <- app_assoc; cbn [app]). reflexivity.
      * intros Hb. destruct (Hroot Hb) as [Hp Hc].
        apply H2; [destruct (it_path y); discriminate |].
        apply path_root_black_app; [discriminate |].
        destruct p as [| f p]; [cbn; apply Hc; reflexivity | exact Hp].
Qed.

(** *** Replacement *)

Lemma locate_spec (i : nat) (t : MonitoredDurationContainer)
    (q : ordered_index_path) (x : iterator) :
  locate i t q = Some x -> it_container x = plug t q.
Proof.
  revert i q. induction t as [| c l IHl v r IHr]; intros i q; cbn [locate];
    [discriminate |].
  destruct (Nat.compare i (size l)).
  - intros [= <-]. reflexivity.
  - intros H. apply IHl in H. exact H.
  - intros H. apply IHr in H. exact H.
Qed.

Lemma rightmost_link_spec (t : MonitoredDurationContainer) (q : ordered_index_path) :
  plug null (rightmost_link t q) = plug t q.
Proof.
  revert q. induction t as [| c l _ v r IHr]; intros q; cbn [rightmost_link];
    [reflexivity |].
  rewrite IHr. reflexivity.
Qed.

(** A link at a null link of a container adds the record at some place. *)
Lemma link_at (v : MonitoredDuration) (p : ordered_index_path)
    (c t : MonitoredDurationContainer) :
  plug null p = c -> link v p = Some t ->
  exists l1 l2, in_order c = l1 ++ l2 /\ in_order t = l1 ++ v :: l2 /\ root_black t.
Proof.
  intros <- H. apply link_spec in H as (H1 & H2 & H3).
  exists (before_path p), (after_path p). auto.
Qed.

Lemma restore_spec (v : MonitoredDuration) (i : nat)
    (c t : MonitoredDurationContainer) :
  restore v i c = Some t ->
  exists l1 l2, in_order c = l1 ++ l2 /\ in_order t = l1 ++ v :: l2 /\ root_black t.
Proof.
  unfold restore. destruct (locate i c []) as [next |] eqn:E.
  - apply locate_spec in E. cbn [plug] in E.
    destruct next as [q nc nl nv nr]. unfold it_container, it_node in E.
    cbn [it_path it_color it_left it_value it_right] in *.
    destruct nl as [| lc ll lv lr]; apply link_at.
    + cbn [plug f_side f_color f_value f_other]. exact E.
    + rewrite rightmost_link_spec. cbn [plug f_side f_color f_value f_other]. exact E.
  - destruct c as [| cc cl cv cr]; apply link_at; [reflexivity |].
    apply rightmost_link_spec.
Qed.

(** [replace] takes the record of the node out of the enumeration and puts
    a record at some place among the others: the new one when it returns
    [true], the old one when it returns [false]. *)
Lemma container_replace_spec (x : iterator) (v : MonitoredDuration)
    (c' : MonitoredDurationContainer) (b : bool) :
  container_replace x v = Some (c', b) ->
  exists l1 l2,
    before_path (it_path x) ++ in_order (it_left x) ++ in_order (it_right x)
    ++ after_path (it_path x) = l1 ++ l2
    /\ in_order c' = l1 ++ (if b then v else it_value x) :: l2
    /\ (root_black (it_container x) -> root_black c').
Proof.
  unfold container_replace. destruct (in_place v x).
  - intros [= <- <-].
    exists (before_path (it_path x) ++ in_order (it_left x)),
           (in_order (it_right x) ++ after_path (it_path x)).
    split; [rewrite <- app_assoc; reflexivity |]. split.
    + rewrite in_order_plug. cbn [in_order].
      repeat (rewrite <- app_assoc; cbn [app]). reflexivity.
    + unfold it_container, it_node. intros Hb.
      apply root_black_plug_node; [eapply path_root_black_plug, Hb |].
      intros E. rewrite E in Hb. cbn in Hb. unfold root_black in Hb.
      destruct (it_color x); cbn in Hb; congruence.
  - destruct (rebalance_for_extract x) as [c |] eqn:R; [| discriminate].
    apply rebalance_for_extract_spec in R as [R _]. rewrite <- R.
    destruct (link_point (key_ v) c) as [p |] eqn:E.
    + destruct (link v p) as [t |] eqn:L; [| discriminate].
      intros [= <- <-]. apply link_point_Some in E.
      destruct (link_at _ _ _ _ E L) as (l1 & l2 & H1 & H2 & H3).
      exists l1, l2. auto.
    + destruct (restore (it_value x) (rank x) c) as [t |] eqn:L; [| discriminate].
      intros [= <- <-].
      destruct (restore_spec _ _ _ _ L) as (l1 & l2 & H1 & H2 & H3).
      exists l1, l2. auto.
Qed.

(** *** The red-black invariant *)

(** The number of black nodes on the way down the left spine. *)
Fixpoint black_height (t : MonitoredDurationContainer) : nat :=
  match t with
  | null => 0
  | node black l _ _ => S (black_height l)
  | node red l _ _ => black_height l
  end.

(** Below every node the two subtrees have the same black height, and a
    red node has no red child. *)
Fixpoint rb (t : MonitoredDurationContainer) : Prop :=
  match t with
  | null => True
  | node c l _ r =>
      rb l /\ rb r /\ black_height l = black_height r
      /\ (c = red -> is_red l = false /\ is_red r = false)
  end.

(** A red-black tree: the above, and a black root. *)
Definition red_black (c : MonitoredDurationContainer) : Prop :=
  rb c /\ root_black c.

(** The first node of a path is black; a path without a node does not
    qualify. *)
Definition above_black (p : ordered_index_path) : Prop :=
  match p with
  | [] => False
  | f :: _ => f_color f = black
  end.

(** What a path asks of the rest of a red-black tree, for a subtree of
    black height [n] at its end: at each step the other child has the black
    height of the subtree below, and a red node has a black parent and a
    sibling subtree whose root is not red. *)
Fixpoint ctx (p : ordered_index_path) (n : nat) : Prop :=
  match p with
  | [] => True
  | f :: p' =>
      rb (f_other f) /\ black_height (f_other f) = n
      /\ match f_color f with
         | black => ctx p' (S n)
         | red => is_red (f_other f) = false /\ above_black p' /\ ctx p' n
         end
  end.

Lemma rb_set_color_black (t : MonitoredDurationContainer) :
  rb t -> rb (set_color black t).
Proof.
  destruct t as [| c l v r]; cbn; [auto |].
  intros (Hl & Hr & Hh & _). repeat split; try assumption; discriminate.
Qed.

Lemma set_color_black_id (t : MonitoredDurationContainer) :
  is_red t = false -> set_color black t = t.
Proof. destruct t as [| [] l v r]; cbn; congruence. Qed.

Lemma black_height_0_not_red (t : MonitoredDurationContainer) :
  rb t -> black_height t = 0%nat -> is_red t = false -> t = null.
Proof. destruct t as [| [] l v r]; cbn; intros; [reflexivity | | ]; congruence. Qed.

(** A subtree that fits a path makes a red-black tree with it. *)
Lemma plug_rb (p : ordered_index_path) :
  forall (t : MonitoredDurationContainer) (n : nat),
    ctx p n -> rb t -> black_height t = n ->
    (is_red t = true -> above_black p) ->
    rb (plug t p) /\ (p <> [] -> root_black (plug t p)).
Proof.
  induction p as [| f p IH]; intros t n Hc Ht Hn Hred; cbn [plug].
  - split; [exact Ht | congruence].
  - cbn [ctx] in Hc. destruct Hc as (Ho & Hho & Hc).
    assert (f_color f = red -> is_red t = false /\ is_red (f_other f) = false)
      as Hcol.
    { intros Ec. rewrite Ec in Hc. destruct Hc as (Hnr & _ & _).
      split; [| exact Hnr]. destruct (is_red t) eqn:E; [| reflexivity].
      specialize (Hred eq_refl). cbn in Hred. congruence. }
    assert (rb (match f_side f with
                | to_left => node (f_color f) t (f_value f) (f_other f)
                | to_right => node (f_color f) (f_other f) (f_value f) t
                end)) as Hnode.
    { destruct (f_side f); cbn [rb];
        (split; [assumption | split; [assumption | split; [congruence |]]]);
        intros Ec; destruct (Hcol Ec); split; assumption. }
    destruct (f_color f) eqn:Ec.
    + destruct Hc as (Hnr & Hab & Hc).
      destruct (IH _ n Hc Hnode) as [H1 H2].
      * destruct (f_side f); cbn [black_height]; congruence.
      * intros _. exact Hab.
      * split; [exact H1 |]. intros _. apply H2.
        destruct p; [contradiction | discriminate].
    + destruct (IH _ (S n) Hc Hnode) as [H1 H2].
      * destruct (f_side f); cbn [black_height]; congruence.
      * destruct (f_side f); cbn [is_red]; discriminate.
      * split; [exact H1 |]. intros _. destruct p as [| g p].
        -- cbn [plug]. destruct (f_side f); reflexivity.
        -- apply H2. discriminate.
Qed.

Lemma plug_red_black (p : ordered_index_path) (t : MonitoredDurationContainer)
    (n : nat) :
  ctx p n -> rb t -> black_height t = n ->
  (is_red t = true -> above_black p) ->
  red_black (plug t p).
Proof.
  intros Hc Ht Hn Hred. destruct (plug_rb p t n Hc Ht Hn Hred) as [H1 H2].
  split; [exact H1 |]. destruct p as [| f p]; [| apply H2; discriminate].
  cbn. unfold root_black. destruct (is_red t) eqn:E; [| reflexivity].
  destruct (Hred eq_refl).
Qed.

(** Conversely, every subtree of a red-black tree fits its path. *)
Lemma rb_plug_inv (p : ordered_index_path) :
  forall t : MonitoredDurationContainer,
    red_black (plug t p) ->
    ctx p (black_height t) /\ rb t /\ (is_red t = true -> above_black p).
Proof.
  induction p as [| f p IH]; intros t [Hrb Hroot]; cbn [plug] in *.
  - split; [exact I |]. split; [exact Hrb |].
    unfold root_black in Hroot. congruence.
  - destruct (IH _ (conj Hrb Hroot)) as (Hc & Hnode & Hab).
    destruct (f_side f) eqn:Es; cbn [rb black_height is_red] in *;
      destruct Hnode as (Hl & Hr & Hh & Hcol).
    + split; [| split; [exact Hl |]].
      * cbn [ctx]. split; [exact Hr |]. split; [congruence |].
        destruct (f_color f) eqn:Ec.
        -- destruct (Hcol eq_refl) as [_ Hnr]. auto.
        -- exact Hc.
      * intros E. cbn. destruct (f_color f); [| reflexivity].
        destruct (Hcol eq_refl). congruence.
    + split; [| split; [exact Hr |]].
      * cbn [ctx]. split; [exact Hl |]. split; [congruence |].
        destruct (f_color f) eqn:Ec.
        -- destruct (Hcol eq_refl) as [Hnr _]. rewrite <- Hh. auto.
        -- rewrite <- Hh. exact Hc.
      * intros E. cbn. destruct (f_color f); [| reflexivity].
        destruct (Hcol eq_refl). congruence.
Qed.

Lemma black_height_set_black (t : MonitoredDurationContainer) :
  is_red t = true -> black_height (set_color black t) = S (black_height t).
Proof. destruct t as [| [] l v r]; cbn; congruence. Qed.

Lemma is_red_set_black (t : MonitoredDurationContainer) :
  is_red (set_color black t) = false.
Proof. destruct t; reflexivity. Qed.

Lemma red_black_rb_set_black (t : MonitoredDurationContainer) :
  red_black t -> rb (set_color black t).
Proof. intros [H _]. apply rb_set_color_black, H. Qed.

(** Rebalancing after a link at a place that fits goes through and leaves
    a tree that is red-black once its root is black. *)
Lemma rebalance_rb (k : nat) :
  forall (p : ordered_index_path) (xl : MonitoredDurationContainer)
         (xv : MonitoredDuration) (xr : MonitoredDurationContainer) (n : nat),
    (length p <= k)%nat ->
    rb xl -> rb xr -> black_height xl = n -> black_height xr = n ->
    is_red xl = false -> is_red xr = false -> ctx p n ->
    exists t, rebalance xl xv xr p = Some t /\ rb (set_color black t).
Proof.
  induction k as [| k IH]; intros p xl xv xr n Hlen Hl Hr Hhl Hhr Hnl Hnr Hc.
  { destruct p; [| cbn in Hlen; lia]. eexists. split; [reflexivity |].
    cbn. repeat split; try assumption; congruence. }
  assert (rb (node red xl xv xr)) as Hx
    by (cbn; repeat split; try assumption; congruence).
  destruct p as [| fp p1]; cbn [rebalance].
  { eexists. split; [reflexivity |]. cbn. repeat split; try assumption; congruence. }
  cbn [ctx] in Hc. destruct Hc as (Hps & Hhps & Hc).
  destruct (f_color fp) eqn:Ep.
  2:{ eexists. split; [reflexivity |]. apply red_black_rb_set_black.
      apply (plug_red_black (fp :: p1) _ n); [| exact Hx | exact Hhl |].
      - cbn [ctx]. rewrite Ep. auto.
      - intros _. exact Ep. }
  destruct Hc as (Hnps & Hab & Hc).
  destruct p1 as [| fg p2]; [destruct Hab |].
  cbn in Hab. cbn [ctx] in Hc. rewrite Hab in Hc. destruct Hc as (Hy & Hhy & Hc).
  assert (length p2 <= k)%nat as Hlen2 by (cbn in Hlen; lia).
  destruct (f_side fg) eqn:Eg; destruct (is_red (f_other fg)) eqn:Ey.
  - apply (IH p2 _ _ _ (S n)); try assumption.
    + destruct (f_side fp); cbn; repeat split; try assumption; congruence.
    + apply rb_set_color_black, Hy.
    + destruct (f_side fp); cbn; congruence.
    + rewrite black_height_set_black by assumption. congruence.
    + destruct (f_side fp); reflexivity.
    + apply is_red_set_black.
  - eexists. split; [reflexivity |]. apply red_black_rb_set_black.
    apply (plug_red_black p2 _ (S n)); [exact Hc | | |].
    + destruct (f_side fp); cbn; repeat split; try assumption; congruence.
    + destruct (f_side fp); cbn; congruence.
    + destruct (f_side fp); discriminate.
  - apply (IH p2 _ _ _ (S n)); try assumption.
    + apply rb_set_color_black, Hy.
    + destruct (f_side fp); cbn; repeat split; try assumption; congruence.
    + rewrite black_height_set_black by assumption. congruence.
    + destruct (f_side fp); cbn; congruence.
    + apply is_red_set_black.
    + destruct (f_side fp); reflexivity.
  - eexists. split; [reflexivity |]. apply red_black_rb_set_black.
    apply (plug_red_black p2 _ (S n)); [exact Hc | | |].
    + destruct (f_side fp); cbn; repeat split; try assumption; congruence.
    + destruct (f_side fp); cbn; congruence.
    + destruct (f_side fp); discriminate.
Qed.

(** A link at a null link of a red-black tree goes through and leaves a
    red-black tree. *)
Lemma link_red_black (v : MonitoredDuration) (p : ordered_index_path) :
  red_black (plug null p) -> exists t, link v p = Some t /\ red_black t.
Proof.
  intros H. apply rb_plug_inv in H as (Hc & _ & _). cbn [black_height] in Hc.
  destruct (rebalance_rb (length p) p null v null 0%nat) as (t & R & Ht);
    try reflexivity; try exact I; try assumption.
  unfold link. rewrite R. eexists. split; [reflexivity |].
  split; [exact Ht | apply root_black_set_color].
Qed.

Lemma container_insert_red_black (m : MonitoredDuration)
    (c : MonitoredDurationContainer) :
  red_black c ->
  exists c' b, container_insert m c = Some (c', b) /\ red_black c'.
Proof.
  intros Hc. unfold container_insert.
  destruct (link_point (key_ m) c) as [p |] eqn:E.
  - apply link_point_Some in E. subst c.
    destruct (link_red_black m p Hc) as (t & L & Ht). rewrite L. eauto.
  - eauto.
Qed.

Lemma extract_round_left_rb (x : MonitoredDurationContainer)
    (pc : ordered_index_color) (pv : MonitoredDuration)
    (w : MonitoredDurationContainer) (n : nat) :
  rb x -> black_height x = n -> rb w -> black_height w = S n -> is_red w = false ->
  exists t again,
    extract_round_left x pc pv w = Some (t, again)
    /\ is_red t = match pc with red => true | black => false end
    /\ if again
       then rb (set_color black t)
            /\ black_height t = match pc with black => S n | red => n end
       else rb t
            /\ black_height t = match pc with black => S (S n) | red => S n end.
Proof.
  intros Hx Hhx Hw Hhw Hnw. unfold extract_round_left.
  destruct w as [| [] wl wv wr]; try discriminate.
  cbn in Hw, Hhw. destruct Hw as (Hl & Hr & Hh & _).
  assert (black_height wl = n) as Hhl by congruence.
  assert (black_height wr = n) as Hhr by congruence.
  destruct (is_red wl) eqn:El, (is_red wr) eqn:Er; cbn [negb andb].
  - eexists _, _. split; [reflexivity |]. split; [destruct pc; reflexivity |].
    destruct wr as [| [] a v b]; try discriminate. cbn in Hr, Hhr.
    destruct pc; cbn; intuition congruence.
  - destruct wl as [| [] wll wlv wlr]; try discriminate. cbn in Hl, Hhl.
    eexists _, _. split; [reflexivity |]. split; [destruct pc; reflexivity |].
    destruct pc; cbn; intuition congruence.
  - eexists _, _. split; [reflexivity |]. split; [destruct pc; reflexivity |].
    destruct wr as [| [] a v b]; try discriminate. cbn in Hr, Hhr.
    destruct pc; cbn; intuition congruence.
  - eexists _, _. split; [reflexivity |]. split; [destruct pc; reflexivity |].
    destruct pc; cbn; intuition congruence.
Qed.

Lemma extract_round_right_rb (x : MonitoredDurationContainer)
    (pc : ordered_index_color) (pv : MonitoredDuration)
    (w : MonitoredDurationContainer) (n : nat) :
  rb x -> black_height x = n -> rb w -> black_height w = S n -> is_red w = false ->
  exists t again,
    extract_round_right x pc pv w = Some (t, again)
    /\ is_red t = match pc with red => true | black => false end
    /\ if again
       then rb (set_color black t)
            /\ black_height t = match pc with black => S n | red => n end
       else rb t
            /\ black_height t = match pc with black => S (S n) | red => S n end.
Proof.
  intros Hx Hhx Hw Hhw Hnw. unfold extract_round_right.
  destruct w as [| [] wl wv wr]; try discriminate.
  cbn in Hw, Hhw. destruct Hw as (Hl & Hr & Hh & _).
  assert (black_height wl = n) as Hhl by congruence.
  assert (black_height wr = n) as Hhr by congruence.
  destruct (is_red wr) eqn:Er, (is_red wl) eqn:El; cbn [negb andb].
  - eexists _, _. split; [reflexivity |]. split; [destruct pc; reflexivity |].
    destruct wl as [| [] a v b]; try discriminate. cbn in Hl, Hhl.
    destruct pc; cbn; intuition congruence.
  - destruct wr as [| [] wrl wrv wrr]; try discriminate. cbn in Hr, Hhr.
    eexists _, _. split; [reflexivity |]. split; [destruct pc; reflexivity |].
    destruct pc; cbn; intuition congruence.
  - eexists _, _. split; [reflexivity |]. split; [destruct pc; reflexivity |].
    destruct wl as [| [] a v b]; try discriminate. cbn in Hl, Hhl.
    destruct pc; cbn; intuition congruence.
  - eexists _, _. split; [reflexivity |]. split; [destruct pc; reflexivity |].
    destruct pc; cbn; intuition congruence.
Qed.

(** The loop that follows the extraction of a black node: [x] hangs where a
    subtree one black node higher is expected.  The loop goes through and
    leaves a red-black tree. *)
Lemma extract_fixup_rb (p : ordered_index_path) :
  forall (x : MonitoredDurationContainer) (n : nat),
    rb (set_color black x) -> black_height x = n -> ctx p (S n) ->
    exists t, extract_fixup x p = Some t /\ red_black t.
Proof.
  induction p as [| f p' IH]; intros x n Hx Hh Hc; cbn [extract_fixup].
  { eexists. split; [reflexivity |]. split; [exact Hx | apply root_black_set_color]. }
  destruct (is_red x) eqn:Ex.
  { eexists. split; [reflexivity |].
    apply (plug_red_black (f :: p') _ (S n)); [exact Hc | exact Hx | |].
    - rewrite black_height_set_black by exact Ex. congruence.
    - rewrite is_red_set_black. discriminate. }
  rewrite (set_color_black_id x Ex) in Hx.
  cbn [ctx] in Hc. destruct Hc as (Hw & Hhw & Hc).
  destruct (f_side f) eqn:Es.
  - destruct (f_other f) as [| [] wl wv wr] eqn:Ew; [discriminate Hhw | |].
    + destruct (f_color f) eqn:Ec; [destruct Hc as (Hc & _); discriminate Hc |].
      cbn in Hw, Hhw. destruct Hw as (Hl & Hr & Hlr & Hcol).
      destruct (Hcol eq_refl) as [Hnl Hnr].
      destruct (extract_round_left_rb x red (f_value f) wl n)
        as (t & again & R & Hred & Ht); try assumption.
      rewrite R. eexists. split; [reflexivity |].
      apply (plug_red_black p' _ (S (S n))); [exact Hc | | | discriminate].
      * destruct again; destruct Ht as [Ht Hht]; cbn [rb].
        -- rewrite black_height_set_black by exact Hred.
           repeat split; try assumption; try discriminate; congruence.
        -- repeat split; try assumption; try discriminate; congruence.
      * destruct again; destruct Ht as [Ht Hht]; cbn [black_height].
        -- rewrite black_height_set_black by exact Hred. congruence.
        -- congruence.
    + rewrite <- Ew in *.
      assert (is_red (f_other f) = false) as Hnw by (rewrite Ew; reflexivity).
      destruct (extract_round_left_rb x (f_color f) (f_value f) (f_other f) n)
        as (t & again & R & Hred & Ht); try assumption.
      rewrite R. destruct again.
      * destruct Ht as [Ht Hht].
        apply (IH t (match f_color f with black => S n | red => n end));
          [exact Ht | exact Hht |].
        destruct (f_color f); [destruct Hc as (_ & _ & Hc) |]; exact Hc.
      * destruct Ht as [Ht Hht]. eexists. split; [reflexivity |].
        apply (plug_red_black p' _
                 (match f_color f with black => S (S n) | red => S n end));
          [| exact Ht | exact Hht |].
        -- destruct (f_color f); [destruct Hc as (_ & _ & Hc) |]; exact Hc.
        -- rewrite Hred. destruct (f_color f); [| discriminate].
           intros _. destruct Hc as (_ & Hc & _). exact Hc.
  - destruct (f_other f) as [| [] wl wv wr] eqn:Ew; [discriminate Hhw | |].
    + destruct (f_color f) eqn:Ec; [destruct Hc as (Hc & _); discriminate Hc |].
      cbn in Hw, Hhw. destruct Hw as (Hl & Hr & Hlr & Hcol).
      destruct (Hcol eq_refl) as [Hnl Hnr].
      destruct (extract_round_right_rb x red (f_value f) wr n)
        as (t & again & R & Hred & Ht); try assumption; try congruence.
      rewrite R. eexists. split; [reflexivity |].
      apply (plug_red_black p' _ (S (S n))); [exact Hc | | | discriminate].
      * destruct again; destruct Ht as [Ht Hht]; cbn [rb].
        -- rewrite black_height_set_black by exact Hred.
           repeat split; try assumption; try discriminate; congruence.
        -- repeat split; try assumption; try discriminate; congruence.
      * cbn [black_height]. congruence.
    + rewrite <- Ew in *.
      assert (is_red (f_other f) = false) as Hnw by (rewrite Ew; reflexivity).
      destruct (extract_round_right_rb x (f_color f) (f_value f) (f_other f) n)
        as (t & again & R & Hred & Ht); try assumption.
      rewrite R. destruct again.
      * destruct Ht as [Ht Hht].
        apply (IH t (match f_color f with black => S n | red => n end));
          [exact Ht | exact Hht |].
        destruct (f_color f); [destruct Hc as (_ & _ & Hc) |]; exact Hc.
      * destruct Ht as [Ht Hht]. eexists. split; [reflexivity |].
        apply (plug_red_black p' _
                 (match f_color f with black => S (S n) | red => S n end));
          [| exact Ht | exact Hht |].
        -- destruct (f_color f); [destruct Hc as (_ & _ & Hc) |]; exact Hc.
        -- rewrite Hred. destruct (f_color f); [| discriminate].
           intros _. destruct Hc as (_ & Hc & _). exact Hc.
Qed.

Lemma unlinked_red_black (c : ordered_index_color) (x : MonitoredDurationContainer)
    (q : ordered_index_path) :
  rb x -> black_height x = 0%nat -> (c = red -> is_red x = false) ->
  ctx q (match c with black => 1 | red => 0 end) ->
  exists t, unlinked c x q = Some t /\ red_black t.
Proof.
  intros Hx Hh Hred Hc. destruct c; cbn [unlinked].
  - eexists. split; [reflexivity |].
    apply (plug_red_black q x 0%nat); [exact Hc | exact Hx | exact Hh |].
    rewrite (Hred eq_refl). discriminate.
  - apply (extract_fixup_rb q x 0%nat); [apply rb_set_color_black, Hx | exact Hh | exact Hc].
Qed.

(** What a path asks does not depend on the values of its nodes. *)
Lemma ctx_frame_value (p1 p2 : ordered_index_path) (s : ordered_index_side)
    (c : ordered_index_color) (v v' : MonitoredDuration)
    (o : MonitoredDurationContainer) :
  forall n, ctx (p1 ++ mkFrame s c v o :: p2) n ->
            ctx (p1 ++ mkFrame s c v' o :: p2) n.
Proof.
  induction p1 as [| f p1 IH]; intros n; cbn [app ctx]; [exact (fun H => H) |].
  intros (H1 & H2 & H3). split; [exact H1 |]. split; [exact H2 |].
  destruct (f_color f); [| apply IH, H3].
  destruct H3 as (H3 & H4 & H5). split; [exact H3 |]. split; [| apply IH, H5].
  destruct p1; exact H4.
Qed.

(** Extraction from a red-black tree goes through and leaves a red-black
    tree. *)
Lemma rebalance_for_extract_red_black (z : iterator) :
  red_black (it_container z) ->
  exists t, rebalance_for_extract z = Some t /\ red_black t.
Proof.
  destruct z as [p zc zl zv zr]. unfold it_container, it_node, rebalance_for_extract.
  cbn [it_path it_color it_left it_value it_right]. intros H.
  pose proof (rb_plug_inv _ _ H) as (Hc & Hz & _).
  cbn [rb] in Hz. destruct Hz as (Hl & Hr & Hh & Hcol).
  destruct zl as [| lc ll lv lr].
  - apply unlinked_red_black; [exact Hr | cbn in Hh; congruence | |].
    + intros E. apply Hcol, E.
    + destruct zc; exact Hc.
  - destruct zr as [| rc rl rv rr].
    + apply unlinked_red_black; [exact Hl | cbn in Hh |- *; congruence | |].
      * intros E. apply Hcol, E.
      * cbn [black_height] in Hc, Hh. destruct zc; rewrite Hh in Hc; exact Hc.
    + destruct (minimum (node rc rl rv rr) []) as [y |] eqn:M;
        [| exfalso; revert M; apply minimum_defined].
      apply minimum_spec in M as (M1 & M2 & py & M3 & _).
      rewrite app_nil_r in M3. cbn [plug] in M2.
      destruct y as [yp yc yl yv yr]. unfold it_container, it_node in M2.
      cbn [it_path it_color it_left it_value it_right] in *. subst yp yl.
      assert (red_black
                (plug (node yc null yv yr)
                   (py ++ mkFrame to_right zc zv (node lc ll lv lr) :: p))) as H'.
      { rewrite plug_app, M2. exact H. }
      apply rb_plug_inv in H' as (Hc' & Hy & _).
      apply (ctx_frame_value _ _ _ _ _ yv) in Hc'.
      cbn [rb] in Hy. destruct Hy as (_ & Hyr & Hyh & Hycol).
      apply unlinked_red_black; [exact Hyr | cbn in Hyh; congruence | |].
      * intros E. apply Hycol, E.
      * destruct yc; exact Hc'.
Qed.

Lemma restore_red_black (v : MonitoredDuration) (i : nat)
    (c : MonitoredDurationContainer) :
  red_black c -> exists t, restore v i c = Some t /\ red_black t.
Proof.
  intros H. unfold restore. destruct (locate i c []) as [next |] eqn:E.
  - apply locate_spec in E. cbn [plug] in E.
    destruct next as [q nc nl nv nr]. unfold it_container, it_node in E.
    cbn [it_path it_color it_left it_value it_right] in *.
    destruct nl as [| lc ll lv lr]; apply link_red_black.
    + cbn [plug f_side f_color f_value f_other]. rewrite E. exact H.
    + rewrite rightmost_link_spec. cbn [plug f_side f_color f_value f_other].
      rewrite E. exact H.
  - destruct c as [| cc cl cv cr]; apply link_red_black; [exact H |].
    rewrite rightmost_link_spec. exact H.
Qed.

(** [replace] on a node of a red-black tree goes through and leaves a
    red-black tree. *)
Lemma container_replace_red_black (x : iterator) (v : MonitoredDuration) :
  red_black (it_container x) ->
  exists c' b, container_replace x v = Some (c', b) /\ red_black c'.
Proof.
  intros H. unfold container_replace. destruct (in_place v x).
  - eexists _, _. split; [reflexivity |].
    unfold it_container, it_node in H.
    apply rb_plug_inv in H as (Hc & Hx & Hred).
    apply (plug_red_black _ _ _ Hc); [exact Hx | reflexivity | exact Hred].
  - destruct (rebalance_for_extract_red_black x H) as (c & R & Hc). rewrite R.
    destruct (link_point (key_ v) c) as [p |] eqn:E.
    + apply link_point_Some in E. subst c.
      destruct (link_red_black v p Hc) as (t & L & Ht). rewrite L. eauto.
    + destruct (restore_red_black (it_value x) (rank x) c Hc) as (t & L & Ht).
      rewrite L. eauto.
Qed.

Lemma red_black_root (c : MonitoredDurationContainer) : red_black c -> root_black c.
Proof. intros [_ H]. exact H. Qed.
(** The state a call leaves behind, when it leaves one. *)
Definition final_state {St A : Type} (o : outcome St A) : option St :=
  match o with
  | Return _ s | Throw _ s => Some s
  | Undefined => None
  end.

(** The states of a store in use: it is constructed empty; clients then call
    its methods with keys and monitored durations obtained from the
    constructors, and, between calls, record samples through the monitored
    durations they hold, which changes the heap. *)
Inductive reachable : StoreState -> Prop :=
  | reach_new (f : Z) (L : Duration) (s : MonitoredDurationStore) (h : Heap) :
      MonitoredDurationStore_new f L = Built s -> reachable (s, h)
  | reach_addDuration (st st' : StoreState) (k : DurationKey)
      (sample : Duration) (now : Timestamp) :
      reachable st -> constructed_key k ->
      final_state (MonitoredDurationStore_addDuration (Some k) sample now st)
      = Some st' ->
      reachable st'
  | reach_updateDuration (st st' : StoreState) (d : MonitoredDuration) :
      reachable st -> constructed_key (key_ d) ->
      final_state (MonitoredDurationStore_updateDuration (Some d) st) = Some st' ->
      reachable st'
  | reach_deleteDuration (st st' : StoreState) (k : DurationKey) :
      reachable st -> constructed_key k ->
      final_state (MonitoredDurationStore_deleteDuration (Some k) st) = Some st' ->
      reachable st'
  | reach_heap (s : MonitoredDurationStore) (h h' : Heap) :
      reachable (s, h) -> reachable (s, h').

Definition keys_valid (c : MonitoredDurationContainer) : Prop :=
  Forall (fun m => valid_key (key_ m)) c.

Lemma keys_valid_in_order (c : MonitoredDurationContainer)
    (l1 l2 : list MonitoredDuration) (m : MonitoredDuration) :
  in_order c = l1 ++ m :: l2 ->
  keys_valid c <-> (valid_key (key_ m) /\ Forall (fun x => valid_key (key_ x)) (l1 ++ l2)).
Proof.
  intros E. unfold keys_valid. rewrite E, !Forall_app, Forall_cons. tauto.
Qed.

Lemma container_insert_Some (m : MonitoredDuration)
    (c c' : MonitoredDurationContainer) (b : bool) :
  container_insert m c = Some (c', b) ->
  if b
  then exists l1 l2,
         in_order c = l1 ++ l2 /\ in_order c' = l1 ++ m :: l2 /\ root_black c'
  else c' = c /\ exists x, In x (in_order c) /\ key_ x = key_ m.
Proof.
  unfold container_insert. destruct (link_point (key_ m) c) as [p |] eqn:E.
  - destruct (link m p) as [t |] eqn:L; [| discriminate].
    intros [= <- <-]. apply link_point_Some in E. eapply link_at; eassumption.
  - intros [= <- <-]. split; [reflexivity |]. apply link_point_None, E.
Qed.

Lemma container_insert_keys_valid (m : MonitoredDuration)
    (c c' : MonitoredDurationContainer) (b : bool) :
  valid_key (key_ m) -> keys_valid c ->
  container_insert m c = Some (c', b) -> keys_valid c'.
Proof.
  intros Hm Hc H. apply container_insert_Some in H. destruct b.
  - destruct H as (l1 & l2 & H1 & H2 & _).
    apply (keys_valid_in_order _ _ _ _ H2). split; [exact Hm |].
    unfold keys_valid in Hc. rewrite H1 in Hc. exact Hc.
  - destruct H as [-> _]. exact Hc.
Qed.

Lemma container_replace_keys_valid (x : iterator) (m : MonitoredDuration)
    (c' : MonitoredDurationContainer) (b : bool) :
  valid_key (key_ m) -> keys_valid (it_container x) ->
  container_replace x m = Some (c', b) -> keys_valid c'.
Proof.
  intros Hm Hc H. apply container_replace_spec in H as (l1 & l2 & H1 & H2 & _).
  apply (keys_valid_in_order _ _ _ _ H2).
  unfold keys_valid in Hc. rewrite in_order_it_container in Hc.
  rewrite !Forall_app, Forall_cons, Forall_app in Hc.
  destruct Hc as (Hb & Hl & Hv & Hr & Ha).
  split; [destruct b; assumption |].
  rewrite <- H1, !Forall_app. auto.
Qed.

Lemma container_erase_keys_valid (x : iterator) (c' : MonitoredDurationContainer) :
  keys_valid (it_container x) -> container_erase x = Some c' -> keys_valid c'.
Proof.
  intros Hc H. apply rebalance_for_extract_spec in H as [H _].
  unfold keys_valid in *. rewrite H. rewrite in_order_it_container in Hc.
  rewrite !Forall_app, Forall_cons, Forall_app in Hc.
  destruct Hc as (Hb & Hl & Hv & Hr & Ha).
  rewrite !Forall_app. auto.
Qed.

Lemma addDuration_keys_valid (k : DurationKey) (sample : Duration)
    (now : Timestamp) (st st' : StoreState) :
  valid_key k -> keys_valid (durations_ st.1) ->
  final_state (MonitoredDurationStore_addDuration (Some k) sample now st) = Some st' ->
  keys_valid (durations_ st'.1).
Proof.
  intros Hk Hc. destruct st as [s h].
  unfold MonitoredDurationStore_addDuration.
  destruct (negb (family_ k =? store_family_ s)); [intros [= <-]; exact Hc |].
  destruct (MonitoredDuration_of_key k (store_interval_duration_ s)) as [m0 | ex] eqn:E0;
    [| intros [= <-]; exact Hc].
  apply MonitoredDuration_of_key_key in E0 as (K0 & _).
  destruct (if dur_gtb sample ZERO_DURATION
            then MonitoredDuration_addSample now sample m0 h
            else Return (false, m0) h) as [[b m] h1 | ex h1 |] eqn:E1;
    [| intros [= <-]; exact Hc | discriminate].
  assert (key_ m = k) as Km.
  { destruct (dur_gtb sample ZERO_DURATION).
    - apply addSample_key in E1 as [E1 _]. congruence.
    - injection E1 as <- <- <-. exact K0. }
  destruct (container_insert m (durations_ s)) as [[c' []] |] eqn:I;
    [| | discriminate]; intros [= <-]; [| exact Hc].
  cbn [fst durations_ set_durations].
  eapply container_insert_keys_valid; [| exact Hc | exact I].
  rewrite Km. exact Hk.
Qed.

Lemma reachable_keys_valid (st : StoreState) :
  reachable st -> keys_valid (durations_ st.1).
Proof.
  induction 1 as [f L s h Hnew | st st' k sample now _ IH Hk Hstep
                  | st st' d _ IH Hd Hstep | st st' k _ IH Hk Hstep
                  | s h h' _ IH].
  - unfold MonitoredDurationStore_new in Hnew.
    destruct (dur_leb L ZERO_DURATION); [discriminate |].
    injection Hnew as <-. constructor.
  - eapply addDuration_keys_valid; eauto using constructed_key_valid.
  - destruct st as [s h]. cbn in Hstep, IH.
    destruct (container_find (key_ d) (durations_ s)) as [x |] eqn:F;
      [| injection Hstep as <-; exact IH].
    apply container_find_Some in F as [F _].
    destruct (container_replace x (MonitoredDuration_copy d)) as [[c' b] |] eqn:R;
      [| discriminate].
    injection Hstep as <-. cbn [fst durations_ set_durations].
    eapply container_replace_keys_valid; [| rewrite F; exact IH | exact R].
    cbn. apply constructed_key_valid, Hd.
  - destruct st as [s h]. cbn in Hstep, IH.
    destruct (container_find k (durations_ s)) as [x |] eqn:F;
      [| injection Hstep as <-; exact IH].
    apply container_find_Some in F as [F _].
    destruct (container_erase x) as [c' |] eqn:R; [| discriminate].
    injection Hstep as <-. cbn [fst durations_ set_durations].
    eapply container_erase_keys_valid; [rewrite F; exact IH | exact R].
  - exact IH.
Qed.

(** C9: a constructed key has a known family and a validated (query,
    response) pair, and is made of the constructor's arguments; every other
    combination makes the constructor throw [BadValue].  The same holds of
    the key of a constructed monitored duration and of every record of a
    store in use. *)
Theorem constructed_keys_are_valid :
  (forall (f q r : Z) (s e : string) (i : Z),
     match DurationKey_new f q r s e i with
     | Built k => k = mkKey f q r s e i /\ valid_key k
     | Failed ex => ex = BadValue /\ ~ valid_key (mkKey f q r s e i)
     end)
  /\ (forall (f q r : Z) (s e : string) (i : Z) (L : Duration)
             (md : MonitoredDuration),
        MonitoredDuration_new f q r s e i L = Built md -> valid_key (key_ md))
  /\ (forall (k : DurationKey) (L : Duration) (md : MonitoredDuration),
        constructed_key k -> MonitoredDuration_of_key k L = Built md ->
        valid_key (key_ md))
  /\ (forall st : StoreState,
        reachable st -> Forall (fun m => valid_key (key_ m)) (durations_ st.1)).
Proof.
  split; [exact DurationKey_new_spec |]. split; [| split].
  - intros f q r s e i L md. unfold MonitoredDuration_new.
    pose proof (DurationKey_new_spec f q r s e i) as S.
    destruct (DurationKey_new f q r s e i) as [k | ex]; [| discriminate].
    intros H. apply MonitoredDuration_of_key_key in H as [-> _]. apply S.
  - intros k L md Hk H. apply MonitoredDuration_of_key_key in H as [-> _].
    apply constructed_key_valid, Hk.
  - exact reachable_keys_valid.
Qed.

Lemma constructed_keys_are_valid_witness :
  valid_key key_discover_none
  /\ DurationKey_new AF_INET DHCPDISCOVER DHCPACK "socket_received" "buffer_read" 1
     = Failed BadValue.
Proof.
  pose proof (proj1 constructed_keys_are_valid
                AF_INET DHCPDISCOVER DHCP_NOTYPE "socket_received" "buffer_read" 1)
    as Hok.
  cbn in Hok.
  split; [exact (proj2 Hok) | reflexivity].
Defined.

(** ** Recording samples *)

Lemma fresh_unused (h : Heap) : h !! fresh (dom h) = None.
Proof. apply not_elem_of_dom, is_fresh. Qed.

Lemma fresh_neq (h : Heap) (c : positive) (i : DurationDataInterval) :
  h !! c = Some i -> fresh (dom h) <> c.
Proof. intros H E. rewrite <- E, fresh_unused in H. discriminate. Qed.

(** No current interval: one is opened at [now] and receives the sample. *)
Lemma addSample_opens (now : Timestamp) (sample : Duration)
    (md : MonitoredDuration) (h : Heap) :
  current_interval_ md = None ->
  MonitoredDuration_addSample now sample md h
  = Return (false,
            mkMonitored (key_ md) (interval_duration_ md)
              (Some (fresh (dom h))) (previous_interval_ md))
           (<[fresh (dom h) :=
                DurationDataInterval_addDuration sample (DurationDataInterval_new now)]> h).
Proof.
  intros Hc. unfold MonitoredDuration_addSample, addSample_open, new_interval.
  rewrite Hc. cbn. rewrite lookup_insert_eq, insert_insert_eq. reflexivity.
Qed.

(** The current interval is older than the interval length: it becomes the
    previous interval, untouched, and a new current one is opened. *)
Lemma addSample_rotates (now : Timestamp) (sample : Duration)
    (md : MonitoredDuration) (h : Heap) (L : Z) (c : positive)
    (cur : DurationDataInterval) :
  interval_duration_ md = microseconds L ->
  current_interval_ md = Some c -> h !! c = Some cur ->
  now - start_time_ cur > L ->
  MonitoredDuration_addSample now sample md h
  = Return (true,
            mkMonitored (key_ md) (interval_duration_ md)
              (Some (fresh (dom h))) (Some c))
           (<[fresh (dom h) :=
                DurationDataInterval_addDuration sample (DurationDataInterval_new now)]> h).
Proof.
  intros HL Hc Hcur Hgt.
  unfold MonitoredDuration_addSample, addSample_open, new_interval.
  rewrite Hc, Hcur, HL. unfold dur_gtb, time_diff. cbn [dur_ltb].
  destruct (Z.ltb_spec L (now - start_time_ cur)) as [_ | Hle]; [| lia].
  cbn. rewrite lookup_insert_eq, insert_insert_eq. reflexivity.
Qed.

(** The current interval is not older than the interval length: it receives
    the sample, in place. *)
Lemma addSample_accumulates (now : Timestamp) (sample : Duration)
    (md : MonitoredDuration) (h : Heap) (L : Z) (c : positive)
    (cur : DurationDataInterval) :
  interval_duration_ md = microseconds L ->
  current_interval_ md = Some c -> h !! c = Some cur ->
  now - start_time_ cur <= L ->
  MonitoredDuration_addSample now sample md h
  = Return (false, md) (<[c := DurationDataInterval_addDuration sample cur]> h).
Proof.
  intros HL Hc Hcur Hle.
  unfold MonitoredDuration_addSample, addSample_open.
  rewrite Hc, Hcur, HL. unfold dur_gtb, time_diff. cbn [dur_ltb].
  destruct (Z.ltb_spec L (now - start_time_ cur)) as [Hlt | _]; [lia |].
  rewrite Hc, Hcur. reflexivity.
Qed.

(** Three samples on a monitored duration without a current interval, the
    second at most [L] after the first and the third more than [L] after
    it: one rotation, at the third sample. *)
Lemma three_samples (md : MonitoredDuration) (L : Z) (h : Heap)
    (t0 t1 t2 : Timestamp) (s1 s2 s3 : Duration) :
  interval_duration_ md = microseconds L ->
  current_interval_ md = None ->
  t1 - t0 <= L -> L < t2 - t0 ->
  exists md1 h1 md2 h2 md3 h3,
    MonitoredDuration_addSample t0 s1 md h = Return (false, md1) h1
    /\ MonitoredDuration_addSample t1 s2 md1 h1 = Return (false, md2) h2
    /\ MonitoredDuration_addSample t2 s3 md2 h2 = Return (true, md3) h3
    /\ deref h3 (previous_interval_ md3)
       = Some (DurationDataInterval_addDuration s2
                 (DurationDataInterval_addDuration s1 (DurationDataInterval_new t0)))
    /\ deref h3 (current_interval_ md3)
       = Some (DurationDataInterval_addDuration s3 (DurationDataInterval_new t2)).
Proof.
  intros HL Hc H1 H2.
  set (p0 := fresh (dom h)).
  set (i1 := DurationDataInterval_addDuration s1 (DurationDataInterval_new t0)).
  set (md1 := mkMonitored (key_ md) (interval_duration_ md) (Some p0)
                (previous_interval_ md)).
  set (h1 := <[p0 := i1]> h).
  set (i2 := DurationDataInterval_addDuration s2 i1).
  set (h2 := <[p0 := i2]> h1).
  assert (h1 !! p0 = Some i1) as Hh1 by apply lookup_insert_eq.
  assert (h2 !! p0 = Some i2) as Hh2 by apply lookup_insert_eq.
  eexists md1, h1, md1, h2, _, _.
  split; [apply addSample_opens; exact Hc |].
  split; [apply (addSample_accumulates t1 s2 md1 h1 L p0 i1); auto |].
  split; [apply (addSample_rotates t2 s3 md1 h2 L p0 i2); auto; cbn; lia |].
  cbn [previous_interval_ current_interval_ deref].
  rewrite lookup_insert_eq.
  rewrite lookup_insert_ne by (eapply fresh_neq; exact Hh2).
  split; [exact Hh2 | reflexivity].
Qed.

(** C2: [addSample] opens an interval at [now] and reports nothing when
    there is no current interval; it rotates and reports when the current
    interval started more than [L] before [now]; and samples at [t0],
    [t0 + e], [t0 + L + e] with [0 < e < L] rotate once, at the third, leaving
    a previous interval that holds the first two (occurrence count 2) and a
    current interval that holds the third (occurrence count 1). *)
Theorem addSample_spec :
  forall (md : MonitoredDuration) (L : Z) (h : Heap) (now : Timestamp)
         (sample : Duration),
    interval_duration_ md = microseconds L ->
    (current_interval_ md = None ->
     h !! fresh (dom h) = None
     /\ MonitoredDuration_addSample now sample md h
        = Return (false,
                  mkMonitored (key_ md) (interval_duration_ md)
                    (Some (fresh (dom h))) (previous_interval_ md))
                 (<[fresh (dom h) :=
                      DurationDataInterval_addDuration sample
                        (DurationDataInterval_new now)]> h))
    /\ (forall (c : positive) (cur : DurationDataInterval),
          current_interval_ md = Some c -> h !! c = Some cur ->
          now - start_time_ cur > L ->
          fresh (dom h) <> c
          /\ MonitoredDuration_addSample now sample md h
             = Return (true,
                       mkMonitored (key_ md) (interval_duration_ md)
                         (Some (fresh (dom h))) (Some c))
                      (<[fresh (dom h) :=
                           DurationDataInterval_addDuration sample
                             (DurationDataInterval_new now)]> h))
    /\ (forall (t0 e : Z) (s1 s2 s3 : Duration),
          current_interval_ md = None -> 0 < e < L ->
          exists md1 h1 md2 h2 md3 h3 prev cur,
            MonitoredDuration_addSample t0 s1 md h = Return (false, md1) h1
            /\ MonitoredDuration_addSample (t0 + e) s2 md1 h1 = Return (false, md2) h2
            /\ MonitoredDuration_addSample (t0 + L + e) s3 md2 h2
               = Return (true, md3) h3
            /\ deref h3 (previous_interval_ md3) = Some prev
            /\ prev = DurationDataInterval_addDuration s2
                        (DurationDataInterval_addDuration s1
                           (DurationDataInterval_new t0))
            /\ occurrences_ prev = 2
            /\ deref h3 (current_interval_ md3) = Some cur
            /\ cur = DurationDataInterval_addDuration s3
                       (DurationDataInterval_new (t0 + L + e))
            /\ occurrences_ cur = 1).
Proof.
  intros md L h now sample HL. split; [| split].
  - intros Hc. split; [apply fresh_unused | apply addSample_opens; exact Hc].
  - intros c cur Hc Hcur Hgt.
    split; [eapply fresh_neq; exact Hcur |].
    eapply addSample_rotates; eassumption.
  - intros t0 e s1 s2 s3 Hc He.
    destruct (three_samples md L h t0 (t0 + e) (t0 + L + e) s1 s2 s3 HL Hc)
      as (md1 & h1 & md2 & h2 & md3 & h3 & E1 & E2 & E3 & Hp & Hcur);
      [lia | lia |].
    exists md1, h1, md2, h2, md3, h3.
    eexists _, _. repeat split; eauto.
Qed.

(** A monitored duration with an interval length of one second and no
    interval yet. *)
Definition md_one_second : MonitoredDuration :=
  mkMonitored key_discover_none (microseconds 1000000) None None.

Lemma addSample_spec_witness :
  interval_duration_ md_one_second = microseconds 1000000
  /\ exists md1 h1 md2 h2 md3 h3 prev cur,
       MonitoredDuration_addSample 100000 (microseconds 5) md_one_second ∅
       = Return (false, md1) h1
       /\ MonitoredDuration_addSample (100000 + 400000) (microseconds 7) md1 h1
          = Return (false, md2) h2
       /\ MonitoredDuration_addSample (100000 + 1000000 + 400000) (microseconds 9)
            md2 h2
          = Return (true, md3) h3
       /\ deref h3 (previous_interval_ md3) = Some prev
       /\ prev = DurationDataInterval_addDuration (microseconds 7)
                   (DurationDataInterval_addDuration (microseconds 5)
                      (DurationDataInterval_new 100000))
       /\ occurrences_ prev = 2
       /\ deref h3 (current_interval_ md3) = Some cur
       /\ cur = DurationDataInterval_addDuration (microseconds 9)
                  (DurationDataInterval_new (100000 + 1000000 + 400000))
       /\ occurrences_ cur = 1.
Proof.
  split; [reflexivity |].
  destruct (addSample_spec md_one_second 1000000 ∅ 0 (microseconds 0) eq_refl)
    as (_ & _ & H).
  apply (H 100000 400000 (microseconds 5) (microseconds 7) (microseconds 9));
    [reflexivity | lia].
Defined.

(** The rotation scenario of the design document: interval length 1 s,
    samples at 0.1 s, 0.5 s and 1.2 s; after the third sample the previous
    interval counts two occurrences and the current one a single one. *)
Example duration_rotation_scenario :
  exists md1 h1 md2 h2 md3 h3 prev cur,
    MonitoredDuration_addSample 100000 (microseconds 5) md_one_second ∅
    = Return (false, md1) h1
    /\ MonitoredDuration_addSample 500000 (microseconds 7) md1 h1
       = Return (false, md2) h2
    /\ MonitoredDuration_addSample 1200000 (microseconds 9) md2 h2
       = Return (true, md3) h3
    /\ deref h3 (previous_interval_ md3) = Some prev /\ occurrences_ prev = 2
    /\ deref h3 (current_interval_ md3) = Some cur /\ occurrences_ cur = 1.
Proof.
  destruct (three_samples md_one_second 1000000 ∅ 100000 500000 1200000
              (microseconds 5) (microseconds 7) (microseconds 9))
    as (md1 & h1 & md2 & h2 & md3 & h3 & E1 & E2 & E3 & Hp & Hc);
    [reflexivity | reflexivity | lia | lia |].
  exists md1, h1, md2, h2, md3, h3. eexists _, _.
  split; [exact E1 |]. split; [exact E2 |]. split; [exact E3 |].
  split; [exact Hp |]. split; [reflexivity |]. split; [exact Hc | reflexivity].
Qed.

(** ** The store *)

(** C6: [MonitoredDurationStore::clear] throws [NotImplemented] in every
    state of the store and of the heap, and leaves both as they were. *)
Theorem store_clear_not_implemented :
  forall st : StoreState,
    MonitoredDurationStore_clear st = Throw NotImplemented st
    /\ final_state (MonitoredDurationStore_clear st) = Some st.
Proof. intros st. split; reflexivity. Qed.

(** The invariant the store constructor establishes. *)
Definition store_ok (s : MonitoredDurationStore) : Prop :=
  dur_leb (store_interval_duration_ s) ZERO_DURATION = false.

Lemma MonitoredDurationStore_new_ok (f : Z) (L : Duration)
    (s : MonitoredDurationStore) :
  MonitoredDurationStore_new f L = Built s -> store_ok s /\ durations_ s = null.
Proof.
  unfold MonitoredDurationStore_new, store_ok.
  destruct (dur_leb L ZERO_DURATION) eqn:E; [discriminate |].
  intros [= <-]. split; [exact E | reflexivity].
Qed.

(** Every pointer of a record designates an object. *)
Definition closed (h : Heap) (md : MonitoredDuration) : Prop :=
  (forall c, current_interval_ md = Some c -> is_Some (h !! c))
  /\ (forall c, previous_interval_ md = Some c -> is_Some (h !! c)).

Definition store_closed (st : StoreState) : Prop :=
  Forall (closed st.2) (durations_ st.1).

Lemma deref_alloc (h : Heap) (p : positive) (x : DurationDataInterval)
    (q : DurationDataIntervalPtr) :
  h !! p = None -> (forall c, q = Some c -> is_Some (h !! c)) ->
  deref (<[p := x]> h) q = deref h q.
Proof.
  intros Hp Hq. destruct q as [c |]; [| reflexivity]. cbn.
  apply lookup_insert_ne. intros ->.
  destruct (Hq c eq_refl) as [y Hy]. congruence.
Qed.

(** Allocation leaves what a closed record designates as it was. *)
Lemma snapshot_alloc (h : Heap) (p : positive) (x : DurationDataInterval)
    (md : MonitoredDuration) :
  h !! p = None -> closed h md -> snapshot (<[p := x]> h) md = snapshot h md.
Proof.
  intros Hp [Hc Hv]. unfold snapshot.
  rewrite !deref_alloc by assumption. reflexivity.
Qed.

(** The record [addDuration] builds from a key, and the heap it leaves:
    the first sample is recorded only when it is positive. *)
Definition first_record (k : DurationKey) (sample : Duration) (now : Timestamp)
    (s : MonitoredDurationStore) (h : Heap) : MonitoredDuration * Heap :=
  if dur_gtb sample ZERO_DURATION then
    (mkMonitored k (store_interval_duration_ s) (Some (fresh (dom h))) None,
     <[fresh (dom h) :=
         DurationDataInterval_addDuration sample (DurationDataInterval_new now)]> h)
  else (mkMonitored k (store_interval_duration_ s) None None, h).

(** How [addDuration] proceeds once the key is there, of the right family,
    and the store is well formed: it comes down to the insertion of the new
    record in the index. *)
Lemma addDuration_insert (k : DurationKey) (sample : Duration) (now : Timestamp)
    (s : MonitoredDurationStore) (h : Heap) :
  store_ok s -> family_ k = store_family_ s ->
  MonitoredDurationStore_addDuration (Some k) sample now (s, h)
  = match container_insert (first_record k sample now s h).1 (durations_ s) with
    | None => Undefined
    | Some (_, false) => Throw DuplicateDurationKey (s, h)
    | Some (c', true) =>
        Return (MonitoredDuration_copy (first_record k sample now s h).1)
               (set_durations s c', (first_record k sample now s h).2)
    end.
Proof.
  intros Hok Hf. unfold MonitoredDurationStore_addDuration, first_record.
  rewrite Hf, Z.eqb_refl. cbn [negb].
  unfold MonitoredDuration_of_key. rewrite Hok.
  destruct (dur_gtb sample ZERO_DURATION).
  - rewrite addSample_opens by reflexivity.
    cbn [key_ interval_duration_ previous_interval_ fst snd].
    destruct (container_insert _ (durations_ s)) as [[c' []] |]; [reflexivity | | reflexivity].
    unfold release. cbn [current_interval_ previous_interval_].
    rewrite delete_insert_id by apply fresh_unused. reflexivity.
  - cbn [fst snd].
    destruct (container_insert _ (durations_ s)) as [[c' []] |]; reflexivity.
Qed.

Lemma first_record_key (k : DurationKey) (sample : Duration) (now : Timestamp)
    (s : MonitoredDurationStore) (h : Heap) :
  key_ (first_record k sample now s h).1 = k.
Proof. unfold first_record. destruct (dur_gtb sample ZERO_DURATION); reflexivity. Qed.

(** Closedness is an invariant: recording a sample through a closed record
    and adding a duration to a closed store keep every record closed. *)
Lemma closed_insert (h : Heap) (p : positive) (x : DurationDataInterval)
    (md : MonitoredDuration) :
  closed h md -> closed (<[p := x]> h) md.
Proof.
  intros [Hc Hp]. split; intros c E.
  - destruct (decide (p = c)) as [-> | Hne];
      [rewrite lookup_insert_eq; eauto | rewrite lookup_insert_ne; auto].
  - destruct (decide (p = c)) as [-> | Hne];
      [rewrite lookup_insert_eq; eauto | rewrite lookup_insert_ne; auto].
Qed.

Lemma addSample_closed (now : Timestamp) (sample : Duration)
    (md md' : MonitoredDuration) (h h' : Heap) (b : bool) :
  closed h md ->
  MonitoredDuration_addSample now sample md h = Return (b, md') h' ->
  closed h' md' /\ (forall m, closed h m -> closed h' m).
Proof.
  intros Hcl. unfold MonitoredDuration_addSample, addSample_open, new_interval.
  destruct (current_interval_ md) as [c |] eqn:Ec.
  - destruct (h !! c) as [cur |] eqn:Eh; [| discriminate].
    destruct (dur_gtb (time_diff now (start_time_ cur)) (interval_duration_ md)).
    + cbn. rewrite lookup_insert_eq. intros [= <- <- <-]. split.
      * split; cbn; intros q [= <-].
        -- rewrite lookup_insert_eq. eauto.
        -- rewrite !lookup_insert_ne by (eapply fresh_neq; exact Eh). eauto.
      * intros m Hm. do 2 apply closed_insert. exact Hm.
    + rewrite Ec, Eh. intros [= <- <- <-]. split.
      * apply closed_insert, Hcl.
      * intros m Hm. apply closed_insert, Hm.
  - cbn. rewrite lookup_insert_eq. intros [= <- <- <-]. split.
    + split; cbn; intros q E.
      * injection E as <-. rewrite lookup_insert_eq. eauto.
      * destruct Hcl as [_ Hp]. destruct (Hp q E) as [y Hy].
        destruct (decide (fresh (dom h) = q)) as [-> | Hne];
          [rewrite lookup_insert_eq; eauto |].
        rewrite !lookup_insert_ne by exact Hne. eauto.
    + intros m Hm. do 2 apply closed_insert. exact Hm.
Qed.

Lemma first_record_closed (k : DurationKey) (sample : Duration) (now : Timestamp)
    (s : MonitoredDurationStore) (h : Heap) :
  closed (first_record k sample now s h).2 (first_record k sample now s h).1
  /\ (forall m, closed h m -> closed (first_record k sample now s h).2 m).
Proof.
  unfold first_record. destruct (dur_gtb sample ZERO_DURATION); cbn [fst snd].
  - split.
    + split; cbn; intros c E; [| discriminate].
      injection E as <-. rewrite lookup_insert_eq. eauto.
    + intros m Hm. apply closed_insert, Hm.
  - split; [split; cbn; discriminate | auto].
Qed.

Lemma addDuration_closed (k : DurationKey) (sample : Duration) (now : Timestamp)
    (st st' : StoreState) :
  store_ok st.1 -> family_ k = store_family_ st.1 -> store_closed st ->
  final_state (MonitoredDurationStore_addDuration (Some k) sample now st) = Some st' ->
  store_closed st'.
Proof.
  destruct st as [s h]. cbn [fst snd]. intros Hok Hf Hcl.
  rewrite addDuration_insert by assumption.
  destruct (first_record_closed k sample now s h) as [Hnew Hold].
  destruct (container_insert _ (durations_ s)) as [[c' []] |] eqn:I;
    [| | discriminate]; intros [= <-]; [| exact Hcl].
  apply container_insert_Some in I as (l1 & l2 & H1 & H2 & _).
  unfold store_closed in *. cbn [fst snd durations_ set_durations] in *.
  rewrite H1 in Hcl. rewrite H2. rewrite Forall_app in Hcl. destruct Hcl as [Hc1 Hc2].
  rewrite Forall_app, Forall_cons.
  split; [| split]; [| exact Hnew |]; (eapply Forall_impl; [eassumption | exact Hold]).
Qed.

(** A third key: no query type, no response type. *)
Definition key_none_none : DurationKey :=
  mkKey AF_INET DHCP_NOTYPE DHCP_NOTYPE "socket_received" "buffer_read" 1.

(** A client adding a duration for each key of a list, one call after the
    other and without a first sample; [None] as soon as a call does not
    return. *)
Fixpoint addDurations (keys : list DurationKey) (st : StoreState) : option StoreState :=
  match keys with
  | [] => Some st
  | k :: rest =>
      match MonitoredDurationStore_addDuration (Some k) ZERO_DURATION 0 st with
      | Return _ st' => addDurations rest st'
      | _ => None
      end
  end.

Lemma addDurations_reachable (keys : list DurationKey) (st st' : StoreState) :
  Forall constructed_key keys -> reachable st ->
  addDurations keys st = Some st' -> reachable st'.
Proof.
  intros Hk. revert st. induction Hk as [| k keys Hk _ IH]; intros st Hr; cbn.
  - intros [= <-]. exact Hr.
  - destruct (MonitoredDurationStore_addDuration (Some k) ZERO_DURATION 0 st)
      as [m st1 | |] eqn:E; try discriminate.
    apply IH. eapply reach_addDuration; [exact Hr | exact Hk |].
    rewrite E. reflexivity.
Qed.

(** C10 (the code departs from the claim): [addDuration] accepts a key that
    is in the store.  In a new store, durations are added for the keys
    (DISCOVER, none), (none, OFFER) and (none, none); the third insertion
    rebalances the index, which puts (none, OFFER) at the root.  A further
    [addDuration] with (DISCOVER, none) then compares that key with
    (none, OFFER) and with (none, none) only, each of which [operator<]
    places on one side of it, and never with the stored (DISCOVER, none):
    the call returns instead of throwing [DuplicateDurationKey], and the
    store holds two records with that key. *)
Theorem addDuration_accepts_stored_key :
  exists (s0 : MonitoredDurationStore) (st st' : StoreState)
         (stored copy : MonitoredDuration),
    MonitoredDurationStore_new AF_INET (microseconds 60000000) = Built s0
    /\ addDurations [key_discover_none; key_none_offer; key_none_none] (s0, ∅)
       = Some st
    /\ reachable st
    /\ family_ key_discover_none = store_family_ st.1
    /\ In stored (durations_ st.1) /\ key_ stored = key_discover_none
    /\ MonitoredDurationStore_addDuration (Some key_discover_none) ZERO_DURATION 0 st
       = Return copy st'
    /\ map key_ (durations_ st'.1)
       = [key_none_none; key_discover_none; key_none_offer; key_discover_none].
Proof.
  set (s0 := mkStore AF_INET (microseconds 60000000) null).
  destruct (addDurations [key_discover_none; key_none_offer; key_none_none] (s0, ∅))
    as [st |] eqn:E; [| vm_compute in E; discriminate E].
  assert (reachable st) as Hr.
  { apply (addDurations_reachable
             [key_discover_none; key_none_offer; key_none_none] (s0, ∅));
      [| apply (reach_new AF_INET (microseconds 60000000)); reflexivity | exact E].
    repeat constructor.
    - exists AF_INET, DHCPDISCOVER, DHCP_NOTYPE, "socket_received", "buffer_read", 1.
      reflexivity.
    - exists AF_INET, DHCP_NOTYPE, DHCPOFFER, "socket_received", "buffer_read", 1.
      reflexivity.
    - exists AF_INET, DHCP_NOTYPE, DHCP_NOTYPE, "socket_received", "buffer_read", 1.
      reflexivity. }
  vm_compute in E. injection E as <-.
  exists s0. eexists _, _, _, _.
  split; [reflexivity |]. split; [vm_compute; reflexivity |].
  split; [exact Hr |]. split; [reflexivity |].
  split; [right; right; left; reflexivity |].
  split; [reflexivity |]. split; [vm_compute; reflexivity | vm_compute; reflexivity].
Qed.

(** A store for DHCPv4 with an interval length of one minute, holding one
    record. *)
Definition store_one_record : MonitoredDurationStore :=
  mkStore AF_INET (microseconds 60000000)
    (node black null
       (mkMonitored key_discover_none (microseconds 60000000) None None) null).

(** Retrieval and [clear] on a retrieved record leave the store and the heap
    as they were. *)
Lemma getDuration_state (key : option DurationKey) (st : StoreState) :
  final_state (MonitoredDurationStore_getDuration key st) = Some st.
Proof.
  unfold MonitoredDurationStore_getDuration.
  destruct key as [k |]; [| reflexivity].
  destruct (container_find k (durations_ st.1)); reflexivity.
Qed.

Lemma getAll_state (st : StoreState) :
  final_state (MonitoredDurationStore_getAll st) = Some st.
Proof. reflexivity. Qed.

(** A retrieved record designates the very interval objects of the stored
    one. *)
Lemma getDuration_shares (k : DurationKey) (st : StoreState)
    (m : MonitoredDuration) :
  MonitoredDurationStore_getDuration (Some k) st = Return (Some m) st ->
  exists stored, In stored (durations_ st.1)
    /\ current_interval_ m = current_interval_ stored
    /\ previous_interval_ m = previous_interval_ stored.
Proof.
  unfold MonitoredDurationStore_getDuration.
  destruct (container_find k (durations_ st.1)) as [x |] eqn:F; [| discriminate].
  intros [= <-]. exists (it_value x). apply container_find_In in F as [F _].
  repeat split; assumption.
Qed.

(** The occurrence count of the current interval of the record stored under
    a key, as a reader of the store finds it. *)
Definition stored_occurrences (k : DurationKey) (st : StoreState) : option Z :=
  match container_find k (durations_ st.1) with
  | Some duration_iter =>
      match deref st.2 (current_interval_ (it_value duration_iter)) with
      | Some i => Some (occurrences_ i)
      | None => None
      end
  | None => None
  end.

(** A store holding one record with one sample; the record is then
    retrieved, and a second sample is recorded through the retrieved copy.
    The result is the occurrence count read from the store before and after
    that second sample. *)
Definition sample_through_copy : option (option Z * option Z) :=
  match MonitoredDurationStore_new AF_INET (microseconds 60000000) with
  | Failed _ => None
  | Built s0 =>
      match MonitoredDurationStore_addDuration (Some key_discover_none)
              (microseconds 5) 0 (s0, ∅) with
      | Return _ st1 =>
          match MonitoredDurationStore_getDuration (Some key_discover_none) st1 with
          | Return (Some copy) st2 =>
              match MonitoredDuration_addSample 1 (microseconds 7) copy st2.2 with
              | Return _ h3 =>
                  Some (stored_occurrences key_discover_none st2,
                        stored_occurrences key_discover_none (st2.1, h3))
              | _ => None
              end
          | _ => None
          end
      | _ => None
      end
  end.

(** C3 (the code departs from the claim): a sample recorded through a
    retrieved copy shows in the store.  The copy made by [getDuration]
    designates the interval objects of the stored record, so the stored
    record's occurrence count goes from 1 to 2 although no method of the
    store was called. *)
Theorem sample_through_copy_reaches_store :
  sample_through_copy = Some (Some 1, Some 2).
Proof. vm_compute. reflexivity. Qed.

(** ** Averages *)

Definition sum_ticks (samples : list Z) : Z := fold_right Z.add 0 samples.

Lemma record_samples_fold (samples : list Z) (i : DurationDataInterval) (t : Z) :
  total_duration_ i = microseconds t ->
  total_duration_
    (fold_left (fun i s => DurationDataInterval_addDuration (microseconds s) i)
               samples i)
  = microseconds (t + sum_ticks samples)
  /\ occurrences_
       (fold_left (fun i s => DurationDataInterval_addDuration (microseconds s) i)
                  samples i)
     = occurrences_ i + Z.of_nat (length samples).
Proof.
  revert i t. induction samples as [| s samples IH]; intros i t Ht.
  - cbn. split; [rewrite Ht; f_equal; lia | lia].
  - cbn [fold_left sum_ticks fold_right length].
    destruct (IH (DurationDataInterval_addDuration (microseconds s) i) (t + s))
      as [IH1 IH2].
    { cbn. rewrite Ht. reflexivity. }
    rewrite IH1, IH2, Nat2Z.inj_succ. cbn [occurrences_ DurationDataInterval_addDuration].
    split; [f_equal; unfold sum_ticks; lia | lia].
Qed.

(** C7: the average of an interval is the zero duration when nothing was
    recorded and the total divided by the number of occurrences otherwise;
    for an interval that recorded the samples [s1 .. sn] (n > 0) this is the
    truncated quotient of their sum by n. *)
Theorem getAverageDuration_spec :
  (forall i : DurationDataInterval,
     (occurrences_ i = 0 ->
      DurationDataInterval_getAverageDuration i = ZERO_DURATION)
     /\ (occurrences_ i > 0 ->
         DurationDataInterval_getAverageDuration i
         = dur_div (total_duration_ i) (occurrences_ i)))
  /\ (forall start : Timestamp,
        DurationDataInterval_getAverageDuration (record_samples start [])
        = microseconds 0)
  /\ (forall (start : Timestamp) (s : Z) (samples : list Z),
        DurationDataInterval_getAverageDuration (record_samples start (s :: samples))
        = microseconds (Z.quot (sum_ticks (s :: samples))
                               (Z.of_nat (length (s :: samples))))).
Proof.
  split; [| split].
  - intros i. unfold DurationDataInterval_getAverageDuration. split; intros H.
    + rewrite H. reflexivity.
    + destruct (occurrences_ i =? 0) eqn:E; [apply Z.eqb_eq in E; lia | reflexivity].
  - reflexivity.
  - intros start s samples.
    unfold DurationDataInterval_getAverageDuration, record_samples.
    pose proof (record_samples_fold (s :: samples)
                  (DurationDataInterval_new start) 0 eq_refl) as [Ht Ho].
    rewrite Ht, Ho.
    change (occurrences_ (DurationDataInterval_new start)) with 0.
    destruct (0 + Z.of_nat (length (s :: samples)) =? 0) eqn:E.
    + apply Z.eqb_eq in E. cbn [length] in E. lia.
    + cbn [dur_div]. do 2 f_equal.
Qed.

Lemma getAverageDuration_spec_witness :
  DurationDataInterval_getAverageDuration (record_samples 0 [4; 7; 10])
  = microseconds 7.
Proof.
  rewrite (proj2 (proj2 getAverageDuration_spec) 0 4 [7; 10]). reflexivity.
Defined.

End PerfmonSpec.

(** * Properties of the statistics manager *)

Module StatsSpec.
Import Stats.

(** ** Bounds on retained samples *)

(** C5: [setMaxSampleAge] throws [NotImplemented] for every statistic name,
    duration and manager state, and leaves every statistic as it was. *)
Theorem setMaxSampleAge_not_implemented :
  forall (name : string) (duration : StatsDuration) (mgr : StatsMgr),
    StatsMgr_setMaxSampleAge name duration mgr = Throw NotImplemented mgr.
Proof. reflexivity. Qed.

(** C4, as amended: [setMaxSampleCount] throws [NotImplemented] for every
    statistic name, count and manager state, and leaves every statistic as
    it was. *)
Theorem setMaxSampleCount_not_implemented :
  forall (name : string) (max_samples : Z) (mgr : StatsMgr),
    StatsMgr_setMaxSampleCount name max_samples mgr = Throw NotImplemented mgr.
Proof. reflexivity. Qed.

(** A manager holding one integer statistic. *)
Definition mgr_pkt4 : StatsMgr :=
  mkStatsMgr (mkContext
    {[ "pkt4-received" :=
         mkObservation "pkt4-received" STAT_INTEGER [(3, 100)] [] [] [] ]}).

(** C4, as stated, fails: setting the maximum sample count of an existing
    statistic does not succeed. *)
Lemma setMaxSampleCount_does_not_succeed :
  StatsMgr_getObservation "pkt4-received" mgr_pkt4
  = Some (mkObservation "pkt4-received" STAT_INTEGER [(3, 100)] [] [] [])
  /\ StatsMgr_setMaxSampleCount "pkt4-received" 10 mgr_pkt4
     = Throw NotImplemented mgr_pkt4
  /\ ~ (exists mgr' : StatsMgr,
          StatsMgr_setMaxSampleCount "pkt4-received" 10 mgr_pkt4 = Return tt mgr').
Proof.
  split; [reflexivity |]. split; [reflexivity |].
  intros [mgr' H]. discriminate H.
Qed.

(** ** Command handlers *)

(** An error answer: result 1 and a text that says something. *)
Definition error_answer (a : Element) : Prop :=
  answer_result a = Some CONTROL_RESULT_ERROR
  /\ exists t, answer_text a = Some t /\ t <> EmptyString.

Definition success_answer (a : Element) : Prop :=
  answer_result a = Some CONTROL_RESULT_SUCCESS.

Lemma createAnswer_text_error (t : string) :
  t <> EmptyString -> error_answer (createAnswer_text CONTROL_RESULT_ERROR t).
Proof. intros Ht. split; [reflexivity |]. exists t. split; [reflexivity | exact Ht]. Qed.

Lemma not_found_text (n : string) : ("No '" ++ n ++ "' statistic found")%string <> EmptyString.
Proof. discriminate. Qed.

(** The parameters of a request: a map that may or may not have a member
    called name. *)
Definition params_of (m : list (string * Element)) : ConstElementPtr :=
  Some (MapElement m).

Definition needs_name (c : Command) : Prop :=
  c = statistic_get \/ c = statistic_reset \/ c = statistic_remove.

Lemma handle_absent_params (c : Command) (now : Timestamp) (mgr : StatsMgr) :
  needs_name c ->
  exists a, handle c None now mgr = Return a mgr /\ error_answer a.
Proof.
  intros [-> | [-> | ->]]; eexists; (split; [reflexivity |]);
    apply createAnswer_text_error; discriminate.
Qed.

Lemma handle_absent_name (c : Command) (m : list (string * Element))
    (now : Timestamp) (mgr : StatsMgr) :
  needs_name c -> assoc "name" m = None ->
  exists a, handle c (params_of m) now mgr = Return a mgr /\ error_answer a.
Proof.
  intros Hc Hm.
  destruct Hc as [-> | [-> | ->]]; cbn;
    unfold statisticGetHandler, statisticResetHandler, statisticRemoveHandler;
    cbn; rewrite Hm; eexists; (split; [reflexivity |]);
    apply createAnswer_text_error; discriminate.
Qed.

Lemma handle_name_not_string (c : Command) (m : list (string * Element))
    (e : Element) (now : Timestamp) (mgr : StatsMgr) :
  c = statistic_get \/ c = statistic_reset ->
  assoc "name" m = Some e -> is_string e = false ->
  exists a, handle c (params_of m) now mgr = Return a mgr /\ error_answer a.
Proof.
  intros Hc Hm He.
  destruct Hc as [-> | ->]; cbn;
    unfold statisticGetHandler, statisticResetHandler;
    cbn; rewrite Hm, He; cbn; eexists; (split; [reflexivity |]);
    apply createAnswer_text_error; discriminate.
Qed.

Lemma handle_get_named (m : list (string * Element)) (n : string)
    (now : Timestamp) (mgr : StatsMgr) :
  assoc "name" m = Some (StringElement n) ->
  exists a, handle statistic_get (params_of m) now mgr = Return a mgr
    /\ success_answer a
    /\ answer_arguments a = Some (StatsMgr_get n mgr).
Proof.
  intros Hm. cbn. unfold statisticGetHandler. cbn. rewrite Hm. cbn.
  eexists. repeat split.
Qed.

Lemma handle_reset_named (m : list (string * Element)) (n : string)
    (now : Timestamp) (mgr : StatsMgr) :
  assoc "name" m = Some (StringElement n) ->
  match stats_ (global_ mgr) !! n with
  | Some obs =>
      exists a,
        handle statistic_reset (params_of m) now mgr
        = Return a (mkStatsMgr (mkContext (<[n := Observation_reset now obs]>
                                             (stats_ (global_ mgr)))))
        /\ success_answer a
  | None =>
      exists a, handle statistic_reset (params_of m) now mgr = Return a mgr
        /\ error_answer a
  end.
Proof.
  intros Hm. cbn. unfold statisticResetHandler. cbn. rewrite Hm. cbn.
  unfold StatsMgr_reset, StatsMgr_getObservation, StatContext_get.
  destruct (stats_ (global_ mgr) !! n) as [obs |].
  - eexists. split; reflexivity.
  - eexists. split; [reflexivity |].
    apply createAnswer_text_error, not_found_text.
Qed.

Lemma handle_remove_named (m : list (string * Element)) (n : string)
    (now : Timestamp) (mgr : StatsMgr) :
  assoc "name" m = Some (StringElement n) ->
  match stats_ (global_ mgr) !! n with
  | Some _ =>
      exists a,
        handle statistic_remove (params_of m) now mgr
        = Return a (mkStatsMgr (mkContext (delete n (stats_ (global_ mgr)))))
        /\ success_answer a
  | None =>
      exists a, handle statistic_remove (params_of m) now mgr = Return a mgr
        /\ error_answer a
  end.
Proof.
  intros Hm. cbn. unfold statisticRemoveHandler. cbn. rewrite Hm. cbn.
  unfold StatsMgr_del, StatContext_del.
  destruct (stats_ (global_ mgr) !! n) as [obs |].
  - eexists. split; reflexivity.
  - destruct mgr as [ctx]. eexists. split; [reflexivity |].
    apply createAnswer_text_error, not_found_text.
Qed.

(** What [statistic-remove] does with a name that is not a string: the
    handler calls [stringValue()] on it, and the call throws. *)
Lemma handle_remove_name_not_string (m : list (string * Element)) (e : Element)
    (now : Timestamp) (mgr : StatsMgr) :
  assoc "name" m = Some e -> is_string e = false ->
  handle statistic_remove (params_of m) now mgr = Throw TypeError mgr.
Proof.
  intros Hm He. cbn. unfold statisticRemoveHandler. cbn. rewrite Hm.
  destruct e; try reflexivity. discriminate He.
Qed.

(** C8, as amended: [statistic-get], [statistic-reset] and
    [statistic-remove] answer with result 1 and a text when the parameters
    or the name are absent, and so do the first two when the name is not a
    string.  With a string name, [statistic-get] always answers with result 0
    and, as arguments, a map that holds the statistic when it exists and is
    empty otherwise; [statistic-reset] and [statistic-remove] answer with
    result 0 when the statistic exists, resetting or removing it, and with
    result 1 and a text, changing nothing, when it does not.  The three
    commands on all statistics answer with result 0 whatever the
    parameters. *)
Theorem statistic_commands_answer :
  forall (mgr : StatsMgr) (now : Timestamp),
    (forall c : Command, needs_name c ->
       exists a, handle c None now mgr = Return a mgr /\ error_answer a)
    /\ (forall (c : Command) (m : list (string * Element)),
          needs_name c -> assoc "name" m = None ->
          exists a, handle c (params_of m) now mgr = Return a mgr /\ error_answer a)
    /\ (forall (c : Command) (m : list (string * Element)) (e : Element),
          c = statistic_get \/ c = statistic_reset ->
          assoc "name" m = Some e -> is_string e = false ->
          exists a, handle c (params_of m) now mgr = Return a mgr /\ error_answer a)
    /\ (forall (m : list (string * Element)) (n : string),
          assoc "name" m = Some (StringElement n) ->
          (exists a, handle statistic_get (params_of m) now mgr = Return a mgr
             /\ success_answer a
             /\ answer_arguments a = Some (StatsMgr_get n mgr)
             /\ (stats_ (global_ mgr) !! n = None -> StatsMgr_get n mgr = MapElement [])
             /\ (forall obs, stats_ (global_ mgr) !! n = Some obs ->
                   StatsMgr_get n mgr = MapElement [(n, Observation_getJSON obs)]))
          /\ match stats_ (global_ mgr) !! n with
             | Some obs =>
                 (exists a,
                    handle statistic_reset (params_of m) now mgr
                    = Return a (mkStatsMgr (mkContext
                                  (<[n := Observation_reset now obs]>
                                     (stats_ (global_ mgr)))))
                    /\ success_answer a)
                 /\ (exists a,
                       handle statistic_remove (params_of m) now mgr
                       = Return a (mkStatsMgr (mkContext
                                     (delete n (stats_ (global_ mgr)))))
                       /\ success_answer a)
             | None =>
                 (exists a, handle statistic_reset (params_of m) now mgr = Return a mgr
                    /\ error_answer a)
                 /\ (exists a, handle statistic_remove (params_of m) now mgr
                               = Return a mgr
                       /\ error_answer a)
             end)
    /\ (forall params : ConstElementPtr,
          (exists a, handle statistic_get_all params now mgr = Return a mgr
             /\ success_answer a
             /\ answer_arguments a = Some (StatsMgr_getAll mgr))
          /\ (exists a, handle statistic_reset_all params now mgr
                        = Return a (StatsMgr_resetAll now mgr)
                /\ success_answer a)
          /\ (exists a, handle statistic_remove_all params now mgr
                        = Return a (StatsMgr_removeAll mgr)
                /\ success_answer a)).
Proof.
  intros mgr now. repeat apply conj.
  - intros c Hc. apply handle_absent_params, Hc.
  - intros c m Hc Hm. apply handle_absent_name; assumption.
  - intros c m e Hc Hm He. eapply handle_name_not_string; eassumption.
  - intros m n Hm. split.
    + destruct (handle_get_named m n now mgr Hm) as (a & Ha & Hs & Hargs).
      exists a. repeat split; try assumption.
      * intros Hn. unfold StatsMgr_get, StatsMgr_getObservation, StatContext_get.
        rewrite Hn. reflexivity.
      * intros obs Hn. unfold StatsMgr_get, StatsMgr_getObservation, StatContext_get.
        rewrite Hn. reflexivity.
    + pose proof (handle_reset_named m n now mgr Hm) as Hr.
      pose proof (handle_remove_named m n now mgr Hm) as Hd.
      destruct (stats_ (global_ mgr) !! n); split; assumption.
  - intros params. split; [| split].
    + eexists. split; [reflexivity |]. split; reflexivity.
    + eexists. split; reflexivity.
    + eexists. split; reflexivity.
Qed.

Lemma statistic_commands_answer_witness :
  (exists a, handle statistic_remove None 0 mgr_pkt4 = Return a mgr_pkt4
             /\ error_answer a)
  /\ (exists a, handle statistic_get
                  (params_of [("name", StringElement "pkt4-received")]) 0 mgr_pkt4
                = Return a mgr_pkt4
        /\ success_answer a
        /\ answer_arguments a = Some (StatsMgr_get "pkt4-received" mgr_pkt4)).
Proof.
  destruct (statistic_commands_answer mgr_pkt4 0) as (Habs & _ & _ & Hnamed & _).
  split.
  - apply Habs. right. right. reflexivity.
  - destruct (Hnamed [("name", StringElement "pkt4-received")] "pkt4-received"
                eq_refl) as [(a & Ha & Hs & Hargs & _) _].
    exists a. split; [exact Ha |]. split; [exact Hs | exact Hargs].
Defined.

(** C8, as stated, fails: asked for a statistic that does not exist,
    [statistic-get] does not answer with result 1. *)
Lemma statistic_get_unknown_is_not_an_error :
  StatsMgr_getObservation "no-such-statistic" StatsMgr_new = None
  /\ ~ (exists (a : Element) (mgr' : StatsMgr),
          handle statistic_get
            (params_of [("name", StringElement "no-such-statistic")]) 0 StatsMgr_new
          = Return a mgr'
          /\ answer_result a = Some 1).
Proof.
  split; [reflexivity |].
  intros (a & mgr' & H & Hr). cbn in H. injection H as <- <-.
  discriminate Hr.
Qed.

End StatsSpec.

(** * Further properties of the duration monitor *)

Module PerfmonMore.
Import Perfmon PerfmonSpec.

Local Open Scope list_scope.

(** ** What an interval summarises *)

Definition add_tick (i : DurationDataInterval) (s : Z) : DurationDataInterval :=
  DurationDataInterval_addDuration (microseconds s) i.

Lemma fold_add_tick (samples : list Z) (i : DurationDataInterval) (lo hi t : Z) :
  min_duration_ i = microseconds lo -> max_duration_ i = microseconds hi ->
  total_duration_ i = microseconds t ->
  min_duration_ (fold_left add_tick samples i) = microseconds (fold_left Z.min samples lo)
  /\ max_duration_ (fold_left add_tick samples i) = microseconds (fold_left Z.max samples hi)
  /\ total_duration_ (fold_left add_tick samples i) = microseconds (t + sum_ticks samples)
  /\ occurrences_ (fold_left add_tick samples i)
     = occurrences_ i + Z.of_nat (length samples)
  /\ start_time_ (fold_left add_tick samples i) = start_time_ i.
Proof.
  revert i lo hi t. induction samples as [| s samples IH]; intros i lo hi t Hlo Hhi Ht.
  - cbn. rewrite Hlo, Hhi, Ht.
    split; [reflexivity |]. split; [reflexivity |].
    split; [f_equal; lia |]. split; [lia | reflexivity].
  - cbn [fold_left length sum_ticks fold_right].
    destruct (IH (add_tick i s) (Z.min lo s) (Z.max hi s) (t + s))
      as (H1 & H2 & H3 & H4 & H5).
    + cbn. rewrite Hlo. cbn. destruct (Z.ltb_spec s lo); f_equal; lia.
    + cbn. rewrite Hhi. unfold dur_gtb. cbn. destruct (Z.ltb_spec hi s); f_equal; lia.
    + cbn. rewrite Ht. reflexivity.
    + rewrite H1, H2, H3, H4, H5, Nat2Z.inj_succ. cbn [add_tick occurrences_ start_time_
        DurationDataInterval_addDuration].
      split; [reflexivity |]. split; [reflexivity |].
      split; [f_equal; unfold sum_ticks; lia |]. split; [lia | reflexivity].
Qed.

Lemma fold_min_le (samples : list Z) (lo : Z) :
  fold_left Z.min samples lo <= lo
  /\ (forall x, In x samples -> fold_left Z.min samples lo <= x).
Proof.
  revert lo. induction samples as [| s samples IH]; intros lo; cbn.
  - split; [lia | intros x []].
  - destruct (IH (Z.min lo s)) as [H1 H2]. split; [lia |].
    intros x [<- | Hx]; [lia | auto].
Qed.

Lemma fold_max_ge (samples : list Z) (hi : Z) :
  hi <= fold_left Z.max samples hi
  /\ (forall x, In x samples -> x <= fold_left Z.max samples hi).
Proof.
  revert hi. induction samples as [| s samples IH]; intros hi; cbn.
  - split; [lia | intros x []].
  - destruct (IH (Z.max hi s)) as [H1 H2]. split; [lia |].
    intros x [<- | Hx]; [lia | auto].
Qed.

(** X1: an interval that recorded the samples [s, s1, ..., sn] since it was
    opened keeps its start time, counts n+1 occurrences, totals their sum,
    and holds their minimum and their maximum: every recorded sample lies
    between [min_duration_] and [max_duration_]. *)
Theorem interval_summarises_samples :
  forall (start : Timestamp) (s : Z) (samples : list Z),
    exists lo hi : Z,
      record_samples start (s :: samples)
      = mkInterval start (Z.of_nat (length (s :: samples)))
          (microseconds lo) (microseconds hi)
          (microseconds (sum_ticks (s :: samples)))
      /\ lo = fold_left Z.min samples s
      /\ hi = fold_left Z.max samples s
      /\ (forall x, In x (s :: samples) -> lo <= x <= hi).
Proof.
  intros start s samples.
  exists (fold_left Z.min samples s), (fold_left Z.max samples s).
  split; [| split; [reflexivity | split; [reflexivity |]]].
  - unfold record_samples. cbn [fold_left].
    change (fun i s0 => DurationDataInterval_addDuration (microseconds s0) i)
      with add_tick.
    destruct (fold_add_tick samples
                (add_tick (DurationDataInterval_new start) s) s s s)
      as (H1 & H2 & H3 & H4 & H5); try reflexivity.
    destruct (fold_left add_tick samples _) as [st oc mi ma to].
    cbn in H1, H2, H3, H4, H5. subst.
    f_equal. change (length (s :: samples)) with (S (length samples)).
    rewrite Nat2Z.inj_succ. lia.
  - intros x [<- | Hx].
    + pose proof (fold_min_le samples s). pose proof (fold_max_ge samples s). lia.
    + pose proof (fold_min_le samples s) as [_ H1].
      pose proof (fold_max_ge samples s) as [_ H2].
      specialize (H1 x Hx). specialize (H2 x Hx). lia.
Qed.

(** ** Comparison of keys *)

(** X2: [operator==] holds exactly between keys whose six members are the
    same, and [operator!=] exactly between the others; [operator<] never
    holds between equal keys, holds in at least one direction between
    different keys, and holds whenever the left key is lexicographically
    below the right one. *)
Theorem key_comparisons :
  forall a b : DurationKey,
    (DurationKey_eqb a b = true <-> a = b)
    /\ (DurationKey_neqb a b = true <-> a <> b)
    /\ (a = b -> DurationKey_ltb a b = false)
    /\ (a <> b -> DurationKey_ltb a b = true \/ DurationKey_ltb b a = true)
    /\ (lex_ltb a b = true -> DurationKey_ltb a b = true).
Proof.
  intros a b.
  pose proof (DurationKey_eqb_eq a b) as Heq.
  pose proof (ltb_incomparable_iff_eqb a b) as Hinc.
  split; [exact Heq |]. split; [| split; [| split]].
  - unfold DurationKey_neqb. rewrite negb_true_iff.
    destruct (DurationKey_eqb a b); split; intros H; try discriminate.
    + exfalso. apply H, Heq. reflexivity.
    + intros E. apply Heq in E. discriminate.
    + reflexivity.
  - intros E. apply Heq in E. rewrite E in Hinc.
    apply andb_true_iff in Hinc as [H _]. apply negb_true_iff in H. exact H.
  - intros Hne.
    destruct (DurationKey_eqb a b) eqn:E; [exfalso; apply Hne, Heq; reflexivity |].
    apply andb_false_iff in Hinc as [H | H]; apply negb_false_iff in H; auto.
  - apply lex_ltb_DurationKey_ltb.
Qed.

Lemma key_comparisons_witness :
  DurationKey_ltb key_discover_none key_none_offer = true
  \/ DurationKey_ltb key_none_offer key_discover_none = true.
Proof.
  apply (proj1 (proj2 (proj2 (proj2 (key_comparisons key_discover_none key_none_offer))))).
  discriminate.
Defined.

(** ** Construction *)

(** X3: constructing a monitored duration from message types and a finite
    interval length succeeds exactly when the key is valid and the length is
    positive; the object then carries the key and the length, and no
    interval.  Otherwise the constructor throws [BadValue].  Of the special
    interval lengths only positive infinity is accepted. *)
Theorem MonitoredDuration_new_spec :
  (forall (f q r : Z) (s e : string) (i L : Z),
     match MonitoredDuration_new f q r s e i (microseconds L) with
     | Built md =>
         valid_key (mkKey f q r s e i) /\ 0 < L
         /\ md = mkMonitored (mkKey f q r s e i) (microseconds L) None None
     | Failed ex =>
         ex = BadValue /\ (~ valid_key (mkKey f q r s e i) \/ L <= 0)
     end)
  /\ (forall (k : DurationKey) (L : Z),
        MonitoredDuration_of_key k (microseconds L)
        = if 0 <? L then Built (mkMonitored k (microseconds L) None None)
          else Failed BadValue)
  /\ (forall k : DurationKey,
        MonitoredDuration_of_key k pos_infin
        = Built (mkMonitored k pos_infin None None)
        /\ MonitoredDuration_of_key k neg_infin = Failed BadValue
        /\ MonitoredDuration_of_key k not_a_date_time = Failed BadValue).
Proof.
  assert (forall (k : DurationKey) (L : Z),
            MonitoredDuration_of_key k (microseconds L)
            = if 0 <? L then Built (mkMonitored k (microseconds L) None None)
              else Failed BadValue) as Hkey.
  { intros k L. unfold MonitoredDuration_of_key, dur_leb, ZERO_DURATION. cbn.
    destruct (0 <? L); reflexivity. }
  split; [| split; [exact Hkey | intros k; repeat split]].
  intros f q r s e i L. unfold MonitoredDuration_new.
  pose proof (DurationKey_new_spec f q r s e i) as S.
  destruct (DurationKey_new f q r s e i) as [k | ex].
  - destruct S as [-> Hv]. rewrite Hkey.
    destruct (Z.ltb_spec 0 L); [repeat split; assumption | split; [reflexivity | auto]].
  - destruct S as [-> Hv]. split; [reflexivity | auto].
Qed.

(** ** Recording samples, continued *)

(** X4: while the current interval is at most [L] old (exactly [L]
    included), a sample is added to it in place: nothing is reported, the
    monitored duration keeps its two pointers, and no other interval object
    changes. *)
Theorem addSample_within_interval :
  forall (now : Timestamp) (sample : Duration) (md : MonitoredDuration)
         (h : Heap) (L : Z) (c : positive) (cur : DurationDataInterval),
    interval_duration_ md = microseconds L ->
    current_interval_ md = Some c -> h !! c = Some cur ->
    now - start_time_ cur <= L ->
    exists h' : Heap,
      MonitoredDuration_addSample now sample md h = Return (false, md) h'
      /\ h' !! c = Some (DurationDataInterval_addDuration sample cur)
      /\ (forall q, q <> c -> h' !! q = h !! q).
Proof.
  intros now sample md h L c cur HL Hc Hcur Hle.
  exists (<[c := DurationDataInterval_addDuration sample cur]> h).
  split; [eapply addSample_accumulates; eassumption |].
  split; [apply lookup_insert_eq |].
  intros q Hq. apply lookup_insert_ne. congruence.
Qed.

Lemma addSample_within_interval_witness :
  interval_duration_ (mkMonitored key_discover_none (microseconds 1000000) (Some 1%positive) None)
  = microseconds 1000000
  /\ exists h' : Heap,
       MonitoredDuration_addSample 1000100 (microseconds 7)
         (mkMonitored key_discover_none (microseconds 1000000) (Some 1%positive) None)
         {[ 1%positive := mkInterval 100 1 (microseconds 5) (microseconds 5) (microseconds 5) ]}
       = Return (false,
                 mkMonitored key_discover_none (microseconds 1000000)
                   (Some 1%positive) None) h'
       /\ h' !! 1%positive
          = Some (DurationDataInterval_addDuration (microseconds 7)
                    (mkInterval 100 1 (microseconds 5) (microseconds 5) (microseconds 5)))
       /\ (forall q, q <> 1%positive ->
             h' !! q
             = ({[ 1%positive := mkInterval 100 1 (microseconds 5) (microseconds 5)
                                   (microseconds 5) ]} : Heap) !! q).
Proof.
  split; [reflexivity |].
  apply (addSample_within_interval 1000100 (microseconds 7) _ _ 1000000 1%positive
           (mkInterval 100 1 (microseconds 5) (microseconds 5) (microseconds 5)));
    [reflexivity | reflexivity | reflexivity | cbn; lia].
Defined.

(** X5: on a monitored duration whose pointers designate objects,
    [addSample] always returns.  It keeps the key and the interval length,
    leaves a current interval behind, and changes no interval object other
    than the current one; it reports exactly when it made the former current
    interval, unchanged, the previous one, and otherwise keeps the previous
    interval it had. *)
Theorem addSample_returns_and_frames :
  forall (now : Timestamp) (sample : Duration) (md : MonitoredDuration) (h : Heap),
    closed h md ->
    exists (b : bool) (md' : MonitoredDuration) (h' : Heap),
      MonitoredDuration_addSample now sample md h = Return (b, md') h'
      /\ closed h' md'
      /\ key_ md' = key_ md
      /\ interval_duration_ md' = interval_duration_ md
      /\ is_Some (deref h' (current_interval_ md'))
      /\ (forall q, current_interval_ md <> Some q -> is_Some (h !! q) ->
            h' !! q = h !! q)
      /\ (if b
          then previous_interval_ md' = current_interval_ md
               /\ deref h' (previous_interval_ md') = deref h (current_interval_ md)
          else previous_interval_ md' = previous_interval_ md
               /\ (current_interval_ md = None
                   \/ current_interval_ md' = current_interval_ md)).
Proof.
  intros now sample md h Hcl.
  assert (exists b md' h',
             MonitoredDuration_addSample now sample md h = Return (b, md') h'
             /\ is_Some (deref h' (current_interval_ md'))
             /\ (forall q, current_interval_ md <> Some q -> is_Some (h !! q) ->
                   h' !! q = h !! q)
             /\ (if b
                 then previous_interval_ md' = current_interval_ md
                      /\ deref h' (previous_interval_ md')
                         = deref h (current_interval_ md)
                 else previous_interval_ md' = previous_interval_ md
                      /\ (current_interval_ md = None
                          \/ current_interval_ md' = current_interval_ md)))
    as (b & md' & h' & E & Hcur & Hframe & Hprev).
  { unfold MonitoredDuration_addSample, addSample_open, new_interval.
    destruct (current_interval_ md) as [c |] eqn:Ec.
    - destruct Hcl as [Hc _]. destruct (Hc c Ec) as [cur Eh]. rewrite Eh.
      destruct (dur_gtb (time_diff now (start_time_ cur)) (interval_duration_ md)).
      + cbn. rewrite lookup_insert_eq. eexists _, _, _. split; [reflexivity |].
        cbn. rewrite lookup_insert_eq. split; [eauto |]. split.
        * intros q _ [y Hy]. rewrite !lookup_insert_ne; [reflexivity | |];
            eapply fresh_neq; exact Hy.
        * split; [reflexivity |].
          rewrite !lookup_insert_ne by (eapply fresh_neq; exact Eh). reflexivity.
      + rewrite Ec, Eh. eexists _, _, _. split; [reflexivity |].
        rewrite Ec. cbn. rewrite lookup_insert_eq. split; [eauto |]. split.
        * intros q Hq _. apply lookup_insert_ne. congruence.
        * split; [reflexivity | right; reflexivity].
    - cbn. rewrite lookup_insert_eq. eexists _, _, _. split; [reflexivity |].
      cbn. rewrite lookup_insert_eq. split; [eauto |]. split.
      + intros q _ [y Hy]. rewrite !lookup_insert_ne; [reflexivity | |];
          eapply fresh_neq; exact Hy.
      + split; [reflexivity | left; reflexivity]. }
  exists b, md', h'.
  destruct (addSample_closed _ _ _ _ _ _ _ Hcl E) as [Hcl' _].
  destruct (addSample_key _ _ _ _ _ _ _ E) as [Hk HL].
  repeat (split; [assumption |]). assumption.
Qed.

(** A monitored duration with a current and a previous interval, in a heap
    that holds a third interval object as well. *)
Definition md_two_intervals : MonitoredDuration :=
  mkMonitored key_discover_none (microseconds 1000000)
    (Some 1%positive) (Some 2%positive).

Definition heap_three_intervals : Heap :=
  {[ 1%positive := mkInterval 1000000 1 (microseconds 5) (microseconds 5)
                     (microseconds 5);
     2%positive := mkInterval 0 2 (microseconds 3) (microseconds 4) (microseconds 7);
     3%positive := mkInterval 0 1 (microseconds 9) (microseconds 9)
                     (microseconds 9) ]}.

Lemma addSample_returns_and_frames_witness :
  closed heap_three_intervals md_two_intervals
  /\ exists (md' : MonitoredDuration) (h' : Heap),
       MonitoredDuration_addSample 2000001 (microseconds 7) md_two_intervals
         heap_three_intervals
       = Return (true, md') h'
       /\ closed h' md'
       /\ key_ md' = key_discover_none
       /\ interval_duration_ md' = microseconds 1000000
       /\ is_Some (deref h' (current_interval_ md'))
       /\ h' !! 2%positive = heap_three_intervals !! 2%positive
       /\ h' !! 3%positive = heap_three_intervals !! 3%positive
       /\ previous_interval_ md' = Some 1%positive
       /\ deref h' (previous_interval_ md')
          = Some (mkInterval 1000000 1 (microseconds 5) (microseconds 5)
                    (microseconds 5)).
Proof.
  assert (closed heap_three_intervals md_two_intervals) as Hcl.
  { split; intros c E; injection E as <-; eexists; reflexivity. }
  split; [exact Hcl |].
  destruct (addSample_returns_and_frames 2000001 (microseconds 7) md_two_intervals
              heap_three_intervals Hcl)
    as (b & md' & h' & E & Hcl' & K & HL & Hcur & Hframe & Hrot).
  assert (b = true) as ->.
  { rewrite (addSample_rotates 2000001 (microseconds 7) md_two_intervals
               heap_three_intervals 1000000 1%positive
               (mkInterval 1000000 1 (microseconds 5) (microseconds 5)
                  (microseconds 5)))
      in E by (reflexivity || (cbn; lia)).
    injection E as <- _ _. reflexivity. }
  destruct Hrot as [Hp Hd].
  exists md', h'. split; [exact E |]. split; [exact Hcl' |].
  split; [exact K |]. split; [exact HL |]. split; [exact Hcur |].
  split; [apply Hframe; [discriminate | eexists; reflexivity] |].
  split; [apply Hframe; [discriminate | eexists; reflexivity] |].
  split; [exact Hp | exact Hd].
Defined.

(** A client recording a series of timed samples, one call after the
    other. *)
Fixpoint addSamples (samples : list (Timestamp * Z)) (md : MonitoredDuration)
    (h : Heap) : outcome Heap (list bool * MonitoredDuration) :=
  match samples with
  | [] => Return ([], md) h
  | (now, s) :: rest =>
      match MonitoredDuration_addSample now (microseconds s) md h with
      | Return (b, md') h' =>
          match addSamples rest md' h' with
          | Return (bs, md'') h'' => Return (b :: bs, md'') h''
          | Throw e h'' => Throw e h''
          | Undefined => Undefined
          end
      | Throw e h' => Throw e h'
      | Undefined => Undefined
      end
  end.

Lemma addSamples_accumulate (rest : list (Timestamp * Z)) (md : MonitoredDuration)
    (h : Heap) (L : Z) (c : positive) (cur : DurationDataInterval) :
  interval_duration_ md = microseconds L ->
  current_interval_ md = Some c -> h !! c = Some cur ->
  (forall t s, In (t, s) rest -> t - start_time_ cur <= L) ->
  exists h',
    addSamples rest md h = Return (repeat false (length rest), md) h'
    /\ h' !! c = Some (fold_left add_tick (map snd rest) cur).
Proof.
  intros HL Hc. revert h cur. induction rest as [| [t s] rest IH]; intros h cur Hcur Hin.
  - exists h. split; [reflexivity | exact Hcur].
  - cbn [addSamples].
    rewrite (addSample_accumulates t (microseconds s) md h L c cur) by
      (try assumption; apply (Hin t s); left; reflexivity).
    destruct (IH (<[c := DurationDataInterval_addDuration (microseconds s) cur]> h)
                 (DurationDataInterval_addDuration (microseconds s) cur))
      as (h' & E & Hh').
    + apply lookup_insert_eq.
    + intros t' s' Hts. cbn. apply (Hin t' s'). right. exact Hts.
    + exists h'. rewrite E. split; [reflexivity | exact Hh'].
Qed.

(** X6: a series of samples that starts on a monitored duration without a
    current interval and whose later samples all arrive at most [L] after
    the first is collected in one interval: no call reports, the previous
    interval stays what it was, and the current interval is the summary of
    the whole series, started at the time of the first sample. *)
Theorem samples_within_one_interval :
  forall (md : MonitoredDuration) (h : Heap) (L : Z) (t0 s0 : Z)
         (rest : list (Timestamp * Z)),
    interval_duration_ md = microseconds L ->
    current_interval_ md = None ->
    (forall t s, In (t, s) rest -> t - t0 <= L) ->
    exists (md' : MonitoredDuration) (h' : Heap),
      addSamples ((t0, s0) :: rest) md h
      = Return (repeat false (S (length rest)), md') h'
      /\ previous_interval_ md' = previous_interval_ md
      /\ deref h' (current_interval_ md')
         = Some (record_samples t0 (s0 :: map snd rest)).
Proof.
  intros md h L t0 s0 rest HL Hc Hin.
  cbn [addSamples]. rewrite addSample_opens by exact Hc.
  destruct (addSamples_accumulate rest
              (mkMonitored (key_ md) (interval_duration_ md)
                 (Some (fresh (dom h))) (previous_interval_ md))
              (<[fresh (dom h) :=
                   DurationDataInterval_addDuration (microseconds s0)
                     (DurationDataInterval_new t0)]> h)
              L (fresh (dom h))
              (DurationDataInterval_addDuration (microseconds s0)
                 (DurationDataInterval_new t0)))
    as (h' & E & Hh'); try assumption; try reflexivity.
  - apply lookup_insert_eq.
  - eexists _, h'. rewrite E. split; [reflexivity |]. split; [reflexivity |].
    cbn [current_interval_ deref]. exact Hh'.
Qed.

Lemma samples_within_one_interval_witness :
  interval_duration_ md_one_second = microseconds 1000000
  /\ exists (md' : MonitoredDuration) (h' : Heap),
       addSamples [(100, 5); (200, 9); (1000100, 2)] md_one_second ∅
       = Return ([false; false; false], md') h'
       /\ previous_interval_ md' = None
       /\ deref h' (current_interval_ md')
          = Some (mkInterval 100 3 (microseconds 2) (microseconds 9) (microseconds 16)).
Proof.
  split; [reflexivity |].
  apply (samples_within_one_interval md_one_second ∅ 1000000 100 5
           [(200, 9); (1000100, 2)]); [reflexivity | reflexivity |].
  intros t s [[= <- <-] | [[= <- <-] | []]]; lia.
Defined.

(** X7: [clear] drops both intervals and nothing else, so that the next
    sample opens an interval at its own time, with no previous interval and
    no report, whatever intervals the monitored duration had. *)
Theorem clear_then_addSample :
  forall (md : MonitoredDuration) (now : Timestamp) (sample : Duration) (h : Heap),
    MonitoredDuration_clear md
    = mkMonitored (key_ md) (interval_duration_ md) None None
    /\ MonitoredDuration_clear (MonitoredDuration_clear md) = MonitoredDuration_clear md
    /\ h !! fresh (dom h) = None
    /\ MonitoredDuration_addSample now sample (MonitoredDuration_clear md) h
       = Return (false,
                 mkMonitored (key_ md) (interval_duration_ md)
                   (Some (fresh (dom h))) None)
                (<[fresh (dom h) :=
                     DurationDataInterval_addDuration sample
                       (DurationDataInterval_new now)]> h).
Proof.
  intros md now sample h. split; [reflexivity |]. split; [reflexivity |].
  split; [apply fresh_unused |].
  rewrite addSample_opens by reflexivity. reflexivity.
Qed.

(** ** The store, continued *)

Lemma MonitoredDuration_copy_id (m : MonitoredDuration) : MonitoredDuration_copy m = m.
Proof. destruct m. reflexivity. Qed.

Lemma map_copy_id (c : list MonitoredDuration) : map MonitoredDuration_copy c = c.
Proof.
  induction c as [| x c IH]; cbn; [reflexivity |].
  rewrite MonitoredDuration_copy_id, IH. reflexivity.
Qed.

(** The record [getDuration] returns for a key; [None] when it returns the
    null pointer. *)
Definition found (k : DurationKey) (st : StoreState) : option MonitoredDuration :=
  match MonitoredDurationStore_getDuration (Some k) st with
  | Return r _ => r
  | _ => None
  end.

Lemma found_find (k : DurationKey) (st : StoreState) :
  found k st = option_map it_value (container_find k (durations_ st.1)).
Proof.
  unfold found, MonitoredDurationStore_getDuration.
  destruct (container_find k (durations_ st.1)) as [x |]; [| reflexivity].
  cbn. rewrite MonitoredDuration_copy_id. reflexivity.
Qed.

(** X8: constructing a store with a finite interval length succeeds exactly
    when the length is positive, and throws [BadValue] otherwise; a new store
    has the given family and length and holds nothing: [getAll] returns the
    empty list and [getDuration] the null pointer for every key. *)
Theorem new_store_is_empty :
  forall (f L : Z),
    match MonitoredDurationStore_new f (microseconds L) with
    | Built s =>
        0 < L
        /\ store_family_ s = f
        /\ store_interval_duration_ s = microseconds L
        /\ (forall h, MonitoredDurationStore_getAll (s, h) = Return [] (s, h))
        /\ (forall k h,
              MonitoredDurationStore_getDuration (Some k) (s, h) = Return None (s, h))
    | Failed ex => ex = BadValue /\ L <= 0
    end.
Proof.
  intros f L. unfold MonitoredDurationStore_new, dur_leb, ZERO_DURATION. cbn.
  destruct (Z.ltb_spec 0 L); cbn; [| split; [reflexivity | assumption]].
  repeat split. assumption.
Qed.

(** What a call of [addDuration] that adds a record leaves: the record has
    the key, the index enumerates the records that were there, in their
    order, with the new one at some place among them, the family and the
    interval length of the store are what they were, and so are the contents
    of the other records. *)
Definition adds_one_record (k : DurationKey) (sample : Duration) (now : Timestamp)
    (s : MonitoredDurationStore) (h : Heap) : Prop :=
  exists (m : MonitoredDuration) (s' : MonitoredDurationStore) (h' : Heap)
         (l1 l2 : list MonitoredDuration),
    MonitoredDurationStore_addDuration (Some k) sample now (s, h) = Return m (s', h')
    /\ key_ m = k
    /\ in_order (durations_ s) = l1 ++ l2
    /\ MonitoredDurationStore_getAll (s', h') = Return (l1 ++ m :: l2) (s', h')
    /\ store_family_ s' = store_family_ s
    /\ store_interval_duration_ s' = store_interval_duration_ s
    /\ root_black (durations_ s')
    /\ (store_closed (s, h) ->
        store_contents (s', h')
        = map (snapshot h) l1 ++ snapshot h' m :: map (snapshot h) l2).

Lemma addDuration_adds (k : DurationKey) (sample : Duration) (now : Timestamp)
    (s : MonitoredDurationStore) (h : Heap) (c' : MonitoredDurationContainer) :
  store_ok s -> family_ k = store_family_ s ->
  container_insert (first_record k sample now s h).1 (durations_ s) = Some (c', true) ->
  adds_one_record k sample now s h.
Proof.
  intros Hok Hf I. unfold adds_one_record.
  rewrite addDuration_insert by assumption. rewrite I.
  apply container_insert_Some in I as (l1 & l2 & H1 & H2 & H3).
  rewrite MonitoredDuration_copy_id.
  exists (first_record k sample now s h).1, (set_durations s c'),
         (first_record k sample now s h).2, l1, l2.
  split; [reflexivity |]. split; [apply first_record_key |].
  split; [exact H1 |]. split.
  { unfold MonitoredDurationStore_getAll. cbn [fst durations_ set_durations].
    rewrite map_copy_id, H2. reflexivity. }
  split; [reflexivity |]. split; [reflexivity |]. split; [exact H3 |].
  intros Hcl. unfold store_contents, store_closed in *.
  cbn [fst snd durations_ set_durations] in *.
  rewrite H2, map_app. cbn [map]. rewrite H1, Forall_app in Hcl.
  destruct Hcl as [Hc1 Hc2].
  assert (forall l, Forall (closed h) l ->
            map (snapshot (first_record k sample now s h).2) l = map (snapshot h) l)
    as Hsame.
  { intros l Hl. apply map_ext_in. intros x Hx.
    rewrite Forall_forall in Hl. apply list_elem_of_In, Hl in Hx.
    unfold first_record. destruct (dur_gtb sample ZERO_DURATION); cbn [snd];
      [| reflexivity].
    apply snapshot_alloc; [apply fresh_unused | exact Hx]. }
  rewrite !Hsame by assumption. reflexivity.
Qed.

(** X9: on a store whose index has a black root, [addDuration] throws
    [BadValue] on a null key and on a key of another family; with a key of
    the family of the store it either adds one record, or throws
    [DuplicateDurationKey].  Each exception leaves the store and the heap as
    they were.  [DuplicateDurationKey] is thrown only when a record with that
    key is in the store, so that a key no record has is always accepted. *)
Theorem addDuration_adds_one_record :
  forall (s : MonitoredDurationStore) (h : Heap) (sample : Duration)
         (now : Timestamp),
    store_ok s -> root_black (durations_ s) ->
    MonitoredDurationStore_addDuration None sample now (s, h) = Throw BadValue (s, h)
    /\ (forall k : DurationKey,
          family_ k <> store_family_ s ->
          MonitoredDurationStore_addDuration (Some k) sample now (s, h)
          = Throw BadValue (s, h))
    /\ (forall k : DurationKey,
          family_ k = store_family_ s ->
          (adds_one_record k sample now s h
           \/ (MonitoredDurationStore_addDuration (Some k) sample now (s, h)
               = Throw DuplicateDurationKey (s, h)
               /\ exists stored, In stored (durations_ s) /\ key_ stored = k))
          /\ ((forall m, In m (durations_ s) -> key_ m <> k) ->
              adds_one_record k sample now s h)).
Proof.
  intros s h sample now Hok Hb. split; [reflexivity |]. split.
  { intros k Hf. unfold MonitoredDurationStore_addDuration.
    destruct (Z.eqb_spec (family_ k) (store_family_ s)); [contradiction | reflexivity]. }
  intros k Hf.
  assert (adds_one_record k sample now s h
          \/ (MonitoredDurationStore_addDuration (Some k) sample now (s, h)
              = Throw DuplicateDurationKey (s, h)
              /\ exists stored, In stored (durations_ s) /\ key_ stored = k)) as H.
  { destruct (container_insert_spec (first_record k sample now s h).1 (durations_ s) Hb)
      as [(c' & l1 & l2 & I & _) | [I (x & Hx & Hk)]].
    - left. eapply addDuration_adds; eassumption.
    - right. rewrite addDuration_insert by assumption. rewrite I.
      split; [reflexivity |]. exists x. rewrite first_record_key in Hk. auto. }
  split; [exact H |]. intros Hfresh.
  destruct H as [H | [_ (x & Hx & Hk)]]; [exact H |].
  exfalso. exact (Hfresh x Hx Hk).
Qed.

(** A store with a black root, holding two records. *)
Definition store_two_records : MonitoredDurationStore :=
  mkStore AF_INET (microseconds 60000000)
    (node black
       (node red null
          (mkMonitored key_none_offer (microseconds 60000000) None None) null)
       (mkMonitored key_discover_none (microseconds 60000000) None None)
       null).

Lemma addDuration_adds_one_record_witness :
  store_ok store_two_records
  /\ root_black (durations_ store_two_records)
  /\ adds_one_record key_none_none (microseconds 5) 0 store_two_records ∅
  /\ MonitoredDurationStore_addDuration (Some key_discover_none) (microseconds 5) 0
       (store_two_records, ∅)
     = Throw DuplicateDurationKey (store_two_records, ∅).
Proof.
  assert (store_ok store_two_records) as Hok by reflexivity.
  assert (root_black (durations_ store_two_records)) as Hb by reflexivity.
  destruct (addDuration_adds_one_record store_two_records ∅ (microseconds 5) 0
              Hok Hb) as (_ & _ & H).
  split; [exact Hok |]. split; [exact Hb |]. split.
  - apply (proj2 (H key_none_none eq_refl)).
    intros m [<- | [<- | []]]; discriminate.
  - destruct (proj1 (H key_discover_none eq_refl))
      as [(m & s' & h' & l1 & l2 & E & _) | [E _]]; [| exact E].
    exfalso. vm_compute in E. discriminate E.
Defined.

(** X10: when no record of the store has the key, [addDuration] returns,
    and the record it added holds the first sample only when the sample is
    positive: then its current interval starts at the time of the call and
    counts that one sample; with a zero or negative sample the record has no
    interval.  In both cases there is no previous interval and the interval
    length is the store's. *)
Theorem addDuration_first_sample :
  forall (s : MonitoredDurationStore) (h : Heap) (k : DurationKey)
         (x : Z) (now : Timestamp),
    store_ok s -> root_black (durations_ s) -> family_ k = store_family_ s ->
    (forall m, In m (durations_ s) -> key_ m <> k) ->
    exists (m : MonitoredDuration) (st' : StoreState),
      MonitoredDurationStore_addDuration (Some k) (microseconds x) now (s, h)
      = Return m st'
      /\ snapshot st'.2 m
         = (k, store_interval_duration_ s,
            if 0 <? x
            then Some (mkInterval now 1 (microseconds x) (microseconds x)
                         (microseconds x))
            else None,
            None).
Proof.
  intros s h k x now Hok Hb Hf Hfresh.
  destruct (container_insert_fresh (first_record k (microseconds x) now s h).1
              (durations_ s) Hb) as (c' & l1 & l2 & I & _).
  { rewrite first_record_key. exact Hfresh. }
  rewrite addDuration_insert by assumption. rewrite I.
  eexists _, _. split; [reflexivity |].
  rewrite MonitoredDuration_copy_id.
  unfold first_record, dur_gtb, ZERO_DURATION. cbn [dur_ltb].
  destruct (0 <? x); cbn; [| reflexivity].
  unfold snapshot. cbn [key_ interval_duration_ current_interval_
    previous_interval_ deref].
  rewrite lookup_insert_eq. reflexivity.
Qed.

Lemma addDuration_first_sample_witness :
  store_ok store_one_record
  /\ exists (m : MonitoredDuration) (st' : StoreState),
       MonitoredDurationStore_addDuration (Some key_none_offer) (microseconds 0) 7
         (store_one_record, ∅) = Return m st'
       /\ snapshot st'.2 m = (key_none_offer, microseconds 60000000, None, None).
Proof.
  assert (store_ok store_one_record) as Hok by reflexivity.
  split; [exact Hok |].
  apply (addDuration_first_sample store_one_record ∅ key_none_offer 0 7 Hok
           eq_refl eq_refl).
  intros m [<- | []]. discriminate.
Defined.

(** X11: [getDuration] never changes the store or the heap.  It throws
    [BadValue] on a null key; a record it returns is in the store and has
    the key; and it returns the null pointer when no record has the key. *)
Theorem getDuration_spec :
  forall (st : StoreState),
    MonitoredDurationStore_getDuration None st = Throw BadValue st
    /\ (forall k : DurationKey,
          final_state (MonitoredDurationStore_getDuration (Some k) st) = Some st
          /\ (forall m,
                MonitoredDurationStore_getDuration (Some k) st = Return (Some m) st ->
                In m (durations_ st.1) /\ key_ m = k)
          /\ ((forall m, In m (durations_ st.1) -> key_ m <> k) ->
              MonitoredDurationStore_getDuration (Some k) st = Return None st)).
Proof.
  intros st. split; [reflexivity |]. intros k.
  unfold MonitoredDurationStore_getDuration.
  destruct (container_find k (durations_ st.1)) as [x |] eqn:F.
  - apply container_find_In in F as [Hin Hk].
    split; [reflexivity |]. split.
    + intros m [= <-]. rewrite MonitoredDuration_copy_id. auto.
    + intros H. exfalso. exact (H _ Hin Hk).
  - split; [reflexivity |]. split; [discriminate | reflexivity].
Qed.

(** X12: on a store whose index is a red-black tree, [updateDuration]
    throws [BadValue] on a null pointer and [InvalidOperation], changing
    nothing, when [getDuration] finds no record for the key of the given
    duration.  Otherwise it returns: the record [getDuration] finds is taken
    out of the enumeration and one record with that key is put at some place
    among the others, which keep their order.  That record is the given
    duration, unless another record with the same key is in the store, in
    which case it may be the old one.  The heap, the family and the interval
    length of the store stay as they were, and the index stays a red-black
    tree. *)
Theorem updateDuration_spec :
  forall (s : MonitoredDurationStore) (h : Heap),
    red_black (durations_ s) ->
    MonitoredDurationStore_updateDuration None (s, h) = Throw BadValue (s, h)
    /\ (forall d : MonitoredDuration,
          match found (key_ d) (s, h) with
          | None =>
              MonitoredDurationStore_updateDuration (Some d) (s, h)
              = Throw InvalidOperation (s, h)
          | Some old =>
              exists (s' : MonitoredDurationStore)
                     (l1 l2 l3 l4 : list MonitoredDuration) (x : MonitoredDuration),
                MonitoredDurationStore_updateDuration (Some d) (s, h)
                = Return tt (s', h)
                /\ key_ old = key_ d
                /\ in_order (durations_ s) = l1 ++ old :: l2
                /\ in_order (durations_ s') = l3 ++ x :: l4
                /\ l3 ++ l4 = l1 ++ l2
                /\ (x = d
                    \/ (x = old
                        /\ exists other, In other (l1 ++ l2) /\ key_ other = key_ d))
                /\ store_family_ s' = store_family_ s
                /\ store_interval_duration_ s' = store_interval_duration_ s
                /\ red_black (durations_ s')
          end).
Proof.
  intros s h Hrb. split; [reflexivity |]. intros d.
  rewrite found_find. cbn [fst].
  unfold MonitoredDurationStore_updateDuration.
  destruct (container_find (key_ d) (durations_ s)) as [it |] eqn:F; cbn [option_map];
    [| reflexivity].
  pose proof (container_find_In _ _ _ F) as [_ Hk].
  apply container_find_Some in F as [F _].
  rewrite MonitoredDuration_copy_id.
  destruct (container_replace_red_black it d) as (c' & b & R & Hc');
    [rewrite F; exact Hrb |].
  rewrite R.
  exists (set_durations s c'),
         (before_path (it_path it) ++ in_order (it_left it)),
         (in_order (it_right it) ++ after_path (it_path it)).
  assert (in_order (durations_ s)
          = (before_path (it_path it) ++ in_order (it_left it))
            ++ it_value it :: in_order (it_right it) ++ after_path (it_path it))
    as Hold.
  { rewrite <- F, in_order_it_container, <- app_assoc. reflexivity. }
  revert R. unfold container_replace. destruct (in_place d it).
  - intros [= <- <-].
    exists (before_path (it_path it) ++ in_order (it_left it)),
           (in_order (it_right it) ++ after_path (it_path it)), d.
    split; [reflexivity |]. split; [exact Hk |]. split; [exact Hold |].
    split; [cbn [durations_ set_durations]; in_order_eq |].
    split; [reflexivity |]. split; [left; reflexivity |].
    split; [reflexivity |]. split; [reflexivity | exact Hc'].
  - destruct (rebalance_for_extract it) as [c |] eqn:X; [| discriminate].
    apply rebalance_for_extract_spec in X as [X _].
    destruct (link_point (key_ d) c) as [p |] eqn:E.
    + destruct (link d p) as [t |] eqn:L; [| discriminate].
      intros [= <- <-]. apply link_point_Some in E.
      destruct (link_at _ _ _ _ E L) as (l3 & l4 & H1 & H2 & _).
      exists l3, l4, d.
      split; [reflexivity |]. split; [exact Hk |]. split; [exact Hold |].
      split; [exact H2 |].
      split; [rewrite <- H1, X, <- app_assoc; reflexivity |].
      split; [left; reflexivity |].
      split; [reflexivity |]. split; [reflexivity | exact Hc'].
    + destruct (restore (it_value it) (rank it) c) as [t |] eqn:L; [| discriminate].
      intros [= <- <-].
      destruct (restore_spec _ _ _ _ L) as (l3 & l4 & H1 & H2 & _).
      exists l3, l4, (it_value it).
      split; [reflexivity |]. split; [exact Hk |]. split; [exact Hold |].
      split; [exact H2 |].
      split; [rewrite <- H1, X, <- app_assoc; reflexivity |].
      split.
      { right. split; [reflexivity |].
        apply link_point_None in E as (other & Hin & Hko).
        exists other. split; [| exact Hko].
        rewrite X, app_assoc in Hin. exact Hin. }
      split; [reflexivity |]. split; [reflexivity | exact Hc'].
Qed.

Lemma store_two_records_red_black : red_black (durations_ store_two_records).
Proof. cbn. unfold red_black, root_black. cbn. intuition congruence. Qed.

Lemma updateDuration_spec_witness :
  red_black (durations_ store_two_records)
  /\ MonitoredDurationStore_updateDuration
       (Some (mkMonitored key_none_offer (microseconds 5) None None))
       (store_two_records, ∅)
     = Throw InvalidOperation (store_two_records, ∅)
  /\ exists (s' : MonitoredDurationStore),
       MonitoredDurationStore_updateDuration
         (Some (mkMonitored key_discover_none (microseconds 5) None None))
         (store_two_records, ∅)
       = Return tt (s', ∅)
       /\ in_order (durations_ s')
          = [mkMonitored key_none_offer (microseconds 60000000) None None;
             mkMonitored key_discover_none (microseconds 5) None None].
Proof.
  pose proof store_two_records_red_black as Hrb.
  split; [exact Hrb |]. split.
  - exact (proj2 (updateDuration_spec store_two_records ∅ Hrb)
             (mkMonitored key_none_offer (microseconds 5) None None)).
  - pose proof (proj2 (updateDuration_spec store_two_records ∅ Hrb)
                  (mkMonitored key_discover_none (microseconds 5) None None)) as H.
    cbn [found] in H.
    destruct H as (s' & l1 & l2 & l3 & l4 & x & E & _).
    exists s'. split; [exact E |].
    vm_compute in E. injection E as <-. reflexivity.
Defined.

(** X13: on a store whose index is a red-black tree, [deleteDuration]
    throws [BadValue] on a null key and changes nothing when [getDuration]
    finds no record for the key.  Otherwise it returns, and the record
    [getDuration] finds, and no other, is gone from what [getAll] returns;
    the heap, the family and the interval length of the store stay as they
    were, and the index stays a red-black tree. *)
Theorem deleteDuration_spec :
  forall (s : MonitoredDurationStore) (h : Heap),
    red_black (durations_ s) ->
    MonitoredDurationStore_deleteDuration None (s, h) = Throw BadValue (s, h)
    /\ (forall k : DurationKey,
          match found k (s, h) with
          | None =>
              MonitoredDurationStore_deleteDuration (Some k) (s, h) = Return tt (s, h)
          | Some old =>
              exists (s' : MonitoredDurationStore) (l1 l2 : list MonitoredDuration),
                MonitoredDurationStore_deleteDuration (Some k) (s, h)
                = Return tt (s', h)
                /\ key_ old = k
                /\ MonitoredDurationStore_getAll (s, h)
                   = Return (l1 ++ old :: l2) (s, h)
                /\ MonitoredDurationStore_getAll (s', h) = Return (l1 ++ l2) (s', h)
                /\ store_family_ s' = store_family_ s
                /\ store_interval_duration_ s' = store_interval_duration_ s
                /\ red_black (durations_ s')
          end).
Proof.
  intros s h Hrb. split; [reflexivity |]. intros k.
  rewrite found_find. cbn [fst].
  unfold MonitoredDurationStore_deleteDuration.
  destruct (container_find k (durations_ s)) as [it |] eqn:F; cbn [option_map];
    [| reflexivity].
  pose proof (container_find_In _ _ _ F) as [_ Hk].
  apply container_find_Some in F as [F _].
  unfold container_erase.
  destruct (rebalance_for_extract_red_black it) as (c' & R & Hc');
    [rewrite F; exact Hrb |].
  rewrite R. apply rebalance_for_extract_spec in R as [R _].
  exists (set_durations s c'),
         (before_path (it_path it) ++ in_order (it_left it)),
         (in_order (it_right it) ++ after_path (it_path it)).
  split; [reflexivity |]. split; [exact Hk |].
  unfold MonitoredDurationStore_getAll. cbn [fst durations_ set_durations].
  rewrite !map_copy_id, R, <- F, in_order_it_container, <- !app_assoc.
  split; [reflexivity |]. split; [reflexivity |]. split; [reflexivity |].
  split; [reflexivity | exact Hc'].
Qed.

Lemma deleteDuration_spec_witness :
  red_black (durations_ store_two_records)
  /\ MonitoredDurationStore_deleteDuration (Some key_none_offer)
       (store_two_records, ∅)
     = Return tt (store_two_records, ∅)
  /\ exists (s' : MonitoredDurationStore),
       MonitoredDurationStore_deleteDuration (Some key_discover_none)
         (store_two_records, ∅)
       = Return tt (s', ∅)
       /\ MonitoredDurationStore_getAll (s', ∅)
          = Return [mkMonitored key_none_offer (microseconds 60000000) None None]
                   (s', ∅).
Proof.
  pose proof store_two_records_red_black as Hrb.
  split; [exact Hrb |]. split.
  - exact (proj2 (deleteDuration_spec store_two_records ∅ Hrb) key_none_offer).
  - pose proof (proj2 (deleteDuration_spec store_two_records ∅ Hrb)
                  key_discover_none) as H.
    cbn [found] in H.
    destruct H as (s' & l1 & l2 & E & _).
    exists s'. split; [exact E |].
    vm_compute in E. injection E as <-. reflexivity.
Defined.

(** X14: in every state of a store in use, every record is of the family of
    the store, the interval length of the store is positive, and the index
    is a red-black tree, so that no method of the store runs into undefined
    behaviour of the index. *)
Theorem reachable_store_invariant :
  forall st : StoreState,
    reachable st ->
    Forall (fun m => family_ (key_ m) = store_family_ st.1) (durations_ st.1)
    /\ store_ok st.1
    /\ red_black (durations_ st.1).
Proof.
  induction 1 as [f L s h Hnew | st st' k sample now _ IH Hk Hstep
                  | st st' d _ IH Hd Hstep | st st' k _ IH Hk Hstep
                  | s h h' _ IH].
  - apply MonitoredDurationStore_new_ok in Hnew as [Hok Hempty].
    cbn [fst]. rewrite Hempty. cbn.
    split; [constructor | split; [exact Hok | split; [exact I | reflexivity]]].
  - destruct st as [s h], st' as [s' h']. cbn [fst] in *.
    destruct IH as (Hfam & Hok & Hb).
    destruct (Z.eqb_spec (family_ k) (store_family_ s)) as [Hf | Hf].
    + rewrite addDuration_insert in Hstep by assumption.
      destruct (container_insert_red_black (first_record k sample now s h).1
                  (durations_ s) Hb) as (c1 & b1 & I1 & Hc1).
      rewrite I1 in Hstep.
      destruct b1; injection Hstep as <- <-; [| auto].
      apply container_insert_Some in I1 as (l1 & l2 & H1 & H2 & H3).
      cbn [durations_ set_durations store_family_ store_interval_duration_].
      split; [| split; [exact Hok | exact Hc1]].
      rewrite H1 in Hfam. rewrite H2. rewrite Forall_app in Hfam.
      rewrite Forall_app, Forall_cons, first_record_key. tauto.
    + unfold MonitoredDurationStore_addDuration in Hstep.
      destruct (Z.eqb_spec (family_ k) (store_family_ s)); [contradiction |].
      injection Hstep as <- <-. auto.
  - destruct st as [s h]. cbn in Hstep. cbn [fst] in IH.
    destruct IH as (Hfam & Hok & Hb).
    destruct (container_find (key_ d) (durations_ s)) as [x |] eqn:F;
      [| injection Hstep as <-; auto].
    pose proof (container_find_In _ _ _ F) as [_ Hkx].
    apply container_find_Some in F as [F _].
    destruct (container_replace_red_black x (MonitoredDuration_copy d))
      as (c' & b & R & Hc'); [rewrite F; exact Hb |].
    rewrite R in Hstep. injection Hstep as <-.
    cbn [fst durations_ set_durations store_family_ store_interval_duration_].
    apply container_replace_spec in R as (l1 & l2 & H1 & H2 & H3).
    rewrite <- F, in_order_it_container in Hfam.
    rewrite !Forall_app, Forall_cons, Forall_app in Hfam.
    destruct Hfam as (Hbefore & Hl & Hv & Hr & Hafter).
    split; [| split; [exact Hok | exact Hc']].
    assert (Forall (fun m => family_ (key_ m) = store_family_ s) (l1 ++ l2)) as H12
      by (rewrite <- H1, !Forall_app; auto).
    rewrite Forall_app in H12. destruct H12 as [Hl1 Hl2].
    rewrite H2, Forall_app, Forall_cons.
    split; [exact Hl1 |]. split; [| exact Hl2].
    destruct b; [| exact Hv]. cbn [key_ MonitoredDuration_copy].
    rewrite <- Hkx. exact Hv.
  - destruct st as [s h]. cbn in Hstep. cbn [fst] in IH.
    destruct IH as (Hfam & Hok & Hb).
    destruct (container_find k (durations_ s)) as [x |] eqn:F;
      [| injection Hstep as <-; auto].
    apply container_find_Some in F as [F _].
    unfold container_erase in Hstep.
    destruct (rebalance_for_extract_red_black x) as (c' & R & Hc');
      [rewrite F; exact Hb |].
    rewrite R in Hstep. injection Hstep as <-.
    cbn [fst durations_ set_durations store_family_ store_interval_duration_].
    apply rebalance_for_extract_spec in R as [R1 R2].
    rewrite <- F, in_order_it_container in Hfam.
    rewrite !Forall_app, Forall_cons, Forall_app in Hfam.
    split; [| split; [exact Hok | exact Hc']].
    rewrite R1, !Forall_app. tauto.
  - exact IH.
Qed.

(** A store for DHCPv4 with nothing in it. *)
Definition store_empty : MonitoredDurationStore :=
  mkStore AF_INET (microseconds 60000000) null.

Lemma reachable_four_records :
  exists st,
    addDurations [key_discover_none; key_none_offer; key_none_none; key_discover_none]
      (store_empty, ∅) = Some st
    /\ reachable st.
Proof.
  destruct (addDurations
              [key_discover_none; key_none_offer; key_none_none; key_discover_none]
              (store_empty, ∅))
    as [st |] eqn:E; [| vm_compute in E; discriminate E].
  exists st. split; [reflexivity |].
  apply (addDurations_reachable
           [key_discover_none; key_none_offer; key_none_none; key_discover_none]
           (store_empty, ∅));
    [| apply (reach_new AF_INET (microseconds 60000000)); reflexivity | exact E].
  repeat constructor.
  - exists AF_INET, DHCPDISCOVER, DHCP_NOTYPE, "socket_received", "buffer_read", 1.
    reflexivity.
  - exists AF_INET, DHCP_NOTYPE, DHCPOFFER, "socket_received", "buffer_read", 1.
    reflexivity.
  - exists AF_INET, DHCP_NOTYPE, DHCP_NOTYPE, "socket_received", "buffer_read", 1.
    reflexivity.
  - exists AF_INET, DHCPDISCOVER, DHCP_NOTYPE, "socket_received", "buffer_read", 1.
    reflexivity.
Defined.

Lemma reachable_store_invariant_witness :
  exists st,
    addDurations [key_discover_none; key_none_offer; key_none_none; key_discover_none]
      (store_empty, ∅) = Some st
    /\ Forall (fun m => family_ (key_ m) = store_family_ st.1) (durations_ st.1)
    /\ store_ok st.1
    /\ red_black (durations_ st.1).
Proof.
  destruct reachable_four_records as (st & E & Hr).
  exists st. split; [exact E |]. exact (reachable_store_invariant st Hr).
Defined.

Lemma DurationKey_ltb_irrefl (a : DurationKey) : DurationKey_ltb a a = false.
Proof.
  pose proof (ltb_incomparable_iff_eqb a a) as H.
  rewrite DurationKey_eqb_refl in H.
  destruct (DurationKey_ltb a a); [discriminate H | reflexivity].
Qed.

(** X15: two keys each of which [operator<] places below the other hide a
    record.  After [addDuration] of the first and then of the second on a
    new store, [getAll] returns both records and [getDuration] finds the
    first, but for the second [getDuration] returns the null pointer,
    [updateDuration] throws [InvalidOperation] and [deleteDuration] leaves
    the record where it is, while [addDuration] refuses to add it again. *)
Theorem getDuration_misses_stored_record :
  forall (L : Z) (a b : DurationKey) (h : Heap),
    0 < L -> family_ b = family_ a ->
    DurationKey_ltb a b = true -> DurationKey_ltb b a = true ->
    exists (s0 : MonitoredDurationStore) (ma mb : MonitoredDuration)
           (st1 st2 : StoreState),
      MonitoredDurationStore_new (family_ a) (microseconds L) = Built s0
      /\ MonitoredDurationStore_addDuration (Some a) ZERO_DURATION 0 (s0, h)
         = Return ma st1
      /\ MonitoredDurationStore_addDuration (Some b) ZERO_DURATION 0 st1
         = Return mb st2
      /\ key_ ma = a /\ key_ mb = b
      /\ MonitoredDurationStore_getAll st2 = Return [mb; ma] st2
      /\ MonitoredDurationStore_getDuration (Some a) st2 = Return (Some ma) st2
      /\ MonitoredDurationStore_getDuration (Some b) st2 = Return None st2
      /\ (forall d, key_ d = b ->
            MonitoredDurationStore_updateDuration (Some d) st2
            = Throw InvalidOperation st2)
      /\ MonitoredDurationStore_deleteDuration (Some b) st2 = Return tt st2
      /\ MonitoredDurationStore_addDuration (Some b) ZERO_DURATION 0 st2
         = Throw DuplicateDurationKey st2.
Proof.
  intros L a b h HL Hf Hab Hba.
  assert (dur_leb (microseconds L) ZERO_DURATION = false) as Hok.
  { unfold dur_leb, ZERO_DURATION. cbn.
    destruct (Z.ltb_spec 0 L); [reflexivity | lia]. }
  pose proof (DurationKey_ltb_irrefl a) as Haa.
  pose proof (DurationKey_ltb_irrefl b) as Hbb.
  set (ma := mkMonitored a (microseconds L) None None).
  set (mb := mkMonitored b (microseconds L) None None).
  set (s0 := mkStore (family_ a) (microseconds L) null).
  set (s1 := mkStore (family_ a) (microseconds L) (node black null ma null)).
  set (s2 := mkStore (family_ a) (microseconds L)
               (node black (node red null mb null) ma null)).
  assert (forall k s, store_interval_duration_ s = microseconds L ->
            first_record k ZERO_DURATION 0 s h
            = (mkMonitored k (microseconds L) None None, h)) as Hfirst.
  { intros k s Hs. unfold first_record. rewrite Hs. reflexivity. }
  assert (container_insert mb (durations_ s1) = Some (durations_ s2, true)) as I2.
  { unfold container_insert, link_point. cbn. rewrite Hba. reflexivity. }
  assert (container_insert mb (durations_ s2) = Some (durations_ s2, false)) as I3.
  { unfold container_insert, link_point. cbn. rewrite Hba, Hbb. cbn.
    rewrite Hbb. reflexivity. }
  assert (container_find a (durations_ s2)
          = Some (mkIterator [] black (node red null mb null) ma null)) as Fa.
  { unfold container_find. cbn. rewrite Haa, Hba. cbn. rewrite Haa. reflexivity. }
  assert (container_find b (durations_ s2) = None) as Fb.
  { unfold container_find. cbn. rewrite Hab. reflexivity. }
  exists s0, ma, mb, (s1, h), (s2, h).
  split; [unfold MonitoredDurationStore_new; rewrite Hok; reflexivity |].
  split.
  { rewrite addDuration_insert by (exact Hok || reflexivity).
    rewrite Hfirst by reflexivity. reflexivity. }
  split.
  { rewrite addDuration_insert by (exact Hok || exact Hf).
    rewrite Hfirst by reflexivity. cbn [fst snd]. fold mb. rewrite I2. reflexivity. }
  split; [reflexivity |]. split; [reflexivity |]. split; [reflexivity |].
  split.
  { unfold MonitoredDurationStore_getDuration. cbn [fst]. rewrite Fa. reflexivity. }
  split.
  { unfold MonitoredDurationStore_getDuration. cbn [fst]. rewrite Fb. reflexivity. }
  split.
  { intros d Hd. unfold MonitoredDurationStore_updateDuration.
    rewrite Hd, Fb. reflexivity. }
  split.
  { unfold MonitoredDurationStore_deleteDuration. rewrite Fb. reflexivity. }
  rewrite addDuration_insert by (exact Hok || exact Hf).
  rewrite Hfirst by reflexivity. cbn [fst snd]. fold mb. rewrite I3. reflexivity.
Qed.

Lemma getDuration_misses_stored_record_witness :
  DurationKey_ltb key_discover_none key_none_offer = true
  /\ DurationKey_ltb key_none_offer key_discover_none = true
  /\ exists (st2 : StoreState) (mb : MonitoredDuration),
       addDurations [key_discover_none; key_none_offer] (store_empty, ∅) = Some st2
       /\ In mb (durations_ st2.1) /\ key_ mb = key_none_offer
       /\ MonitoredDurationStore_getDuration (Some key_none_offer) st2
          = Return None st2.
Proof.
  split; [reflexivity |]. split; [reflexivity |].
  destruct (getDuration_misses_stored_record 60000000 key_discover_none
              key_none_offer ∅) as (s0 & ma & mb & st1 & st2 & E0 & E1 & E2 & Ka & Kb
                                    & Eall & _ & Eb & _);
    [lia | reflexivity | reflexivity | reflexivity |].
  exists st2, mb.
  injection E0 as <-.
  split.
  { cbn [addDurations]. change (mkStore AF_INET (microseconds 60000000) null)
      with store_empty in E1. rewrite E1, E2. reflexivity. }
  split.
  { unfold MonitoredDurationStore_getAll in Eall. injection Eall as Eall.
    rewrite map_copy_id in Eall. rewrite Eall. left. reflexivity. }
  split; [exact Kb | exact Eb].
Defined.

End PerfmonMore.

(** * Further properties of the statistics manager *)

Module StatsMore.
Import Stats StatsSpec.

Local Open Scope list_scope.

(** ** Single statistics *)

Lemma Observation_reset_keeps (now : Timestamp) (o : Observation) :
  name_ (Observation_reset now o) = name_ o
  /\ type_ (Observation_reset now o) = type_ o.
Proof. unfold Observation_reset. destruct (type_ o) eqn:E; cbn; auto. Qed.

Lemma Observation_reset_idem (now : Timestamp) (o : Observation) :
  Observation_reset now (Observation_reset now o) = Observation_reset now o.
Proof. unfold Observation_reset. destruct (type_ o) eqn:E; cbn; reflexivity. Qed.

(** X16: [reset] tells whether the statistic exists.  When it does, that
    statistic, and no other, is reset in place, keeping its name and type,
    and the number of statistics stays the same; when it does not, the
    manager is unchanged. *)
Theorem reset_spec :
  forall (name : string) (now : Timestamp) (mgr : StatsMgr),
    match StatsMgr_getObservation name mgr with
    | None => StatsMgr_reset name now mgr = (false, mgr)
    | Some obs =>
        exists mgr' : StatsMgr,
          StatsMgr_reset name now mgr = (true, mgr')
          /\ StatsMgr_getObservation name mgr' = Some (Observation_reset now obs)
          /\ name_ (Observation_reset now obs) = name_ obs
          /\ type_ (Observation_reset now obs) = type_ obs
          /\ (forall n, n <> name ->
                StatsMgr_getObservation n mgr' = StatsMgr_getObservation n mgr)
          /\ StatsMgr_count mgr' = StatsMgr_count mgr
    end.
Proof.
  intros name now mgr. unfold StatsMgr_reset.
  destruct (StatsMgr_getObservation name mgr) as [obs |] eqn:E; [| reflexivity].
  eexists. split; [reflexivity |].
  unfold StatsMgr_getObservation, StatContext_get, StatsMgr_count in *. cbn.
  split; [apply lookup_insert_eq |].
  destruct (Observation_reset_keeps now obs) as [Hn Ht].
  split; [exact Hn |]. split; [exact Ht |]. split.
  - intros n Hne. apply lookup_insert_ne. congruence.
  - apply map_size_insert_Some. eauto.
Qed.

(** X17: [del] tells whether the statistic exists.  When it does, it is
    removed, and no other: it is no longer found, there is one statistic
    less, and a second [del] returns false; when it does not, the manager is
    unchanged.  [deleteObservation] does the same. *)
Theorem del_spec :
  forall (name : string) (mgr : StatsMgr),
    StatsMgr_deleteObservation name mgr = StatsMgr_del name mgr
    /\ match StatsMgr_getObservation name mgr with
       | None => StatsMgr_del name mgr = (false, mgr)
       | Some _ =>
           exists mgr' : StatsMgr,
             StatsMgr_del name mgr = (true, mgr')
             /\ StatsMgr_getObservation name mgr' = None
             /\ (forall n, n <> name ->
                   StatsMgr_getObservation n mgr' = StatsMgr_getObservation n mgr)
             /\ S (StatsMgr_count mgr') = StatsMgr_count mgr
             /\ StatsMgr_del name mgr' = (false, mgr')
       end.
Proof.
  intros name mgr. split; [reflexivity |].
  unfold StatsMgr_del, StatContext_del, StatsMgr_getObservation, StatContext_get,
    StatsMgr_count.
  destruct mgr as [[stats]]. cbn.
  destruct (stats !! name) as [obs |] eqn:E; [| reflexivity].
  eexists. split; [reflexivity |]. cbn.
  split; [apply lookup_delete_eq |]. split; [| split].
  - intros n Hne. apply lookup_delete_ne. congruence.
  - rewrite <- (insert_id stats name obs E) at 2.
    rewrite <- insert_delete_eq.
    rewrite map_size_insert_None by apply lookup_delete_eq. reflexivity.
  - rewrite lookup_delete_eq. reflexivity.
Qed.

(** ** All statistics *)

Lemma assoc_map_to_list (f : Observation -> Element) (l : list (string * Observation))
    (n : string) :
  NoDup l.*1 ->
  assoc n (map (fun s : string * Observation => (s.1, f s.2)) l)
  = f <$> (list_to_map l : gmap string Observation) !! n.
Proof.
  induction l as [| [k o] l IH]; intros Hnd.
  - cbn. rewrite lookup_empty. reflexivity.
  - cbn [map assoc fst snd list_to_map foldr]. cbn in Hnd.
    apply NoDup_cons in Hnd as [Hk Hnd].
    destruct (String.eqb_spec k n) as [-> | Hne].
    + cbn. rewrite lookup_insert_eq. reflexivity.
    + cbn. rewrite lookup_insert_ne by exact Hne. apply IH, Hnd.
Qed.

Lemma map_fst_fmap (l : list (string * Observation)) :
  map (fun x : string * Observation => x.1) l = l.*1.
Proof. induction l as [| x l IH]; cbn; [| rewrite IH]; reflexivity. Qed.

(** X18: the map [getAll] builds has one entry per statistic, under the
    statistic's name, and the entry under a name is the one [get] returns
    for that name. *)
Theorem getAll_agrees_with_get :
  forall mgr : StatsMgr,
    exists entries : list (string * Element),
      StatsMgr_getAll mgr = MapElement entries
      /\ length entries = StatsMgr_count mgr
      /\ NoDup (map fst entries)
      /\ (forall n : string,
            assoc n entries
            = Observation_getJSON <$> StatsMgr_getObservation n mgr)
      /\ (forall n : string,
            StatsMgr_get n mgr
            = match assoc n entries with
              | Some json => MapElement [(n, json)]
              | None => MapElement []
              end).
Proof.
  intros mgr. eexists. split; [reflexivity |].
  set (stats := stats_ (global_ mgr)).
  assert (forall n : string,
            assoc n (map (fun s : string * Observation => (s.1, Observation_getJSON s.2))
                         (map_to_list stats))
            = Observation_getJSON <$> stats !! n) as Hassoc.
  { intros n. rewrite assoc_map_to_list by apply NoDup_fst_map_to_list.
    rewrite list_to_map_to_list. reflexivity. }
  split; [| split; [| split]].
  - rewrite length_map. apply length_map_to_list.
  - rewrite map_map. cbn [fst].
    rewrite map_fst_fmap. apply NoDup_fst_map_to_list.
  - exact Hassoc.
  - intros n. rewrite Hassoc.
    unfold StatsMgr_get, StatsMgr_getObservation, StatContext_get. fold stats.
    destruct (stats !! n); reflexivity.
Qed.

(** X19: after [removeAll] the manager holds no statistic: the count is
    zero, no name is found, [get] and [getAll] return empty maps, and
    [reset] and [del] return false. *)
Theorem removeAll_spec :
  forall (mgr : StatsMgr) (now : Timestamp),
    StatsMgr_count (StatsMgr_removeAll mgr) = 0%nat
    /\ StatsMgr_getAll (StatsMgr_removeAll mgr) = MapElement []
    /\ (forall n : string,
          StatsMgr_getObservation n (StatsMgr_removeAll mgr) = None
          /\ StatsMgr_get n (StatsMgr_removeAll mgr) = MapElement []
          /\ StatsMgr_reset n now (StatsMgr_removeAll mgr)
             = (false, StatsMgr_removeAll mgr)
          /\ StatsMgr_del n (StatsMgr_removeAll mgr)
             = (false, StatsMgr_removeAll mgr)).
Proof.
  intros mgr now.
  split; [apply map_size_empty |].
  split; [unfold StatsMgr_getAll; cbn; rewrite map_to_list_empty; reflexivity |].
  intros n.
  unfold StatsMgr_get, StatsMgr_reset, StatsMgr_del, StatContext_del,
    StatsMgr_getObservation, StatContext_get. cbn.
  rewrite lookup_empty. repeat split.
Qed.

(** X20: [resetAll] resets every statistic and removes or adds none: each
    name is found exactly when it was, with the observation [reset] would
    have left under it, and the count is unchanged.  Resetting all twice at
    the same time is the same as doing it once. *)
Theorem resetAll_spec :
  forall (now : Timestamp) (mgr : StatsMgr),
    (forall n : string,
       StatsMgr_getObservation n (StatsMgr_resetAll now mgr)
       = Observation_reset now <$> StatsMgr_getObservation n mgr)
    /\ (forall n : string,
          StatsMgr_getObservation n (StatsMgr_resetAll now mgr)
          = StatsMgr_getObservation n (StatsMgr_reset n now mgr).2)
    /\ StatsMgr_count (StatsMgr_resetAll now mgr) = StatsMgr_count mgr
    /\ StatsMgr_resetAll now (StatsMgr_resetAll now mgr) = StatsMgr_resetAll now mgr.
Proof.
  intros now mgr.
  unfold StatsMgr_resetAll, StatsMgr_getObservation, StatContext_get, StatsMgr_count,
    StatsMgr_reset, StatsMgr_getObservation, StatContext_get.
  cbn [global_ stats_].
  split; [intros n; apply lookup_fmap |]. split; [| split].
  - intros n. rewrite lookup_fmap.
    destruct (stats_ (global_ mgr) !! n) as [obs |] eqn:E; cbn.
    + rewrite lookup_insert_eq. reflexivity.
    + rewrite E. reflexivity.
  - apply map_size_fmap.
  - do 2 f_equal. rewrite <- map_fmap_compose.
    apply map_fmap_ext. intros i x _. cbn. apply Observation_reset_idem.
Qed.

(** ** Sequences of commands *)

(** X21: every handler either returns an answer whose result is 0 or 1, or
    throws without having changed the manager.  An answer with result 1
    comes with an unchanged manager; [statistic-get] and [statistic-get-all]
    never change the manager. *)
Theorem handlers_change_nothing_on_error :
  forall (c : Command) (params : ConstElementPtr) (now : Timestamp) (mgr : StatsMgr),
    match handle c params now mgr with
    | Return a mgr' =>
        (answer_result a = Some 0 \/ answer_result a = Some 1)
        /\ (answer_result a = Some 1 -> mgr' = mgr)
        /\ (c = statistic_get \/ c = statistic_get_all -> mgr' = mgr)
    | Throw e mgr' => mgr' = mgr
    | Undefined => False
    end.
Proof.
  intros c params now mgr.
  destruct c; cbn;
    unfold statisticGetHandler, statisticResetHandler, statisticRemoveHandler,
      statisticGetAllHandler, statisticResetAllHandler, statisticRemoveAllHandler.
  - destruct params as [p |]; [| cbn; intuition discriminate].
    destruct (Element_get "name" p) as [[e |] | ex]; [| cbn; intuition | reflexivity].
    destruct e; cbn; intuition discriminate.
  - destruct params as [p |]; [| cbn; intuition].
    destruct (Element_get "name" p) as [[e |] | ex]; [| cbn; intuition | reflexivity].
    destruct e; cbn; try (intuition; fail).
    unfold StatsMgr_reset. destruct (StatsMgr_getObservation s mgr); cbn;
      intuition discriminate.
  - destruct params as [p |]; [| cbn; intuition].
    destruct (Element_get "name" p) as [[e |] | ex]; [| cbn; intuition | reflexivity].
    destruct e; cbn; try reflexivity.
    unfold StatsMgr_del, StatContext_del.
    destruct (stats_ (global_ mgr) !! s); cbn; [intuition discriminate |].
    destruct mgr as [ctx]. cbn. intuition.
  - cbn. intuition discriminate.
  - cbn. intuition discriminate.
  - cbn. intuition discriminate.
Qed.

(** X22: once [statistic-remove] has answered a request for a name, whatever
    the answer, the statistic is gone: [statistic-get] for that name answers
    with result 0 and an empty map, and [statistic-reset] and a second
    [statistic-remove] answer with result 1. *)
Theorem remove_then_ask :
  forall (mgr : StatsMgr) (now : Timestamp) (m : list (string * Element)) (n : string),
    assoc "name" m = Some (StringElement n) ->
    exists (a : Element) (mgr' : StatsMgr),
      handle statistic_remove (params_of m) now mgr = Return a mgr'
      /\ (exists a1, handle statistic_get (params_of m) now mgr' = Return a1 mgr'
                     /\ success_answer a1
                     /\ answer_arguments a1 = Some (MapElement []))
      /\ (exists a2, handle statistic_reset (params_of m) now mgr' = Return a2 mgr'
                     /\ error_answer a2)
      /\ (exists a3, handle statistic_remove (params_of m) now mgr' = Return a3 mgr'
                     /\ error_answer a3).
Proof.
  intros mgr now m n Hm.
  assert (forall mgr' : StatsMgr,
            stats_ (global_ mgr') !! n = None ->
            (exists a1, handle statistic_get (params_of m) now mgr' = Return a1 mgr'
                        /\ success_answer a1
                        /\ answer_arguments a1 = Some (MapElement []))
            /\ (exists a2, handle statistic_reset (params_of m) now mgr' = Return a2 mgr'
                           /\ error_answer a2)
            /\ (exists a3, handle statistic_remove (params_of m) now mgr' = Return a3 mgr'
                           /\ error_answer a3)) as Hgone.
  { intros mgr' Hn.
    pose proof (handle_get_named m n now mgr' Hm) as (a1 & E1 & S1 & A1).
    pose proof (handle_reset_named m n now mgr' Hm) as H2.
    pose proof (handle_remove_named m n now mgr' Hm) as H3.
    rewrite Hn in H2, H3.
    split; [| split; assumption].
    exists a1. split; [exact E1 |]. split; [exact S1 |].
    rewrite A1. unfold StatsMgr_get, StatsMgr_getObservation, StatContext_get.
    rewrite Hn. reflexivity. }
  pose proof (handle_remove_named m n now mgr Hm) as H.
  destruct (stats_ (global_ mgr) !! n) as [obs |] eqn:E.
  - destruct H as (a & Ea & _). eexists a, _. split; [exact Ea |].
    apply Hgone. cbn. apply lookup_delete_eq.
  - destruct H as (a & Ea & _). exists a, mgr. split; [exact Ea |].
    apply Hgone, E.
Qed.

Lemma remove_then_ask_witness :
  assoc "name" [("name", StringElement "pkt4-received")]
  = Some (StringElement "pkt4-received")
  /\ exists (a : Element) (mgr' : StatsMgr),
       handle statistic_remove (params_of [("name", StringElement "pkt4-received")])
         0 mgr_pkt4 = Return a mgr'
       /\ exists a3,
            handle statistic_remove
              (params_of [("name", StringElement "pkt4-received")]) 0 mgr'
            = Return a3 mgr'
            /\ error_answer a3.
Proof.
  split; [reflexivity |].
  destruct (remove_then_ask mgr_pkt4 0 [("name", StringElement "pkt4-received")]
              "pkt4-received" eq_refl) as (a & mgr' & E & _ & _ & H3).
  exists a, mgr'. split; [exact E | exact H3].
Defined.

(** X23: after [statistic-remove-all], whatever its parameters,
    [statistic-get-all] answers with result 0 and an empty map, and the
    manager counts no statistic; after [statistic-reset-all] the manager
    counts as many statistics as before. *)
Theorem all_commands_compose :
  forall (mgr : StatsMgr) (now : Timestamp) (p1 p2 : ConstElementPtr),
    (exists (a : Element) (mgr' : StatsMgr),
       handle statistic_remove_all p1 now mgr = Return a mgr'
       /\ success_answer a
       /\ StatsMgr_count mgr' = 0%nat
       /\ exists a', handle statistic_get_all p2 now mgr' = Return a' mgr'
                     /\ success_answer a'
                     /\ answer_arguments a' = Some (MapElement []))
    /\ (exists (a : Element) (mgr' : StatsMgr),
          handle statistic_reset_all p1 now mgr = Return a mgr'
          /\ success_answer a
          /\ StatsMgr_count mgr' = StatsMgr_count mgr
          /\ forall n, StatsMgr_getObservation n mgr'
                       = Observation_reset now <$> StatsMgr_getObservation n mgr).
Proof.
  intros mgr now p1 p2. split.
  - eexists _, _. split; [reflexivity |]. split; [reflexivity |].
    split; [apply map_size_empty |].
    eexists. split; [reflexivity |]. split; [reflexivity |].
    cbn. unfold StatsMgr_getAll. cbn. rewrite map_to_list_empty. reflexivity.
  - eexists _, _. split; [reflexivity |]. split; [reflexivity |].
    split.
    + unfold StatsMgr_count, StatsMgr_resetAll. cbn. apply map_size_fmap.
    + intros n. unfold StatsMgr_getObservation, StatContext_get, StatsMgr_resetAll.
      cbn. apply lookup_fmap.
Qed.

End StatsMore.

(** * The registry of host data source factories

    A shallow embedding of src/lib/dhcpsrv/host_data_source_factory.cc.
    Logging is not modelled.  The list of sources, which the C++ functions
    update through a reference, and the static registry [map_] are passed in
    and returned. *)

Module HostDataSourceFactory.

Local Open Scope list_scope.

(** [DatabaseConnection::ParameterMap], a [std::map<std::string, std::string>]. *)
Abbreviation ParameterMap := (gmap string string).

(** What the factory code reads off a host data source, through
    [getType()], [getParameters()] and [isUnusable()]. *)
Record HostDataSource : Type := mkSource {
  getType : string;
  getParameters : ParameterMap;
  isUnusable : bool
}.

(** [HostDataSourcePtr]: [None] is the null pointer. *)
Abbreviation HostDataSourcePtr := (option HostDataSource).

Definition HostDataSourceList : Type := list HostDataSourcePtr.

(** [HostDataSourceFactory::Factory]: a function from the parameters to a
    pointer.  A factory that throws is not modelled. *)
Definition Factory : Type := ParameterMap -> HostDataSourcePtr.

(** The exceptions [add] throws. *)
Inductive FactoryException : Type :=
  | InvalidParameter
  | InvalidType
  | Unexpected.

Section WithParse.

(** [DatabaseConnection::parse], defined outside this unit: any function
    from access strings to parameter maps. *)
Variable parse : string -> ParameterMap.

(** [HostDataSourceFactory::add]: the exception thrown, if any, and the list
    of sources the call leaves. *)
Definition add (map_ : gmap string Factory) (sources : HostDataSourceList)
    (dbaccess : string) : option FactoryException * HostDataSourceList :=
  let parameters := parse dbaccess in
  match parameters !! "type" with
  | None => (Some InvalidParameter, sources)
  | Some db_type =>
      match map_ !! db_type with
      | None => (Some InvalidType, sources)
      | Some factory =>
          let pushed := sources ++ [factory parameters] in
          match last pushed with
          | Some (Some _) => (None, pushed)
          | _ => (Some Unexpected, removelast pushed)
          end
      end
  end.

(** [HostDataSourceFactory::del(sources, db_type)]: [None] stands for the
    dereference of a null pointer held by the list. *)
Fixpoint del (sources : HostDataSourceList) (db_type : string)
  : option (bool * HostDataSourceList) :=
  match sources with
  | [] => Some (false, [])
  | None :: _ => None
  | Some ds :: rest =>
      if negb (String.eqb (getType ds) db_type) then
        match del rest db_type with
        | Some (b, rest') => Some (b, Some ds :: rest')
        | None => None
        end
      else Some (true, rest)
  end.

(** The loop of [del(sources, db_type, dbaccess, if_unusable)], with the
    local [deleted] as an argument. *)
Fixpoint del_loop (sources : HostDataSourceList) (db_type : string)
    (parameters : ParameterMap) (if_unusable deleted : bool)
  : option (bool * HostDataSourceList) :=
  match sources with
  | [] => Some (deleted, [])
  | None :: _ => None
  | Some ds :: rest =>
      if negb (String.eqb (getType ds) db_type)
         || negb (bool_decide (getParameters ds = parameters)) then
        match del_loop rest db_type parameters if_unusable deleted with
        | Some (b, rest') => Some (b, Some ds :: rest')
        | None => None
        end
      else if if_unusable && negb (isUnusable ds) then
        match del_loop rest db_type parameters if_unusable false with
        | Some (b, rest') => Some (b, Some ds :: rest')
        | None => None
        end
      else Some (true, rest)
  end.

(** [HostDataSourceFactory::del(sources, db_type, dbaccess, if_unusable)] *)
Definition del_access (sources : HostDataSourceList) (db_type dbaccess : string)
    (if_unusable : bool) : option (bool * HostDataSourceList) :=
  del_loop sources db_type (parse dbaccess) if_unusable
           (if if_unusable then true else false).

End WithParse.

(** [HostDataSourceFactory::registerFactory] *)
Definition registerFactory (db_type : string) (factory : Factory) (no_log : bool)
    (map_ : gmap string Factory) : bool * gmap string Factory :=
  match map_ !! db_type with
  | Some _ => (false, map_)
  | None => (true, <[db_type := factory]> map_)
  end.

(** [HostDataSourceFactory::deregisterFactory] *)
Definition deregisterFactory (db_type : string) (no_log : bool)
    (map_ : gmap string Factory) : bool * gmap string Factory :=
  match map_ !! db_type with
  | Some _ => (true, delete db_type map_)
  | None => (false, map_)
  end.

(** [HostDataSourceFactory::registeredFactory] *)
Definition registeredFactory (db_type : string) (map_ : gmap string Factory) : bool :=
  match map_ !! db_type with
  | Some _ => true
  | None => false
  end.

End HostDataSourceFactory.

Module HostDataSourceFactorySpec.
Import HostDataSourceFactory.

Local Open Scope list_scope.

(** X24: registering a factory under a type that has none succeeds: the
    type is then registered with that factory, the other types are as
    before, a second registration under the type is refused and changes
    nothing, and deregistering the type succeeds and restores the registry.
    Deregistering a type that is not registered returns false and changes
    nothing. *)
Theorem register_deregister :
  forall (db_type : string) (f g : Factory) (no_log : bool)
         (map_ : gmap string Factory),
    registeredFactory db_type map_ = false ->
    exists map' : gmap string Factory,
      registerFactory db_type f no_log map_ = (true, map')
      /\ registeredFactory db_type map' = true
      /\ map' !! db_type = Some f
      /\ (forall t, t <> db_type -> map' !! t = map_ !! t)
      /\ registerFactory db_type g no_log map' = (false, map')
      /\ deregisterFactory db_type no_log map' = (true, map_)
      /\ deregisterFactory db_type no_log map_ = (false, map_).
Proof.
  intros db_type f g no_log map_ Hreg.
  unfold registeredFactory, registerFactory, deregisterFactory in *.
  destruct (map_ !! db_type) eqn:E; [discriminate |].
  eexists. split; [reflexivity |].
  rewrite lookup_insert_eq.
  split; [reflexivity |]. split; [reflexivity |]. split.
  - intros t Ht. apply lookup_insert_ne. congruence.
  - split; [reflexivity |]. split; [| reflexivity].
    rewrite delete_insert_id by exact E. reflexivity.
Qed.

Lemma register_deregister_witness :
  registeredFactory "mysql" (∅ : gmap string Factory) = false
  /\ exists map' : gmap string Factory,
       registerFactory "mysql" (fun _ => None) true ∅ = (true, map')
       /\ registeredFactory "mysql" map' = true
       /\ deregisterFactory "mysql" true map' = (true, ∅).
Proof.
  assert (registeredFactory "mysql" (∅ : gmap string Factory) = false) as H0
    by reflexivity.
  split; [exact H0 |].
  destruct (register_deregister "mysql" (fun _ => None) (fun _ => None) true
              (∅ : gmap string Factory) H0)
    as (map' & E & R & _ & _ & _ & D & _).
  exists map'. split; [exact E |]. split; [exact R | exact D].
Defined.

(** X25: [add] leaves the list of sources as it was whenever it throws:
    [InvalidParameter] when the access string has no type, [InvalidType]
    when no factory is registered for the type, and [Unexpected] when the
    factory returns a null pointer.  Otherwise it appends the source the
    factory built for the parsed parameters.  In every case a list without
    null pointers stays without null pointers. *)
Theorem add_spec :
  forall (parse : string -> ParameterMap) (map_ : gmap string Factory)
         (sources : HostDataSourceList) (dbaccess : string),
    match parse dbaccess !! "type" with
    | None => add parse map_ sources dbaccess = (Some InvalidParameter, sources)
    | Some db_type =>
        match map_ !! db_type with
        | None => add parse map_ sources dbaccess = (Some InvalidType, sources)
        | Some factory =>
            match factory (parse dbaccess) with
            | None => add parse map_ sources dbaccess = (Some Unexpected, sources)
            | Some ds => add parse map_ sources dbaccess = (None, sources ++ [Some ds])
            end
        end
    end
    /\ (Forall is_Some sources ->
        Forall is_Some (add parse map_ sources dbaccess).2).
Proof.
  intros parse map_ sources dbaccess.
  assert (match parse dbaccess !! "type" with
          | None => add parse map_ sources dbaccess = (Some InvalidParameter, sources)
          | Some db_type =>
              match map_ !! db_type with
              | None => add parse map_ sources dbaccess = (Some InvalidType, sources)
              | Some factory =>
                  match factory (parse dbaccess) with
                  | None => add parse map_ sources dbaccess = (Some Unexpected, sources)
                  | Some ds =>
                      add parse map_ sources dbaccess = (None, sources ++ [Some ds])
                  end
              end
          end) as H.
  { unfold add.
    destruct (parse dbaccess !! "type") as [db_type |]; [| reflexivity].
    destruct (map_ !! db_type) as [factory |]; [| reflexivity].
    rewrite last_snoc.
    destruct (factory (parse dbaccess)) as [ds |]; [reflexivity |].
    rewrite removelast_last. reflexivity. }
  split; [exact H |].
  intros Hs.
  destruct (parse dbaccess !! "type") as [db_type |]; [| rewrite H; exact Hs].
  destruct (map_ !! db_type) as [factory |]; [| rewrite H; exact Hs].
  destruct (factory (parse dbaccess)) as [ds |]; rewrite H; [| exact Hs].
  cbn. apply Forall_app. split; [exact Hs |]. constructor; [eauto | constructor].
Qed.

Lemma add_spec_witness :
  add (fun _ => {[ "type" := "mysql" ]})
      {[ "mysql" := fun p : ParameterMap => Some (mkSource "mysql" p false) ]}
      [] "type=mysql"
  = (None, [Some (mkSource "mysql" {[ "type" := "mysql" ]} false)]).
Proof.
  pose proof (proj1 (add_spec (fun _ => {[ "type" := "mysql" ]})
                {[ "mysql" := fun p : ParameterMap => Some (mkSource "mysql" p false) ]}
                [] "type=mysql")) as H.
  cbv beta in H. rewrite lookup_singleton_eq in H. cbv beta iota in H.
  rewrite lookup_singleton_eq in H. cbv beta iota in H. exact H.
Defined.

(** The first element of a list that satisfies a test, removed. *)
Fixpoint erase_first (p : HostDataSource -> bool) (l : list HostDataSource)
  : list HostDataSource :=
  match l with
  | [] => []
  | x :: l' => if p x then l' else x :: erase_first p l'
  end.

Lemma del_erase_first (l : list HostDataSource) (db_type : string) :
  del (map Some l) db_type
  = Some (existsb (fun ds => String.eqb (getType ds) db_type) l,
          map Some (erase_first (fun ds => String.eqb (getType ds) db_type) l)).
Proof.
  induction l as [| x l IH]; [reflexivity |].
  cbn [map del existsb erase_first]. rewrite IH.
  destruct (String.eqb (getType x) db_type); reflexivity.
Qed.

Lemma erase_first_split (p : HostDataSource -> bool) (l : list HostDataSource) :
  if existsb p l
  then exists l1 x l2,
         l = l1 ++ x :: l2 /\ p x = true /\ existsb p l1 = false
         /\ erase_first p l = l1 ++ l2
  else erase_first p l = l.
Proof.
  induction l as [| y l IH]; [reflexivity |].
  cbn [existsb erase_first]. destruct (p y) eqn:Ey; cbn [orb].
  - exists [], y, l. repeat split. exact Ey.
  - destruct (existsb p l).
    + destruct IH as (l1 & x & l2 & -> & Hx & Hl1 & ->).
      exists (y :: l1), x, l2. cbn. rewrite Ey, Hl1. repeat split. exact Hx.
    + rewrite IH. reflexivity.
Qed.

(** X26: on a list without null pointers, [del] by type returns true
    exactly when some source has the type; it then removes the first such
    source and no other, keeping the order of the rest.  When it returns
    false the list is unchanged. *)
Theorem del_by_type :
  forall (l : list HostDataSource) (db_type : string),
    exists (b : bool) (l' : list HostDataSource),
      del (map Some l) db_type = Some (b, map Some l')
      /\ if b
         then exists l1 ds l2,
                l = l1 ++ ds :: l2 /\ getType ds = db_type
                /\ (forall x, In x l1 -> getType x <> db_type)
                /\ l' = l1 ++ l2
         else l' = l /\ (forall x, In x l -> getType x <> db_type).
Proof.
  intros l db_type. rewrite del_erase_first.
  set (p := fun ds => String.eqb (getType ds) db_type).
  eexists _, _. split; [reflexivity |].
  pose proof (erase_first_split p l) as H.
  destruct (existsb p l) eqn:E.
  - destruct H as (l1 & x & l2 & -> & Hx & Hl1 & ->).
    exists l1, x, l2. split; [reflexivity |].
    split; [apply String.eqb_eq, Hx |]. split; [| reflexivity].
    intros y Hy Heq.
    assert (existsb p l1 = true) as Ht
      by (apply existsb_exists; exists y; split; [exact Hy | apply String.eqb_eq, Heq]).
    congruence.
  - split; [exact H |]. intros y Hy Heq.
    assert (existsb p l = true) as Ht
      by (apply existsb_exists; exists y; split; [exact Hy | apply String.eqb_eq, Heq]).
    congruence.
Qed.

(** A source that [del] with an access string considers: it has the type
    and exactly the parsed parameters. *)
Definition matches (db_type : string) (parameters : ParameterMap)
    (ds : HostDataSource) : bool :=
  String.eqb (getType ds) db_type && bool_decide (getParameters ds = parameters).

Lemma del_loop_erase_first (l : list HostDataSource) (db_type : string)
    (parameters : ParameterMap) (if_unusable deleted : bool) :
  del_loop (map Some l) db_type parameters if_unusable deleted
  = if if_unusable
    then Some (existsb (fun ds => matches db_type parameters ds && isUnusable ds) l
               || deleted && negb (existsb (matches db_type parameters) l),
               map Some (erase_first
                           (fun ds => matches db_type parameters ds && isUnusable ds) l))
    else Some (existsb (matches db_type parameters) l || deleted,
               map Some (erase_first (matches db_type parameters) l)).
Proof.
  revert deleted. induction l as [| x l IH]; intros deleted.
  - cbn. destruct if_unusable; cbn; [rewrite andb_true_r |]; reflexivity.
  - cbn [map del_loop existsb erase_first]. rewrite <- negb_andb.
    change (String.eqb (getType x) db_type
            && bool_decide (getParameters x = parameters))
      with (matches db_type parameters x).
    destruct (matches db_type parameters x) eqn:Em; cbn [negb orb andb].
    + destruct if_unusable; cbn [andb]; [| reflexivity].
      destruct (isUnusable x); cbn [negb]; [reflexivity |].
      rewrite IH. cbn [andb orb negb map].
      rewrite ?andb_false_r, ?orb_false_r. reflexivity.
    + rewrite IH. destruct if_unusable; reflexivity.
Qed.

(** X27: on a list without null pointers, [del] with an access string and
    [if_unusable] unset removes the first source that has the type and the
    parsed parameters, and returns true exactly when there is one.  With
    [if_unusable] set it removes the first such source that is unusable and
    returns true; when no such source is unusable it removes nothing, and
    returns true if no source has the type and the parameters at all, false
    if one has (and is usable). *)
Theorem del_by_access :
  forall (parse : string -> ParameterMap) (l : list HostDataSource)
         (db_type dbaccess : string),
    del_access parse (map Some l) db_type dbaccess false
    = Some (existsb (matches db_type (parse dbaccess)) l,
            map Some (erase_first (matches db_type (parse dbaccess)) l))
    /\ del_access parse (map Some l) db_type dbaccess true
       = if existsb (fun ds => matches db_type (parse dbaccess) ds && isUnusable ds) l
         then Some (true,
                    map Some (erase_first
                                (fun ds => matches db_type (parse dbaccess) ds
                                           && isUnusable ds) l))
         else Some (negb (existsb (matches db_type (parse dbaccess)) l), map Some l).
Proof.
  intros parse l db_type dbaccess. unfold del_access.
  rewrite !del_loop_erase_first. split.
  - rewrite orb_false_r. reflexivity.
  - pose proof (erase_first_split
                  (fun ds => matches db_type (parse dbaccess) ds && isUnusable ds) l) as H.
    destruct (existsb (fun ds => matches db_type (parse dbaccess) ds && isUnusable ds) l).
    + reflexivity.
    + rewrite H. reflexivity.
Qed.

End HostDataSourceFactorySpec.

(** * TTL values of resource records

    A shallow embedding of the text side of src/lib/dns/rrttl.cc: the
    constructor from a string and [toText].  The wire side reads and writes
    through buffer classes defined elsewhere and is not modelled. *)

Module RRTTL.

(** The outcome of the constructor: the TTL value, the exception
    [InvalidRRTTL], or a signed overflow of the 64-bit accumulator, which C++
    leaves undefined.  [OutOfFuel] is the bound of the model's loop, which
    the constructor never reaches (see [RRTTL_from_string_range]). *)
Inductive outcome_ttl : Type :=
  | Constructed (ttlval_ : Z)
  | InvalidRRTTL
  | SignedOverflow
  | OutOfFuel.

(** [isalpha] in the C locale. *)
Definition myIsalpha (c : ascii) : bool :=
  let n := Z.of_nat (nat_of_ascii c) in
  (65 <=? n) && (n <=? 90) || (97 <=? n) && (n <=? 122).

(** [toupper] in the C locale. *)
Definition toupper (c : ascii) : ascii :=
  let n := nat_of_ascii c in
  if (97 <=? n)%nat && (n <=? 122)%nat then ascii_of_nat (n - 32) else c.

(** The table [units]. *)
Definition units : list (ascii * Z) :=
  [ ("S"%char, 1);
    ("M"%char, 60);
    ("H"%char, 60 * 60);
    ("D"%char, 24 * 60 * 60);
    ("W"%char, 7 * 24 * 60 * 60) ].

(** The search of the table: the multiplier of the first entry whose unit
    is [c]. *)
Fixpoint find_unit (c : ascii) (table : list (ascii * Z)) : option Z :=
  match table with
  | [] => None
  | (unit, multiply) :: table' =>
      if Ascii.eqb c unit then Some multiply else find_unit c table'
  end.

(** [find_if(pos, end, myIsalpha)]: the characters before the first letter,
    and the string from that letter on (empty when there is no letter). *)
Fixpoint find_alpha (s : string) : string * string :=
  match s with
  | EmptyString => (EmptyString, EmptyString)
  | String c s' =>
      if myIsalpha c then (EmptyString, s)
      else let '(number, rest) := find_alpha s' in (String c number, rest)
  end.

Definition digit_value (c : ascii) : option Z :=
  let n := Z.of_nat (nat_of_ascii c) in
  if (48 <=? n) && (n <=? 57) then Some (n - 48) else None.

Fixpoint digits_value (s : string) (acc : Z) : option Z :=
  match s with
  | EmptyString => Some acc
  | String c s' =>
      match digit_value c with
      | Some d => digits_value s' (10 * acc + d)
      | None => None
      end
  end.

Definition in_int64 (z : Z) : bool :=
  (- 2 ^ 63 <=? z) && (z <=? 2 ^ 63 - 1).

(** [boost::lexical_cast<int64_t>], a library function: an optional sign
    followed by one or more decimal digits and nothing else, denoting a
    number that fits 64 bits; [None] is [bad_lexical_cast]. *)
Definition lexical_cast_int64 (s : string) : option Z :=
  let '(negative, body) :=
    match s with
    | String "-"%char s' => (true, s')
    | String "+"%char s' => (false, s')
    | _ => (false, s)
    end in
  match body with
  | EmptyString => None
  | _ =>
      match digits_value body 0 with
      | None => None
      | Some v =>
          let r := if negative then - v else v in
          if in_int64 r then Some r else None
      end
  end.

(** What the [while] loop leaves: the accumulated value at its exit, or the
    reason why it did not reach its exit. *)
Inductive loop_result : Type :=
  | Exit (val : Z)
  | Throws
  | Overflows
  | Exhausted.

(** The [while (pos != end)] loop of the constructor; [s] is the string from
    [pos] on.  Every [bad_lexical_cast] is caught and rethrown as
    [InvalidRRTTL]. *)
Fixpoint parse_loop (fuel : nat) (s : string) (val : Z) : loop_result :=
  match s with
  | EmptyString => Exit val
  | String _ _ =>
      match fuel with
      | O => Exhausted
      | S fuel' =>
          let '(number, rest) := find_alpha s in
          match (match rest with
                 | EmptyString => Some 1
                 | String unit _ => find_unit (toupper unit) units
                 end) with
          | None => Throws
          | Some multiply =>
              match number with
              | EmptyString => Throws
              | String _ _ =>
                  match lexical_cast_int64 number with
                  | None => Throws
                  | Some value =>
                      if negb (in_int64 (multiply * value)
                               && in_int64 (val + multiply * value))
                      then Overflows
                      else
                        if (10 <? Z.of_nat (String.length number))
                           || (value <=? 0)
                           || (val + multiply * value <=? 0)
                           || (4294967295 <=? val + multiply * value)
                        then Throws
                        else
                          parse_loop fuel'
                            (match rest with
                             | EmptyString => EmptyString
                             | String _ rest' => rest'
                             end)
                            (val + multiply * value)
                  end
              end
          end
      end
  end.

(** [RRTTL::RRTTL(const std::string&)] *)
Definition RRTTL_from_string (ttlstr : string) : outcome_ttl :=
  match ttlstr with
  | EmptyString => InvalidRRTTL
  | String _ _ =>
      match parse_loop (String.length ttlstr) ttlstr 0 with
      | Throws => InvalidRRTTL
      | Overflows => SignedOverflow
      | Exhausted => OutOfFuel
      | Exit val =>
          if (0 <=? val) && (val <=? 4294967295) then Constructed val
          else InvalidRRTTL
      end
  end.

Definition digit_char (d : Z) : ascii := ascii_of_nat (Z.to_nat (48 + d)).

(** The decimal digits of [n] put before [tail], most significant first. *)
Fixpoint decimal (fuel : nat) (n : Z) (tail : string) : string :=
  match fuel with
  | O => tail
  | S fuel' =>
      if n <? 10 then String (digit_char n) tail
      else decimal fuel' (n / 10) (String (digit_char (n mod 10)) tail)
  end.

(** [RRTTL::toText]: the stream output of the 32-bit value, its decimal
    digits (at most ten). *)
Definition toText (ttlval : Z) : string := decimal 10 ttlval EmptyString.

End RRTTL.

Module RRTTLSpec.
Import RRTTL.

(** ** The loop *)

Lemma find_alpha_length (s number rest : string) :
  find_alpha s = (number, rest) ->
  String.length s = (String.length number + String.length rest)%nat.
Proof.
  revert number rest. induction s as [| c s IH]; intros number rest; cbn.
  - intros [= <- <-]. reflexivity.
  - destruct (myIsalpha c).
    + intros [= <- <-]. reflexivity.
    + destruct (find_alpha s) as [a b]. intros [= <- <-].
      cbn. rewrite (IH a b eq_refl). reflexivity.
Qed.

Lemma parse_loop_fuel (fuel : nat) (s : string) (val : Z) :
  (String.length s <= fuel)%nat -> parse_loop fuel s val <> Exhausted.
Proof.
  revert s val. induction fuel as [| fuel IH]; intros s val Hlen.
  - destruct s; [discriminate | cbn in Hlen; lia].
  - destruct s as [| c s]; [discriminate |].
    cbn [parse_loop].
    destruct (find_alpha (String c s)) as [number rest] eqn:F.
    apply find_alpha_length in F.
    destruct (match rest with
              | EmptyString => Some 1
              | String unit _ => find_unit (toupper unit) units
              end); [| discriminate].
    destruct number as [| d number]; [discriminate |].
    destruct (lexical_cast_int64 (String d number)); [| discriminate].
    destruct (negb _); [discriminate |].
    destruct (_ || _); [discriminate |].
    apply IH. destruct rest; cbn in *; lia.
Qed.

Lemma parse_loop_range (fuel : nat) (s : string) (val r : Z) :
  parse_loop fuel s val = Exit r ->
  (s = EmptyString /\ r = val) \/ 0 < r < 4294967295.
Proof.
  revert s val. induction fuel as [| fuel IH]; intros s val.
  - destruct s; [intros [= <-]; auto | discriminate].
  - destruct s as [| c s]; [intros [= <-]; auto |].
    cbn [parse_loop].
    destruct (find_alpha (String c s)) as [number rest].
    destruct (match rest with
              | EmptyString => Some 1
              | String unit _ => find_unit (toupper unit) units
              end) as [multiply |]; [| discriminate].
    destruct number as [| d number]; [discriminate |].
    destruct (lexical_cast_int64 (String d number)) as [value |]; [| discriminate].
    destruct (negb _); [discriminate |].
    destruct (_ || _) eqn:C; [discriminate |].
    rewrite !orb_false_iff in C. destruct C as [[[_ _] C1] C2].
    apply Z.leb_gt in C1, C2.
    intros H. apply IH in H as [[_ ->] | H]; right; lia.
Qed.

(** X28: the constructor from a string always comes to an end, and the
    TTL it constructs is greater than 0 and less than 4294967295: neither
    the text of 0 nor the text of the largest 32-bit value is accepted. *)
Theorem RRTTL_from_string_range :
  forall ttlstr : string,
    RRTTL_from_string ttlstr <> OutOfFuel
    /\ (forall v, RRTTL_from_string ttlstr = Constructed v -> 0 < v < 4294967295)
    /\ RRTTL_from_string (toText 0) = InvalidRRTTL
    /\ RRTTL_from_string (toText 4294967295) = InvalidRRTTL.
Proof.
  intros ttlstr. split; [| split; [| split; reflexivity]].
  - unfold RRTTL_from_string. destruct ttlstr as [| c s]; [discriminate |].
    pose proof (parse_loop_fuel (String.length (String c s)) (String c s) 0
                  (Nat.le_refl _)) as H.
    destruct (parse_loop _ _ 0) as [val | | |]; try discriminate; [| congruence].
    destruct (_ && _); discriminate.
  - intros v. unfold RRTTL_from_string. destruct ttlstr as [| c s]; [discriminate |].
    destruct (parse_loop _ _ 0) as [val | | |] eqn:E; try discriminate.
    destruct (_ && _); [| discriminate]. intros [= <-].
    apply parse_loop_range in E as [[E _] | E]; [discriminate | exact E].
Qed.

(** ** Texts the constructor accepts *)

Lemma digit_char_spec (d : Z) :
  0 <= d <= 9 ->
  digit_value (digit_char d) = Some d /\ myIsalpha (digit_char d) = false.
Proof.
  intros H.
  assert (d = 0 \/ d = 1 \/ d = 2 \/ d = 3 \/ d = 4 \/ d = 5 \/ d = 6 \/ d = 7
          \/ d = 8 \/ d = 9) as C by lia.
  repeat (destruct C as [-> | C]; [split; reflexivity |]).
  subst. split; reflexivity.
Qed.

Lemma decimal_find_alpha (fuel : nat) (n : Z) (tail : string) :
  0 <= n ->
  find_alpha (decimal fuel n tail)
  = (decimal fuel n (find_alpha tail).1, (find_alpha tail).2).
Proof.
  revert n tail. induction fuel as [| fuel IH]; intros n tail Hn.
  - cbn. destruct (find_alpha tail). reflexivity.
  - cbn [decimal]. destruct (Z.ltb_spec n 10) as [Hlt | Hge].
    + cbn [find_alpha].
      destruct (digit_char_spec n) as [_ ->]; [lia |].
      destruct (find_alpha tail). reflexivity.
    + rewrite IH by (apply Z.div_pos; lia). cbn [find_alpha].
      destruct (digit_char_spec (n mod 10)) as [_ ->];
        [pose proof (Z.mod_pos_bound n 10); lia |].
      destruct (find_alpha tail). reflexivity.
Qed.

Lemma decimal_digits (fuel : nat) (n : Z) (tail : string) :
  0 <= n < 10 ^ Z.of_nat fuel ->
  exists k : nat,
    (k <= fuel)%nat
    /\ String.length (decimal fuel n tail) = (k + String.length tail)%nat
    /\ forall acc,
         digits_value (decimal fuel n tail) acc
         = digits_value tail (10 ^ Z.of_nat k * acc + n).
Proof.
  revert n tail. induction fuel as [| fuel IH]; intros n tail Hn.
  - exists 0%nat. cbn in Hn. assert (n = 0) as -> by lia.
    split; [lia |]. split; [reflexivity |]. intros acc. cbn. f_equal. lia.
  - rewrite Nat2Z.inj_succ, Z.pow_succ_r in Hn by lia.
    cbn [decimal]. destruct (Z.ltb_spec n 10) as [Hlt | Hge].
    + exists 1%nat. split; [lia |]. split; [reflexivity |].
      intros acc. cbn [digits_value].
      destruct (digit_char_spec n) as [-> _]; [lia |]. f_equal.
    + destruct (IH (n / 10) (String (digit_char (n mod 10)) tail))
        as (k & Hk & Hlen & Hval).
      { split; [apply Z.div_pos; lia |].
        apply Z.div_lt_upper_bound; lia. }
      exists (S k). split; [lia |]. split.
      * rewrite Hlen. cbn. lia.
      * intros acc. rewrite Hval. cbn [digits_value].
        destruct (digit_char_spec (n mod 10)) as [-> _];
          [pose proof (Z.mod_pos_bound n 10); lia |].
        f_equal. rewrite Nat2Z.inj_succ, Z.pow_succ_r by lia.
        pose proof (Z.div_mod n 10). lia.
Qed.

Lemma decimal_head (fuel : nat) (n : Z) (tail : string) :
  0 <= n ->
  exists d rest, 0 <= d <= 9 /\ decimal (S fuel) n tail = String (digit_char d) rest.
Proof.
  revert n tail. induction fuel as [| fuel IH]; intros n tail Hn.
  - cbn. destruct (n <? 10) eqn:E.
    + apply Z.ltb_lt in E. exists n, tail. split; [lia | reflexivity].
    + exists (n mod 10), tail. split; [| reflexivity].
      pose proof (Z.mod_pos_bound n 10). lia.
  - change (decimal (S (S fuel)) n tail)
      with (if n <? 10 then String (digit_char n) tail
            else decimal (S fuel) (n / 10) (String (digit_char (n mod 10)) tail)).
    destruct (n <? 10) eqn:E.
    + apply Z.ltb_lt in E. exists n, tail. split; [lia | reflexivity].
    + apply IH. apply Z.div_pos; lia.
Qed.

Lemma lexical_cast_unsigned (c : ascii) (rest : string) (d : Z) :
  digit_value c = Some d ->
  lexical_cast_int64 (String c rest)
  = match digits_value (String c rest) 0 with
    | Some v => if in_int64 v then Some v else None
    | None => None
    end.
Proof.
  intros H.
  destruct c as [[] [] [] [] [] [] [] []];
    try (vm_compute in H; discriminate H); reflexivity.
Qed.

Lemma lexical_cast_decimal (v : Z) :
  0 <= v < 10 ^ 10 ->
  exists d rest,
    decimal 10 v EmptyString = String d rest
    /\ lexical_cast_int64 (decimal 10 v EmptyString) = Some v
    /\ (String.length (decimal 10 v EmptyString) <= 10)%nat.
Proof.
  intros Hv.
  destruct (decimal_head 9 v EmptyString) as (d & rest & Hd & E); [lia |].
  destruct (decimal_digits 10 v EmptyString Hv) as (k & Hk & Hlen & Hval).
  exists (digit_char d), rest. split; [exact E |]. split.
  - rewrite E. rewrite (lexical_cast_unsigned _ _ d) by (apply digit_char_spec; exact Hd).
    rewrite <- E, Hval. cbn [digits_value].
    replace (10 ^ Z.of_nat k * 0 + v) with v by lia.
    unfold in_int64.
    destruct (Z.leb_spec (- 2 ^ 63) v); [| lia].
    destruct (Z.leb_spec v (2 ^ 63 - 1)); [reflexivity | lia].
  - rewrite Hlen. cbn. lia.
Qed.

Lemma find_unit_spec (c : ascii) (m : Z) :
  find_unit (toupper c) units = Some m ->
  myIsalpha c = true /\ 1 <= m <= 604800.
Proof.
  destruct c as [[] [] [] [] [] [] [] []]; intros H; cbv in H;
    try discriminate H; injection H as <-;
    (split; [reflexivity | split; discriminate]).
Qed.

(** One pass through the loop over a number followed by a unit letter. *)
Lemma parse_loop_part (fuel : nat) (v : Z) (c : ascii) (rest : string) (val m : Z) :
  0 < v < 10 ^ 10 -> find_unit (toupper c) units = Some m ->
  0 <= val -> val + m * v < 4294967295 ->
  parse_loop (S fuel) (decimal 10 v (String c rest)) val
  = parse_loop fuel rest (val + m * v).
Proof.
  intros Hv Hm Hval Hsum.
  destruct (find_unit_spec c m Hm) as [Hc Hmb].
  destruct (lexical_cast_decimal v) as (d & r & E & Hcast & Hlen); [lia |].
  destruct (decimal_head 9 v (String c rest)) as (d' & r' & _ & E'); [lia |].
  rewrite E'. cbn [parse_loop]. rewrite <- E'.
  rewrite decimal_find_alpha by lia. cbn [find_alpha]. rewrite Hc. cbn [fst snd].
  rewrite Hm, E. rewrite <- E, Hcast.
  assert (in_int64 (m * v) && in_int64 (val + m * v) = true) as ->.
  { unfold in_int64. apply andb_true_iff. split; apply andb_true_iff; split;
      apply Z.leb_le; nia. }
  cbn [negb].
  assert ((10 <? Z.of_nat (String.length (decimal 10 v EmptyString)))
          || (v <=? 0) || (val + m * v <=? 0) || (4294967295 <=? val + m * v)
          = false) as ->.
  { rewrite !orb_false_iff. repeat split;
      [apply Z.ltb_ge; lia | apply Z.leb_gt; lia | apply Z.leb_gt; nia
       | apply Z.leb_gt; lia]. }
  reflexivity.
Qed.

(** The last pass, over a number that ends the string. *)
Lemma parse_loop_last (fuel : nat) (v val : Z) :
  0 < v -> 0 <= val -> val + v < 4294967295 ->
  parse_loop (S fuel) (decimal 10 v EmptyString) val = Exit (val + v).
Proof.
  intros Hv Hval Hsum.
  destruct (lexical_cast_decimal v) as (d & r & E & Hcast & Hlen); [lia |].
  rewrite E. cbn [parse_loop]. rewrite <- E.
  rewrite decimal_find_alpha by lia. cbn [find_alpha fst snd].
  rewrite E. rewrite <- E, Hcast.
  assert (in_int64 (1 * v) && in_int64 (val + 1 * v) = true) as ->.
  { unfold in_int64. apply andb_true_iff. split; apply andb_true_iff; split;
      apply Z.leb_le; lia. }
  cbn [negb].
  assert ((10 <? Z.of_nat (String.length (decimal 10 v EmptyString)))
          || (v <=? 0) || (val + 1 * v <=? 0) || (4294967295 <=? val + 1 * v)
          = false) as ->.
  { rewrite !orb_false_iff. repeat split;
      [apply Z.ltb_ge; lia | apply Z.leb_gt; lia | apply Z.leb_gt; lia
       | apply Z.leb_gt; lia]. }
  destruct fuel; cbn; f_equal; lia.
Qed.

(** A TTL text made of numbers, each followed by a unit letter, and a last
    part [last] (empty, or a number without unit). *)
Fixpoint ttl_text (parts : list (Z * ascii)) (last : string) : string :=
  match parts with
  | [] => last
  | (v, c) :: parts' => decimal 10 v (String c (ttl_text parts' last))
  end.

(** The multiplier of a unit letter, 0 for any other character. *)
Definition multiplier (c : ascii) : Z :=
  match find_unit (toupper c) units with
  | Some m => m
  | None => 0
  end.

Fixpoint ttl_value (parts : list (Z * ascii)) : Z :=
  match parts with
  | [] => 0
  | (v, c) :: parts' => v * multiplier c + ttl_value parts'
  end.

Definition valid_part (part : Z * ascii) : Prop :=
  0 < part.1 /\ 0 < multiplier part.2.

Lemma ttl_value_nonneg (parts : list (Z * ascii)) :
  Forall valid_part parts -> 0 <= ttl_value parts.
Proof.
  induction 1 as [| [v c] parts [Hv Hc] _ IH]; cbn in *; [lia | nia].
Qed.

Lemma parse_loop_parts (parts : list (Z * ascii)) (fuel : nat) (last : string)
    (val : Z) :
  Forall valid_part parts -> 0 <= val ->
  val + ttl_value parts < 4294967295 ->
  parse_loop (length parts + fuel) (ttl_text parts last) val
  = parse_loop fuel last (val + ttl_value parts).
Proof.
  intros Hparts. revert val.
  induction Hparts as [| [v c] parts [Hv Hc] Hrest IH]; intros val Hval Hsum.
  - cbn. f_equal. lia.
  - cbn [length ttl_text ttl_value Nat.add] in *. cbn [fst snd] in Hv, Hc.
    pose proof (ttl_value_nonneg parts Hrest) as Hnn.
    unfold multiplier in *.
    destruct (find_unit (toupper c) units) as [m |] eqn:Hm; [| lia].
    rewrite (parse_loop_part _ v c _ val m); try assumption; try nia.
    rewrite IH by nia. f_equal. lia.
Qed.

Lemma ttl_text_length (parts : list (Z * ascii)) (last : string) :
  Forall valid_part parts -> ttl_value parts < 4294967295 ->
  (length parts + String.length last <= String.length (ttl_text parts last))%nat.
Proof.
  induction 1 as [| [v c] parts [Hv Hc] Hrest IH]; intros Hsum; [reflexivity |].
  cbn [length ttl_text ttl_value] in *. cbn [fst snd] in Hv, Hc.
  pose proof (ttl_value_nonneg parts Hrest) as Hnn.
  destruct (decimal_digits 10 v (String c (ttl_text parts last)))
    as (k & _ & Hlen & _); [nia |].
  rewrite Hlen. cbn [String.length]. specialize (IH ltac:(nia)). lia.
Qed.

Lemma RRTTL_from_string_unfold (s : string) :
  (1 <= String.length s)%nat ->
  RRTTL_from_string s
  = match parse_loop (String.length s) s 0 with
    | Throws => InvalidRRTTL
    | Overflows => SignedOverflow
    | Exhausted => OutOfFuel
    | Exit val =>
        if (0 <=? val) && (val <=? 4294967295) then Constructed val
        else InvalidRRTTL
    end.
Proof. destruct s; [cbn; lia | reflexivity]. Qed.

(** X29: the constructor reads a text of numbers, each followed by one of
    the unit letters S, M, H, D, W in either case, and possibly a last number
    without unit, as the sum of the numbers multiplied by their units (1,
    60, 3600, 86400, 604800 seconds), provided every number is positive and
    the sum is less than 4294967295.  In particular it reads back the text
    [toText] gives of any TTL greater than 0 and less than 4294967295. *)
Theorem RRTTL_from_string_units :
  (forall (parts : list (Z * ascii)) (last : Z),
     Forall valid_part parts -> 0 < last ->
     ttl_value parts + last < 4294967295 ->
     RRTTL_from_string (ttl_text parts (toText last))
     = Constructed (ttl_value parts + last))
  /\ (forall (part : Z * ascii) (parts : list (Z * ascii)),
        Forall valid_part (part :: parts) ->
        ttl_value (part :: parts) < 4294967295 ->
        RRTTL_from_string (ttl_text (part :: parts) EmptyString)
        = Constructed (ttl_value (part :: parts)))
  /\ (forall v : Z,
        0 < v < 4294967295 -> RRTTL_from_string (toText v) = Constructed v).
Proof.
  assert (forall (parts : list (Z * ascii)) (last : Z),
            Forall valid_part parts -> 0 < last ->
            ttl_value parts + last < 4294967295 ->
            RRTTL_from_string (ttl_text parts (toText last))
            = Constructed (ttl_value parts + last)) as Hlast.
  { intros parts last Hparts Hl Hsum.
    pose proof (ttl_value_nonneg parts Hparts) as Hnn.
    pose proof (ttl_text_length parts (toText last) Hparts ltac:(lia)) as Hlen.
    destruct (lexical_cast_decimal last) as (d & r & E & _ & _); [lia |].
    unfold toText in *.
    assert (1 <= String.length (decimal 10 last EmptyString))%nat as Hl1
      by (rewrite E; cbn; lia).
    rewrite RRTTL_from_string_unfold by lia.
    replace (String.length (ttl_text parts (decimal 10 last EmptyString)))
      with (length parts
            + S (String.length (ttl_text parts (decimal 10 last EmptyString))
                 - length parts - 1))%nat by lia.
    rewrite parse_loop_parts by (try assumption; lia).
    rewrite parse_loop_last by lia. rewrite !Z.add_0_l.
    destruct (Z.leb_spec 0 (ttl_value parts + last)); [| lia].
    destruct (Z.leb_spec (ttl_value parts + last) 4294967295); [| lia].
    reflexivity. }
  split; [exact Hlast |]. split.
  - intros part parts Hparts Hsum.
    pose proof (ttl_value_nonneg _ Hparts) as Hnn.
    pose proof (ttl_text_length _ EmptyString Hparts Hsum) as Hlen.
    assert (1 <= length (part :: parts))%nat as Hone by (cbn; lia).
    rewrite RRTTL_from_string_unfold by lia.
    replace (String.length (ttl_text (part :: parts) EmptyString))
      with (length (part :: parts)
            + (String.length (ttl_text (part :: parts) EmptyString)
               - length (part :: parts)))%nat by lia.
    rewrite parse_loop_parts by (try assumption; lia).
    assert (forall f v, parse_loop f EmptyString v = Exit v) as ->
      by (intros [] ?; reflexivity).
    rewrite !Z.add_0_l.
    assert (0 < ttl_value (part :: parts)) as Hpos.
    { destruct part as [v c]. inversion Hparts as [| ? ? [Hv Hc] Hrest]; subst.
      pose proof (ttl_value_nonneg _ Hrest). cbn in *. nia. }
    destruct (Z.leb_spec 0 (ttl_value (part :: parts))); [| lia].
    destruct (Z.leb_spec (ttl_value (part :: parts)) 4294967295); [| lia].
    reflexivity.
  - intros v Hv. apply (Hlast [] v); [constructor | lia | cbn; lia].
Qed.

Lemma RRTTL_from_string_units_witness :
  RRTTL_from_string "1h30m" = Constructed 5400
  /\ RRTTL_from_string "1W2D3" = Constructed 777603
  /\ RRTTL_from_string "4294967294" = Constructed 4294967294.
Proof.
  destruct RRTTL_from_string_units as (Hlast & Hunits & Htext).
  split; [| split].
  - apply (Hunits (1, "h"%char) [(30, "m"%char)]).
    + repeat constructor.
    + reflexivity.
  - apply (Hlast [(1, "W"%char); (2, "D"%char)] 3).
    + repeat constructor.
    + reflexivity.
    + reflexivity.
  - apply (Htext 4294967294). split; reflexivity.
Defined.

(** ** Texts the constructor rejects *)

(** X30: the constructor throws [InvalidRRTTL] on the empty string, on
    every string that begins with a letter, and on every string whose first
    letter is not one of S, M, H, D, W in either case. *)
Theorem RRTTL_from_string_rejects :
  RRTTL_from_string EmptyString = InvalidRRTTL
  /\ (forall (c : ascii) (s : string),
        myIsalpha c = true -> RRTTL_from_string (String c s) = InvalidRRTTL)
  /\ (forall (s number rest : string) (c : ascii),
        find_alpha s = (number, String c rest) ->
        find_unit (toupper c) units = None ->
        RRTTL_from_string s = InvalidRRTTL).
Proof.
  split; [reflexivity |]. split.
  - intros c s Hc. unfold RRTTL_from_string.
    cbn [String.length parse_loop find_alpha]. rewrite Hc.
    destruct (find_unit (toupper c) units); reflexivity.
  - intros s number rest c F Hu. unfold RRTTL_from_string.
    destruct s as [| a s]; [reflexivity |].
    cbn [String.length parse_loop]. rewrite F, Hu. reflexivity.
Qed.

Lemma RRTTL_from_string_rejects_witness :
  RRTTL_from_string "12x" = InvalidRRTTL /\ RRTTL_from_string "W1" = InvalidRRTTL.
Proof.
  destruct RRTTL_from_string_rejects as (_ & Hletter & Hunit).
  split.
  - apply (Hunit "12x" "12" "" "x"%char); reflexivity.
  - apply Hletter. reflexivity.
Defined.

End RRTTLSpec.
